(** * Synchronisation and eligibility engine of the Mining Masters front end

    A shallow embedding of the polling code of the front end:
    - [StakingSyncService] (services/StakingSyncService.ts): the staking
      snapshot read, the manual sync gate and the local reward estimate;
    - [UseExpeditions] (hooks/useExpeditions.ts): the debounced, token
      guarded fetch cycle of expedition statuses and its aggregates;
    - [UseMealStatuses] and [UseFeedingStatus] (hooks/): the staked miner
      read with its cache, and the feeding aggregate.

    Conventions.  JavaScript numbers that hold integers (ids, counters,
    second and millisecond timestamps) are modelled by [Z]: the embedding
    covers the values that a binary64 number holds exactly.  The reward
    estimate does fractional arithmetic and is modelled on binary64
    ([PrimFloat]).  A promise that settles is an [outcome]: resolved with a
    value or rejected with an error.  React state written by a setter and
    the value a callback reads from the scope it was created in are kept
    apart: the first lives in the record of the hook, the second is an
    argument of the callback. *)

From Stdlib Require Import ZArith List Bool String Ascii Lia Floats.
From Stdlib Require Import Permutation Sorted.
From Stdlib Require Decimal DecimalString DecimalZ.
Import ListNotations.

Open Scope Z_scope.

(** ** Promises and errors *)

Inductive outcome (A : Type) : Type :=
| Resolved (a : A)
| Rejected (e : string).
Arguments Resolved {A} a.
Arguments Rejected {A} e.

Definition is_rejected {A : Type} (o : outcome A) : bool :=
  match o with Resolved _ => false | Rejected _ => true end.

(** JavaScript truthiness of a string that may be absent. *)
Definition truthy (s : option string) : bool :=
  match s with
  | Some EmptyString => false
  | Some _ => true
  | None => false
  end.

(** ** Numbers as text *)

(** [String(n)] for an integer number below 10^21: its decimal
    numeral. *)
Definition StringOfNumber (n : Z) : string :=
  DecimalString.NilZero.string_of_int (Z.to_int n).

(** [Number(b)] for a bigint [b]: the nearest binary64 value, ties to
    even.  Below 2^53 in magnitude it is [b] itself; from there on the
    numbers are 2^e apart, and the result is still an integer.  Values
    from 2^1024 on, which give [Infinity], are beyond what a contract
    read returns. *)
Definition bigintToNumber (b : Z) : Z :=
  let a := Z.abs b in
  if a <? 2 ^ 53 then b
  else
    let e := Z.log2 a - 52 in
    let q := a / 2 ^ e in
    let r := a mod 2 ^ e in
    let half := 2 ^ (e - 1) in
    let q' := if (half <? r) || ((r =? half) && Z.odd q) then q + 1 else q in
    Z.sgn b * (q' * 2 ^ e).

Fixpoint repeatChar (c : ascii) (n : nat) : string :=
  match n with
  | O => EmptyString
  | S n' => String c (repeatChar c n')
  end.

(** [s.padStart(width, c)] for a one character filler. *)
Definition padStart (width : nat) (c : ascii) (s : string) : string :=
  append (repeatChar c (width - String.length s)) s.

(** * services/StakingSyncService.ts *)

Module StakingSyncService.

Definition MIN_SYNC_INTERVAL : Z := 30000.

Record StakingData : Type := {
  stakedMiners : list Z;
  stakedMinerCount : Z;
  pendingRewards : string;
  gemsPerSecond : string;
  lastSyncTimestamp : Z;
  userAddress : string
}.

(** The three contract reads of one [getStakingData] call. *)
Record Chain : Type := {
  rpc_getStakedMiners : outcome (list Z);
  rpc_getPendingRewards : outcome Z;
  rpc_GEMS_PER_SECOND : outcome Z
}.

(** The one private field the methods below read and write. *)
Record Service : Type := { svc_lastSyncTimestamp : Z }.

(** The object literal of both [catch] blocks. *)
Definition fallbackData (walletAddress : string) (now : Z) : StakingData :=
  {| stakedMiners := [];
     stakedMinerCount := 0;
     pendingRewards := "0";
     gemsPerSecond := "0";
     lastSyncTimestamp := now;
     userAddress := walletAddress |}.

Section Ethers.

(** [ethers.formatUnits] and the bigint to number conversion belong to
    the platform; the service is generic in them. *)
Variable formatUnits : Z -> Z -> string.
Variable NumberOfBigInt : Z -> Z.

(** [getStakingData]: [now] is the value of the one [Date.now()] call
    made on the path taken. *)
Definition getStakingData (svc : Service) (chain : Chain)
    (walletAddress : string) (now : Z) : StakingData * Service :=
  match rpc_getStakedMiners chain with
  | Rejected _ => (fallbackData walletAddress now, svc)
  | Resolved miners =>
      let count := Z.of_nat (List.length miners) in
      match rpc_getPendingRewards chain with
      | Rejected _ => (fallbackData walletAddress now, svc)
      | Resolved rewards =>
          let formattedRewards := formatUnits rewards 18 in
          match rpc_GEMS_PER_SECOND chain with
          | Rejected _ => (fallbackData walletAddress now, svc)
          | Resolved rate =>
              let formattedRate := formatUnits rate 18 in
              ({| stakedMiners := List.map NumberOfBigInt miners;
                  stakedMinerCount := count;
                  pendingRewards := formattedRewards;
                  gemsPerSecond := formattedRate;
                  lastSyncTimestamp := now;
                  userAddress := walletAddress |},
               {| svc_lastSyncTimestamp := now |})
          end
      end
  end.

(** [manualSync]: the result lists the values handed to [callback], in
    order.  [now] is read on entry, [nowSync] inside [getStakingData]
    and [nowCatch] in the [catch] block, which runs only when the
    callback itself throws ([getStakingData] never rejects). *)
Definition manualSync (svc : Service) (chain : Chain)
    (walletAddress : string) (callbackThrows : StakingData -> bool)
    (now nowSync nowCatch : Z) : list StakingData * Service :=
  if MIN_SYNC_INTERVAL <=? now - svc_lastSyncTimestamp svc then
    let '(data, svc') := getStakingData svc chain walletAddress nowSync in
    if callbackThrows data
    then ([data; fallbackData walletAddress nowCatch], svc')
    else ([data], svc')
  else ([], svc).

End Ethers.

Section Estimate.

(** [Number(string)] and [Number.prototype.toString] of the platform. *)
Variable Number : string -> float.
Variable toString : float -> string.

(** [estimateCurrentRewards]; [dateNow] is [Date.now()].  The strict
    comparison [minerCount === 0] on numbers is IEEE equality. *)
Definition estimateCurrentRewards (baseRewards gemsPerSecond : string)
    (minerCount lastUpdateTime dateNow : float) : string :=
  if PrimFloat.eqb minerCount 0%float then baseRewards
  else
    let elapsed := ((dateNow - lastUpdateTime) / 1000)%float in
    let rate := Number gemsPerSecond in
    let additionalRewards := (rate * minerCount * elapsed)%float in
    let updatedRewards := (Number baseRewards + additionalRewards)%float in
    toString updatedRewards.

End Estimate.

(** ** The repeating sync and its clean-up *)

(** A [setInterval] of the runtime: its handle and its period. *)
Record Interval : Type := {
  iv_id : nat;
  iv_period : Z
}.

(** The [syncInterval] field of the service and the intervals the runtime
    holds. *)
Record AutoSync : Type := {
  syncInterval : option nat;
  intervals : list Interval;
  nextIntervalId : nat
}.

Definition freshAutoSync : AutoSync :=
  {| syncInterval := None; intervals := []; nextIntervalId := 1 |}.

Definition clearInterval (id : nat) (l : list Interval) : list Interval :=
  filter (fun iv => negb (Nat.eqb (iv_id iv) id)) l.

(** [setupAutoSync]: the synchronous part.  [intervalMs] is absent when
    the caller relies on the default of 60 seconds.  The function also
    starts one [getStakingData] at once, and every tick of the interval
    starts another; each hands its result to [callback]. *)
Definition setupAutoSync (intervalMs : option Z) (a : AutoSync) : AutoSync :=
  let requested := match intervalMs with Some ms => ms | None => 60000 end in
  let syncIntervalMs := Z.max requested MIN_SYNC_INTERVAL in
  let kept :=
    match syncInterval a with
    | Some id => clearInterval id (intervals a)
    | None => intervals a
    end in
  let id := nextIntervalId a in
  {| syncInterval := Some id;
     intervals := kept ++ [{| iv_id := id; iv_period := syncIntervalMs |}];
     nextIntervalId := S id |}.

(** The clean-up function [setupAutoSync] returns: it reads the field of
    the service when it runs, not the handle of the call that made it. *)
Definition stopAutoSync (a : AutoSync) : AutoSync :=
  match syncInterval a with
  | Some id =>
      {| syncInterval := None;
         intervals := clearInterval id (intervals a);
         nextIntervalId := nextIntervalId a |}
  | None => a
  end.

(** ** Owned tokens *)

Record OwnedNFT : Type := {
  nft_id : Z;
  nft_name : string;
  nft_image : string
}.

Section Names.

(** [String(n)] for an integer number from 10^21 on is in exponent form;
    that text belongs to the platform. *)
Variable exponentForm : Z -> string.

Definition NumberToString (n : Z) : string :=
  if Z.abs n <? 10 ^ 21 then StringOfNumber n else exponentForm n.

(** The name of the token whose id, as a number, is [id]. *)
Definition minerName (id : Z) : string :=
  append "Miner #" (padStart 3 "0" (NumberToString id)).

(** The object pushed for [tokenId]: id and name are made from
    [Number(tokenId)]. *)
Definition ownedNFT (tokenId : Z) : OwnedNFT :=
  {| nft_id := bigintToNumber tokenId;
     nft_name := minerName (bigintToNumber tokenId);
     nft_image := "/images/Miner.png" |}.



End Names.

End StakingSyncService.

(** * config/contracts.ts *)

Module Contracts.

Definition ZERO_ADDRESS : string :=
  "0x0000000000000000000000000000000000000000".

(** ** The pattern [/0x[a-fA-F0-9]{40}/]

    Strings are sequences of code units below 256. *)

Definition isHexDigit (c : ascii) : bool :=
  let n := nat_of_ascii c in
  ((48 <=? n) && (n <=? 57) || (65 <=? n) && (n <=? 70)
   || (97 <=? n) && (n <=? 102))%nat.

(** The first [n] characters of [s] when all of them are hex digits. *)
Fixpoint takeHex (n : nat) (s : string) : option string :=
  match n with
  | O => Some EmptyString
  | S n' =>
      match s with
      | String c rest =>
          if isHexDigit c
          then match takeHex n' rest with
               | Some h => Some (String c h)
               | None => None
               end
          else None
      | EmptyString => None
      end
  end.

(** A match of the pattern at the start of [s]. *)
Definition matchHere (s : string) : option string :=
  match s with
  | String "0" (String "x" rest) =>
      match takeHex 40 rest with
      | Some h => Some (String "0" (String "x" h))
      | None => None
      end
  | _ => None
  end.

(** [s.match(pattern)]: the leftmost match, if any. *)
Fixpoint matchAddress (s : string) : option string :=
  match matchHere s with
  | Some a => Some a
  | None =>
      match s with
      | EmptyString => None
      | String _ rest => matchAddress rest
      end
  end.

(** The clean-up of a configured value that carries more than an
    address. *)
Definition cleanAddress (address : string) : string :=
  if (42 <? String.length address)%nat then
    match matchAddress address with
    | Some cleaned => cleaned
    | None => address
    end
  else address.

(** ** The table and the look-up *)

Record Entry : Type := {
  mainnet : string;
  testnet : string
}.

Section Env.

(** [import.meta.env]. *)
Variable env : string -> option string.

(** [env.NAME || fallback]. *)
Definition orElse (name : string) (fallback : string) : string :=
  match env name with
  | Some v => if truthy (Some v) then v else fallback
  | None => fallback
  end.

Definition entry (suffix : string) : Entry :=
  {| mainnet := orElse (append "VITE_MAINNET_" suffix) ZERO_ADDRESS;
     testnet := orElse (append "VITE_TESTNET_" suffix) ZERO_ADDRESS |}.

Definition CONTRACT_ADDRESSES : list (string * Entry) :=
  [ ("GEMSToken"%string, entry "GEMS_TOKEN_ADDRESS");
    ("MinerNFT"%string, entry "MINER_NFT_ADDRESS");
    ("MiningMastersStaking"%string, entry "STAKING_PROXY_ADDRESS");
    ("StakingProxy"%string, entry "STAKING_PROXY_ADDRESS");
    ("FoodSystemProxy"%string, entry "FOOD_SYSTEM_PROXY_ADDRESS");
    ("RewardSpendingBatch"%string, entry "REWARD_SPENDING_BATCH_ADDRESS");
    ("MiningExpeditionProxy"%string,
     entry "MINING_EXPEDITION_PROXY_ADDRESS") ].

Definition contractMap : list (string * string) :=
  [ ("StakingSystem"%string, "MiningMastersStaking"%string);
    ("StakingProxy"%string, "StakingProxy"%string);
    ("MinerNFT"%string, "MinerNFT"%string);
    ("MiningSystem"%string, "MiningExpeditionProxy"%string);
    ("FoodSystem"%string, "FoodSystemProxy"%string) ].

Fixpoint lookup {A : Type} (key : string) (l : list (string * A))
    : option A :=
  match l with
  | [] => None
  | (k, v) :: rest => if String.eqb k key then Some v else lookup key rest
  end.

(** [entry[network]] for the two keys an entry has.  Every value of the
    table is a non-empty string, so a key that is there is truthy. *)
Definition lookupNetwork (e : Entry) (network : string) : option string :=
  if String.eqb network "mainnet" then Some (mainnet e)
  else if String.eqb network "testnet" then Some (testnet e)
  else None.

(** [getContractAddress(contractName)]; a thrown error is a rejection.
    The [debug] argument only adds log lines.  Names of members of
    [Object.prototype] fail like any unknown contract name; as the value
    of [VITE_NETWORK_ENV] they are outside this embedding. *)
Definition getContractAddress (contractName : string) : outcome string :=
  let network := orElse "VITE_NETWORK_ENV" "testnet" in
  let contractKey :=
    match lookup contractName contractMap with
    | Some k => k
    | None => contractName
    end in
  match lookup contractKey CONTRACT_ADDRESSES with
  | None =>
      Rejected (append "Contract "
                  (append contractName
                     (append " (mapped to "
                        (append contractKey
                                ") not found in address configuration"))))
  | Some e =>
      match lookupNetwork e network with
      | None =>
          Rejected (append "Network "
                      (append network
                         (append " not configured for contract "
                            (append contractName
                               (append " (mapped to "
                                       (append contractKey ")"))))))
      | Some address => Resolved (cleanAddress address)
      end
  end.

End Env.

(** [getChainId]. *)
Definition getChainId (env : string -> option string) : Z :=
  if String.eqb (orElse env "VITE_NETWORK_ENV" "testnet") "mainnet"
  then 2020 else 2021.

End Contracts.

(** * hooks/useExpeditions.ts *)

Module UseExpeditions.

Definition REFETCH_COOLDOWN_MS : Z := 5000.
Definition FETCH_DEBOUNCE_MS : Z := 300.
Definition MEAL_DURATION_SECONDS : Z := 6 * 60 * 60.

Record FedStatus : Type := {
  mealId : Z;
  timestamp : Z;
  isActive : bool;
  expiryTime : Z
}.

Record ExpeditionStatus : Type := {
  minerId : Z;
  onExpedition : bool;
  startTime : Z;
  endTime : Z;
  completed : bool;
  eligibleForNewExpedition : bool;
  fedStatus : FedStatus
}.

(** ** Derived state (the [useMemo] aggregates) *)

Definition anyOnExpedition (initialized : bool)
    (statuses : list ExpeditionStatus) : bool :=
  initialized && existsb onExpedition statuses.

Definition eligibleMiners (statuses : list ExpeditionStatus) : list Z :=
  map minerId (filter eligibleForNewExpedition statuses).

Definition allMinersEligible (statuses : list ExpeditionStatus) : bool :=
  match statuses with
  | [] => false
  | _ => forallb eligibleForNewExpedition statuses
  end.

Definition allMinersFed (statuses : list ExpeditionStatus) : bool :=
  match statuses with
  | [] => false
  | _ => forallb (fun s => isActive (fedStatus s)) statuses
  end.

(** [Math.max(...statuses.map(s => s.endTime))], 0 on an empty list. *)
Definition latestEndTime (statuses : list ExpeditionStatus) : Z :=
  match statuses with
  | [] => 0
  | s :: rest => fold_left Z.max (map endTime rest) (endTime s)
  end.

Definition readyToComplete (nowSecs : Z)
    (statuses : list ExpeditionStatus) : list ExpeditionStatus :=
  filter (fun s => onExpedition s && (endTime s <=? nowSecs)
                   && negb (completed s)) statuses.

(** ** The diagnostics written through [logDebug]

    [DEBUG] is the constant [true].  The model records the lines that
    report a decision, a caught error or the eligibility mismatch, each
    with the values interpolated into it; lines that only echo progress
    are left out. *)

Inductive LogEvent : Type :=
| LogNoWallet
| LogFetchInProgress
| LogCooldownSkip (elapsed : Z)
| LogStart (opId : nat)
| LogCooldownDefault (opId : nat) (e : string)
| LogFound (opId : nat) (miners : list Z)
| LogNoStakedMiners (opId : nat)
| LogMinersError (opId : nat) (e : string)
| LogUsingCached (opId : nat) (miners : list Z)
| LogSuperseded (opId : nat)
| LogExpeditionError (opId : nat) (miner : Z) (e : string)
| LogMismatch (opId : nat) (miner : Z) (contractEligible uiEligible : bool)
| LogMismatchMealTimestamp (opId : nat) (mealTimestamp : Z)
| LogMismatchExpiry (opId : nat) (mealExpiryTime : Z)
| LogMismatchCurrentTime (opId : nat) (currentTimestampSeconds : Z)
| LogMismatchUI (opId : nat) (uiEligible : bool)
| LogMismatchContract (opId : nat) (contractEligible : bool)
| LogMealError (opId : nat) (miner : Z) (e : string)
| LogIneligible (opId : nat) (miner : Z) (onExp needsFeeding fed : bool)
| LogMinerError (opId : nat) (miner : Z)
| LogSetting (opId : nat) (nStatuses nMiners : nat)
| LogDiscard (opId : nat)
| LogCycleError (e : string).

(** [new Date(ms).toISOString()] throws a RangeError when the time value
    is outside the range of ECMAScript dates. *)
Definition MAX_TIME_VALUE : Z := 8640000000000000.

Definition toISOString_throws (ms : Z) : bool := MAX_TIME_VALUE <? Z.abs ms.

Definition rangeError : string := "Invalid time value"%string.

(** ** One miner of the sequential loop *)

Record ExpeditionData : Type := {
  exp_startTime : Z;
  exp_endTime : Z;
  exp_completed : bool
}.

Record MealInfo : Type := {
  meal_mealId : Z;
  meal_timestamp : Z
}.

Record ExpVals : Type := {
  startTimeValue : Z;
  endTimeValue : Z;
  completedValue : bool;
  isOnExpedition : bool
}.

Record MealVals : Type := {
  mv_mealId : Z;
  mv_mealTimestamp : Z;
  mv_fed : bool
}.

(** The inner [try] around [miningContract.expeditions(minerId)]. *)
Definition readExpedition (opId : nat) (miner : Z)
    (r : outcome ExpeditionData) : ExpVals * list LogEvent :=
  match r with
  | Resolved d =>
      let s := exp_startTime d in
      let e := exp_endTime d in
      let c := exp_completed d in
      ({| startTimeValue := s; endTimeValue := e; completedValue := c;
          isOnExpedition := (0 <? s) && (0 <? e) && negb c |}, [])
  | Rejected err =>
      ({| startTimeValue := 0; endTimeValue := 0; completedValue := false;
          isOnExpedition := false |},
       [LogExpeditionError opId miner err])
  end.

(** The contract's own predicate and the expiry window of the display. *)
Definition mealEverConsumed (mealTimestamp : Z) : bool := 0 <? mealTimestamp.

Definition mealActiveByExpiry
    (mealTimestamp mealCooldownSecs currentTimestampSeconds : Z) : bool :=
  currentTimestampSeconds <? mealTimestamp + mealCooldownSecs.

(** The six lines written when the two predicates disagree. *)
Definition mismatchReport (opId : nat) (miner : Z)
    (mealTimestamp mealCooldownSecs currentTimestampSeconds : Z)
    : list LogEvent :=
  let ever := mealEverConsumed mealTimestamp in
  let active :=
    mealActiveByExpiry mealTimestamp mealCooldownSecs
                       currentTimestampSeconds in
  [ LogMismatch opId miner ever active;
    LogMismatchMealTimestamp opId mealTimestamp;
    LogMismatchExpiry opId (mealTimestamp + mealCooldownSecs);
    LogMismatchCurrentTime opId currentTimestampSeconds;
    LogMismatchUI opId active;
    LogMismatchContract opId ever ].

(** The inner [try] around [foodContract.getMinerMealStatus(minerId)].
    The last log line of the block formats a date and may throw after
    the three variables are already assigned; the [catch] then only
    logs. *)
Definition readMeal (opId : nat) (miner : Z)
    (mealCooldownSecs currentTimestampSeconds : Z)
    (r : outcome MealInfo) : MealVals * list LogEvent :=
  match r with
  | Resolved mi =>
      let ts := meal_timestamp mi in
      let ever := mealEverConsumed ts in
      let active :=
        mealActiveByExpiry ts mealCooldownSecs currentTimestampSeconds in
      let report :=
        if Bool.eqb ever active then []
        else mismatchReport opId miner ts mealCooldownSecs
                            currentTimestampSeconds in
      let late :=
        if (0 <? ts) && toISOString_throws (ts + mealCooldownSecs * 1000)
        then [LogMealError opId miner rangeError] else [] in
      ({| mv_mealId := meal_mealId mi; mv_mealTimestamp := ts;
          mv_fed := ever |}, report ++ late)
  | Rejected err =>
      ({| mv_mealId := 0; mv_mealTimestamp := 0; mv_fed := false |},
       [LogMealError opId miner err])
  end.

(** The rest of the loop body: the status object, or nothing when one of
    the two date formattings of the outer [try] throws and the outer
    [catch] skips the miner. *)
Definition buildStatus (opId : nat) (miner : Z) (mealCooldownSecs : Z)
    (ev : ExpVals) (mv : MealVals)
    : option ExpeditionStatus * list LogEvent :=
  let mealExpiryTime := mv_mealTimestamp mv + mealCooldownSecs in
  let isMealActive := mv_fed mv in
  let needsFeeding := negb (mv_fed mv) in
  if toISOString_throws (mealExpiryTime * 1000)
  then (None, [LogMinerError opId miner])
  else
    let eligible := negb (isOnExpedition ev) && isMealActive in
    if negb eligible
       && toISOString_throws (mv_mealTimestamp mv + mealCooldownSecs * 1000)
    then (None, [LogMinerError opId miner])
    else
      (Some {| minerId := miner;
               onExpedition := isOnExpedition ev;
               startTime := startTimeValue ev;
               endTime := endTimeValue ev;
               completed := completedValue ev;
               eligibleForNewExpedition := eligible;
               fedStatus := {| mealId := mv_mealId mv;
                               timestamp := mv_mealTimestamp mv;
                               isActive := isMealActive;
                               expiryTime := mealExpiryTime |} |},
       if eligible then []
       else [LogIneligible opId miner (isOnExpedition ev) needsFeeding
                           isMealActive]).

(** Both reads and the loop body for one miner. *)
Definition processMiner (opId : nat) (miner : Z)
    (mealCooldownSecs currentTimestampSeconds : Z)
    (re : outcome ExpeditionData) (rm : outcome MealInfo)
    : option ExpeditionStatus * list LogEvent :=
  let '(ev, l1) := readExpedition opId miner re in
  let '(mv, l2) :=
    readMeal opId miner mealCooldownSecs currentTimestampSeconds rm in
  let '(st, l3) := buildStatus opId miner mealCooldownSecs ev mv in
  (st, l1 ++ l2 ++ l3).

(** ** State of one hook instance *)

Record Wallet : Type := {
  connector : bool;              (* the connector object is present *)
  address : option string
}.

Definition walletConnected (wl : Wallet) : bool :=
  connector wl && truthy (address wl).

(** The [useState] cells and the [useRef] cells of the hook. *)
Record Hook : Type := {
  loading : bool;
  error : option string;
  initialized : bool;
  statuses : list ExpeditionStatus;
  lastValidStakedMiners : list Z;
  cooldownTime : Z;
  currentOpIdRef : nat;
  lastFetchTimeRef : Z;
  fetchInProgressRef : bool;
  debouncedFetchRef : option nat;
  walletRef : Wallet
}.

Definition setLoading (b : bool) (h : Hook) : Hook :=
  {| loading := b; error := error h; initialized := initialized h;
     statuses := statuses h;
     lastValidStakedMiners := lastValidStakedMiners h;
     cooldownTime := cooldownTime h; currentOpIdRef := currentOpIdRef h;
     lastFetchTimeRef := lastFetchTimeRef h;
     fetchInProgressRef := fetchInProgressRef h;
     debouncedFetchRef := debouncedFetchRef h; walletRef := walletRef h |}.

Definition setError (e : option string) (h : Hook) : Hook :=
  {| loading := loading h; error := e; initialized := initialized h;
     statuses := statuses h;
     lastValidStakedMiners := lastValidStakedMiners h;
     cooldownTime := cooldownTime h; currentOpIdRef := currentOpIdRef h;
     lastFetchTimeRef := lastFetchTimeRef h;
     fetchInProgressRef := fetchInProgressRef h;
     debouncedFetchRef := debouncedFetchRef h; walletRef := walletRef h |}.

Definition setInitialized (b : bool) (h : Hook) : Hook :=
  {| loading := loading h; error := error h; initialized := b;
     statuses := statuses h;
     lastValidStakedMiners := lastValidStakedMiners h;
     cooldownTime := cooldownTime h; currentOpIdRef := currentOpIdRef h;
     lastFetchTimeRef := lastFetchTimeRef h;
     fetchInProgressRef := fetchInProgressRef h;
     debouncedFetchRef := debouncedFetchRef h; walletRef := walletRef h |}.

Definition setStatuses (l : list ExpeditionStatus) (h : Hook) : Hook :=
  {| loading := loading h; error := error h; initialized := initialized h;
     statuses := l;
     lastValidStakedMiners := lastValidStakedMiners h;
     cooldownTime := cooldownTime h; currentOpIdRef := currentOpIdRef h;
     lastFetchTimeRef := lastFetchTimeRef h;
     fetchInProgressRef := fetchInProgressRef h;
     debouncedFetchRef := debouncedFetchRef h; walletRef := walletRef h |}.

Definition setLastValidStakedMiners (l : list Z) (h : Hook) : Hook :=
  {| loading := loading h; error := error h; initialized := initialized h;
     statuses := statuses h;
     lastValidStakedMiners := l;
     cooldownTime := cooldownTime h; currentOpIdRef := currentOpIdRef h;
     lastFetchTimeRef := lastFetchTimeRef h;
     fetchInProgressRef := fetchInProgressRef h;
     debouncedFetchRef := debouncedFetchRef h; walletRef := walletRef h |}.

Definition setCooldownTime (t : Z) (h : Hook) : Hook :=
  {| loading := loading h; error := error h; initialized := initialized h;
     statuses := statuses h;
     lastValidStakedMiners := lastValidStakedMiners h;
     cooldownTime := t; currentOpIdRef := currentOpIdRef h;
     lastFetchTimeRef := lastFetchTimeRef h;
     fetchInProgressRef := fetchInProgressRef h;
     debouncedFetchRef := debouncedFetchRef h; walletRef := walletRef h |}.

Definition setCurrentOpId (n : nat) (h : Hook) : Hook :=
  {| loading := loading h; error := error h; initialized := initialized h;
     statuses := statuses h;
     lastValidStakedMiners := lastValidStakedMiners h;
     cooldownTime := cooldownTime h; currentOpIdRef := n;
     lastFetchTimeRef := lastFetchTimeRef h;
     fetchInProgressRef := fetchInProgressRef h;
     debouncedFetchRef := debouncedFetchRef h; walletRef := walletRef h |}.

Definition setLastFetchTime (t : Z) (h : Hook) : Hook :=
  {| loading := loading h; error := error h; initialized := initialized h;
     statuses := statuses h;
     lastValidStakedMiners := lastValidStakedMiners h;
     cooldownTime := cooldownTime h; currentOpIdRef := currentOpIdRef h;
     lastFetchTimeRef := t;
     fetchInProgressRef := fetchInProgressRef h;
     debouncedFetchRef := debouncedFetchRef h; walletRef := walletRef h |}.

Definition setFetchInProgress (b : bool) (h : Hook) : Hook :=
  {| loading := loading h; error := error h; initialized := initialized h;
     statuses := statuses h;
     lastValidStakedMiners := lastValidStakedMiners h;
     cooldownTime := cooldownTime h; currentOpIdRef := currentOpIdRef h;
     lastFetchTimeRef := lastFetchTimeRef h;
     fetchInProgressRef := b;
     debouncedFetchRef := debouncedFetchRef h; walletRef := walletRef h |}.

Definition setDebouncedFetch (t : option nat) (h : Hook) : Hook :=
  {| loading := loading h; error := error h; initialized := initialized h;
     statuses := statuses h;
     lastValidStakedMiners := lastValidStakedMiners h;
     cooldownTime := cooldownTime h; currentOpIdRef := currentOpIdRef h;
     lastFetchTimeRef := lastFetchTimeRef h;
     fetchInProgressRef := fetchInProgressRef h;
     debouncedFetchRef := t; walletRef := walletRef h |}.

Definition setWallet (wl : Wallet) (h : Hook) : Hook :=
  {| loading := loading h; error := error h; initialized := initialized h;
     statuses := statuses h;
     lastValidStakedMiners := lastValidStakedMiners h;
     cooldownTime := cooldownTime h; currentOpIdRef := currentOpIdRef h;
     lastFetchTimeRef := lastFetchTimeRef h;
     fetchInProgressRef := fetchInProgressRef h;
     debouncedFetchRef := debouncedFetchRef h; walletRef := wl |}.

(** The hook as [useState] and [useRef] initialise it. *)
Definition initialHook (wl : Wallet) : Hook :=
  {| loading := true; error := None; initialized := false; statuses := [];
     lastValidStakedMiners := []; cooldownTime := 0; currentOpIdRef := 0;
     lastFetchTimeRef := 0; fetchInProgressRef := false;
     debouncedFetchRef := None; walletRef := wl |}.

(** A pending [setTimeout] of the debounce wrapper: its handle, the time
    it is due and the [force] argument its callback closes over. *)
Record Timer : Type := {
  timer_id : nat;
  timer_due : Z;
  timer_force : bool
}.

(** What the code of the hook reads and writes: the module level counter
    (shared by every instance of the hook), the hook cells, the timers
    of the runtime and the log. *)
Record World : Type := {
  globalOperationCounter : nat;
  hook : Hook;
  timers : list Timer;
  nextTimerId : nat;
  log : list LogEvent
}.

Definition withHook (f : Hook -> Hook) (w : World) : World :=
  {| globalOperationCounter := globalOperationCounter w;
     hook := f (hook w); timers := timers w;
     nextTimerId := nextTimerId w; log := log w |}.

Definition logDebug (l : list LogEvent) (w : World) : World :=
  {| globalOperationCounter := globalOperationCounter w;
     hook := hook w; timers := timers w;
     nextTimerId := nextTimerId w; log := log w ++ l |}.

Definition bumpCounter (w : World) : World :=
  {| globalOperationCounter := S (globalOperationCounter w);
     hook := hook w; timers := timers w;
     nextTimerId := nextTimerId w; log := log w |}.

Definition clearTimeout (id : nat) (ts : list Timer) : list Timer :=
  filter (fun t => negb (Nat.eqb (timer_id t) id)) ts.

(** ** [fetchStatuses(force)]: the debounce wrapper

    Cancels the run recorded in [debouncedFetchRef], if any, and
    schedules a new one [FETCH_DEBOUNCE_MS] later. *)
Definition fetchStatuses (now : Z) (force : bool) (w : World) : World :=
  let pending :=
    match debouncedFetchRef (hook w) with
    | Some id => clearTimeout id (timers w)
    | None => timers w
    end in
  let id := nextTimerId w in
  {| globalOperationCounter := globalOperationCounter w;
     hook := setDebouncedFetch (Some id) (hook w);
     timers := pending ++ [{| timer_id := id;
                              timer_due := now + FETCH_DEBOUNCE_MS;
                              timer_force := force |}];
     nextTimerId := S id;
     log := log w |}.

(** ** One fetch cycle

    The body of the timer callback is an [async] function: it runs in
    segments, one per [await].  A [Cycle] is the continuation kept
    between two segments; [resume] runs the segment that follows the
    settling of the awaited promise. *)

Record LoopState : Type := {
  ls_mealCooldownSecs : Z;
  ls_stakedMiners : list Z;
  ls_minerId : Z;                       (* the miner being read *)
  ls_pending : list Z;                  (* the miners after it *)
  ls_newStatuses : list ExpeditionStatus
}.

Inductive Phase : Type :=
| AwaitProvider
| AwaitSigner
| AwaitCooldown
| AwaitStakedMiners (mealCooldownSecs : Z)
| AwaitExpedition (ls : LoopState)
| AwaitMeal (ls : LoopState) (ev : ExpVals).

Record Cycle : Type := {
  opId : nat;
  cycleNow : Z;
  phase : Phase
}.

Definition setPhase (p : Phase) (c : Cycle) : Cycle :=
  {| opId := opId c; cycleNow := cycleNow c; phase := p |}.

(** The settled promise handed to a segment.  For the two set-up reads a
    rejection also stands for a throw of the synchronous code that
    follows the [await] in the same segment (the provider wrapper after
    [getProvider()]; the address look-ups and the contract objects after
    [getSigner()]): either way the segment ends in the outer [catch]. *)
Inductive Reply : Type :=
| RProvider (r : outcome unit)
| RSigner (r : outcome unit)
| RCooldown (r : outcome Z)
| RStakedMiners (r : outcome (list Z))
| RExpedition (r : outcome ExpeditionData)
| RMeal (r : outcome MealInfo).

(** The synchronous head of the timer callback: the wallet check, the
    in-flight check, the cooldown check, then the start of a cycle. *)
Definition timerCallback (now : Z) (force : bool) (w : World)
    : World * option Cycle :=
  if negb (walletConnected (walletRef (hook w))) then
    (withHook (fun h => setInitialized false
                          (setError (Some "Wallet not connected"%string) h))
              (logDebug [LogNoWallet] w), None)
  else if fetchInProgressRef (hook w) then
    (logDebug [LogFetchInProgress] w, None)
  else if negb force
          && (now - lastFetchTimeRef (hook w) <? REFETCH_COOLDOWN_MS) then
    (logDebug [LogCooldownSkip (now - lastFetchTimeRef (hook w))] w, None)
  else
    let w1 := bumpCounter (withHook (setFetchInProgress true) w) in
    let op := globalOperationCounter w1 in
    let w2 :=
      withHook (fun h => setError None
                           (setLoading true
                              (setLastFetchTime now
                                 (setCurrentOpId op h)))) w1 in
    (logDebug [LogStart op] w2,
     Some {| opId := op; cycleNow := now; phase := AwaitProvider |}).

(** How the [try] block is left. *)
Inductive Exit : Type :=
| Completed (stakedMiners : list Z) (newStatuses : list ExpeditionStatus)
| Threw (e : string)
| SupersededReturn.

(** The end of the [try], the [catch], the [finally] and the statement
    after them, which the early [return] of a superseded loop skips. *)
Definition finish (c : Cycle) (x : Exit) (w : World) : World :=
  let current := Nat.eqb (opId c) (globalOperationCounter w) in
  let w1 :=
    match x with
    | Completed miners sts =>
        if current then
          let wa := withHook (setInitialized true) w in
          let wb :=
            match miners with
            | [] => wa
            | _ => withHook (setLastValidStakedMiners miners) wa
            end in
          let wc :=
            logDebug [LogSetting (opId c) (List.length sts)
                                 (List.length miners)] wb in
          withHook (setCooldownTime (cycleNow c + REFETCH_COOLDOWN_MS))
                   (withHook (setStatuses sts) wc)
        else logDebug [LogDiscard (opId c)] w
    | Threw e =>
        if current
        then withHook (setError (Some e)) (logDebug [LogCycleError e] w)
        else w
    | SupersededReturn => w
    end in
  let w2 :=
    withHook (setFetchInProgress false)
             (if current then withHook (setLoading false) w1 else w1) in
  match x with
  | SupersededReturn => w2
  | _ => withHook (setDebouncedFetch None) w2
  end.

(** The head of a loop iteration: the token check, then the first read
    of the next miner; with no miner left, the end of the [try]. *)
Definition loopHead (c : Cycle) (mealCooldownSecs : Z)
    (stakedMiners todo : list Z) (acc : list ExpeditionStatus)
    (w : World) : World * option Cycle :=
  match todo with
  | [] => (finish c (Completed stakedMiners acc) w, None)
  | m :: rest =>
      if Nat.eqb (opId c) (globalOperationCounter w) then
        (w, Some (setPhase
                    (AwaitExpedition
                       {| ls_mealCooldownSecs := mealCooldownSecs;
                          ls_stakedMiners := stakedMiners;
                          ls_minerId := m;
                          ls_pending := rest;
                          ls_newStatuses := acc |}) c))
      else
        (finish c SupersededReturn (logDebug [LogSuperseded (opId c)] w),
         None)
  end.

Section Callback.

(** The callback is created by [useCallback] and reads
    [lastValidStakedMiners] from the scope it was created in: this is
    the value it sees, which no setter changes. *)
Variable boundLastValidStakedMiners : list Z.

Definition resume (w : World) (c : Cycle) (r : Reply)
    : World * option Cycle :=
  match phase c, r with
  | AwaitProvider, RProvider (Resolved _) =>
      (w, Some (setPhase AwaitSigner c))
  | AwaitProvider, RProvider (Rejected e) => (finish c (Threw e) w, None)
  | AwaitSigner, RSigner (Resolved _) =>
      (w, Some (setPhase AwaitCooldown c))
  | AwaitSigner, RSigner (Rejected e) => (finish c (Threw e) w, None)
  | AwaitCooldown, RCooldown (Resolved secs) =>
      (w, Some (setPhase (AwaitStakedMiners secs) c))
  | AwaitCooldown, RCooldown (Rejected e) =>
      (logDebug [LogCooldownDefault (opId c) e] w,
       Some (setPhase (AwaitStakedMiners MEAL_DURATION_SECONDS) c))
  | AwaitStakedMiners cd, RStakedMiners (Resolved l) =>
      let w1 :=
        match l with
        | [] => logDebug [LogNoStakedMiners (opId c)] w
        | _ => logDebug [LogFound (opId c) l]
                        (withHook (setLastValidStakedMiners l) w)
        end in
      loopHead c cd l l [] w1
  | AwaitStakedMiners cd, RStakedMiners (Rejected e) =>
      let l := boundLastValidStakedMiners in
      loopHead c cd l l []
               (logDebug [LogMinersError (opId c) e;
                          LogUsingCached (opId c) l] w)
  | AwaitExpedition ls, RExpedition re =>
      let '(ev, l1) := readExpedition (opId c) (ls_minerId ls) re in
      (logDebug l1 w, Some (setPhase (AwaitMeal ls ev) c))
  | AwaitMeal ls ev, RMeal rm =>
      let cd := ls_mealCooldownSecs ls in
      let currentTimestampSeconds := cycleNow c / 1000 in
      let '(mv, l2) :=
        readMeal (opId c) (ls_minerId ls) cd currentTimestampSeconds rm in
      let '(st, l3) := buildStatus (opId c) (ls_minerId ls) cd ev mv in
      let acc :=
        match st with
        | Some s => ls_newStatuses ls ++ [s]
        | None => ls_newStatuses ls
        end in
      loopHead c cd (ls_stakedMiners ls) (ls_pending ls) acc
               (logDebug (l2 ++ l3) w)
  | _, _ => (w, Some c)
  end.

(** A cycle left alone: every awaited promise settles in turn with the
    next reply, nothing else runs in between. *)
Fixpoint feed (rs : list Reply) (w : World) (c : Cycle)
    : World * option Cycle :=
  match rs with
  | [] => (w, Some c)
  | r :: rs' =>
      match resume w c r with
      | (w', Some c') => feed rs' w' c'
      | (w', None) => (w', None)
      end
  end.

(** ** The hook instance among the events of the page *)

Record System : Type := {
  world : World;
  inflight : list Cycle
}.

Inductive Event : Type :=
| Trigger (force : bool)          (* a call of fetchStatuses *)
| TimerFires (id : nat)           (* the runtime runs a due timer *)
| Settles (op : nat) (r : Reply)  (* a promise awaited by cycle op *)
| OtherInstance                   (* another instance moves the counter *)
| Cleanup                         (* the effect clean-up of this one *)
| WalletChange (wl : Wallet) (connectorChanged : bool).

Definition started (oc : option Cycle) : list Cycle :=
  match oc with Some c => [c] | None => [] end.

Fixpoint settle (op : nat) (r : Reply) (w : World) (cs : list Cycle)
    : World * list Cycle :=
  match cs with
  | [] => (w, [])
  | c :: cs' =>
      if Nat.eqb (opId c) op then
        let '(w', oc) := resume w c r in (w', started oc ++ cs')
      else
        let '(w', cs'') := settle op r w cs' in (w', c :: cs'')
  end.

Definition withTimers (ts : list Timer) (w : World) : World :=
  {| globalOperationCounter := globalOperationCounter w;
     hook := hook w; timers := ts;
     nextTimerId := nextTimerId w; log := log w |}.

Definition step (now : Z) (e : Event) (s : System) : System :=
  match e with
  | Trigger force =>
      {| world := fetchStatuses now force (world s);
         inflight := inflight s |}
  | TimerFires id =>
      match find (fun t => Nat.eqb (timer_id t) id) (timers (world s)) with
      | Some t =>
          if timer_due t <=? now then
            let w0 :=
              withTimers (clearTimeout id (timers (world s))) (world s) in
            let '(w1, oc) := timerCallback now (timer_force t) w0 in
            {| world := w1; inflight := inflight s ++ started oc |}
          else s
      | None => s
      end
  | Settles op r =>
      let '(w1, cs) := settle op r (world s) (inflight s) in
      {| world := w1; inflight := cs |}
  | OtherInstance =>
      {| world := bumpCounter (world s); inflight := inflight s |}
  | Cleanup =>
      let w0 :=
        match debouncedFetchRef (hook (world s)) with
        | Some id =>
            withHook (setDebouncedFetch None)
                     (withTimers (clearTimeout id (timers (world s)))
                                 (world s))
        | None => world s
        end in
      {| world := bumpCounter w0; inflight := inflight s |}
  | WalletChange wl connectorChanged =>
      let w0 := withHook (setWallet wl) (world s) in
      if connectorChanged then
        if connector wl then
          {| world := fetchStatuses now true w0; inflight := inflight s |}
        else
          {| world := withHook (fun h => setInitialized false
                                           (setStatuses [] h)) w0;
             inflight := inflight s |}
      else {| world := w0; inflight := inflight s |}
  end.

(** A timed trace of events, oldest first. *)
Fixpoint run (tr : list (Z * Event)) (s : System) : System :=
  match tr with
  | [] => s
  | (now, e) :: tr' => run tr' (step now e s)
  end.

End Callback.

(** The instance right after mount: the first render binds the initial,
    empty [lastValidStakedMiners] into the callback, the mount effect
    forces a fetch and the wallet effect forces another one when a
    connector is there. *)
Definition mountBinding : list Z := [].

Definition mount (now : Z) (counter : nat) (wl : Wallet) : System :=
  let w0 :=
    {| globalOperationCounter := counter; hook := initialHook wl;
       timers := []; nextTimerId := 0; log := [] |} in
  let w1 := fetchStatuses now true w0 in
  let w2 :=
    if connector wl then fetchStatuses now true w1
    else withHook (fun h => setInitialized false (setStatuses [] h)) w1 in
  {| world := w2; inflight := [] |}.

End UseExpeditions.

(** * hooks/useMealStatuses.ts *)

Module UseMealStatuses.

(** The two state cells [fetchStakedMiners] writes. *)
Record State : Type := {
  stakedMiners : list Z;
  lastValidStakedMiners : list Z
}.

(** What the callback reads from the render that created it. *)
Record Closure : Type := {
  cl_connector : bool;
  cl_address : option string;
  cl_lastValidStakedMiners : list Z
}.

(** What the platform answers during one call: the provider constructor
    and the address look-up (either may throw), then the contract
    read. *)
Record Env : Type := {
  env_stakingAddress : outcome string;
  env_getStakedMiners : outcome (list Z)
}.

(** [fetchStakedMiners]: the returned list and the state after the
    setters it called. *)
Definition fetchStakedMiners (cl : Closure) (env : Env) (st : State)
    : list Z * State :=
  if negb (cl_connector cl) || negb (truthy (cl_address cl)) then
    (cl_lastValidStakedMiners cl, st)
  else
    match env_stakingAddress env with
    | Rejected _ => (cl_lastValidStakedMiners cl, st)
    | Resolved stakingAddress =>
        if negb (truthy (Some stakingAddress)) then
          (cl_lastValidStakedMiners cl, st)
        else
          match env_getStakedMiners env with
          | Rejected _ => (cl_lastValidStakedMiners cl, st)
          | Resolved minerIds =>
              match minerIds with
              | [] => (cl_lastValidStakedMiners cl, st)
              | _ => (minerIds,
                      {| stakedMiners := minerIds;
                         lastValidStakedMiners := minerIds |})
              end
          end
    end.

(** The [stakedMinerCount] the hook returns. *)
Definition stakedMinerCount (st : State) : nat :=
  List.length (stakedMiners st).

(** ** Meal availability *)

Record MealStatus : Type := {
  meal_id : nat;
  canEat : bool;
  timeUntil : Z
}.

(** The loop over the answers of [canEatMeal] for one meal, one answer
    per staked miner: the running [mealCanEat] and [worstTimeUntil]. *)
Definition mealAvailability (results : list (bool * Z)) : bool * Z :=
  fold_left
    (fun (acc : bool * Z) (r : bool * Z) =>
       if fst r then acc
       else (false, if snd acc <? snd r then snd r else snd acc))
    results (true, 0).

Definition mealStatus (id : nat) (results : list (bool * Z)) : MealStatus :=
  {| meal_id := id;
     canEat := fst (mealAvailability results);
     timeUntil := snd (mealAvailability results) |}.

(** The cells of the hook. *)
Record Hook : Type := {
  miners : State;
  statuses : list MealStatus;
  loading : bool;
  lastFetchTime : Z
}.

(** What [fetchStatuses] reads from the render that created it. *)
Record FetchClosure : Type := {
  fc_connector : bool;
  fc_lastFetchTime : Z;
  fc_fetchStakedMiners : Closure
}.

(** What the platform answers during one [fetchStatuses]: the answers
    for [fetchStakedMiners]; the provider wrapper and the food address
    look-up (a rejection stands for a throw of either); the meal count
    of the food contract; the answer of [canEatMeal] for each miner and
    meal; and, for each meal, the time at which the [Promise.all] over
    its reads is settled. *)
Record FetchEnv : Type := {
  fe_miners : Env;
  fe_foodAddress : outcome string;
  fe_mealCount : outcome Z;
  fe_canEatMeal : Z -> nat -> outcome (bool * Z);
  fe_settleTime : nat -> nat
}.

Definition FETCH_COOLDOWN : Z := 15000.

(** [Array(n)] throws a RangeError unless [n] is an array length. *)
Definition validArrayLength (n : Z) : bool := (0 <=? n) && (n <=? 4294967295).

Definition withMiners (m : State) (h : Hook) : Hook :=
  {| miners := m; statuses := statuses h; loading := loading h;
     lastFetchTime := lastFetchTime h |}.

Definition setLoading (b : bool) (h : Hook) : Hook :=
  {| miners := miners h; statuses := statuses h; loading := b;
     lastFetchTime := lastFetchTime h |}.

Definition setStatuses (l : list MealStatus) (h : Hook) : Hook :=
  {| miners := miners h; statuses := l; loading := loading h;
     lastFetchTime := lastFetchTime h |}.

Definition setLastFetchTime (t : Z) (h : Hook) : Hook :=
  {| miners := miners h; statuses := statuses h; loading := loading h;
     lastFetchTime := t |}.

(** The answers for one meal, one per miner in use, each time as
    [Number(time)]; a rejected read has none. *)
Definition mealResults (env : FetchEnv) (currentMiners : list Z) (id : nat)
    : list (bool * Z) :=
  flat_map (fun miner =>
              match fe_canEatMeal env miner id with
              | Resolved (canEat, time) => [(canEat, bigintToNumber time)]
              | Rejected _ => []
              end)
           currentMiners.

(** [Promise.all] over the reads of one meal rejects when one of them
    does, and then so does the outer [Promise.all]. *)
Definition mealReadFails (env : FetchEnv) (currentMiners : list Z) (id : nat)
    : bool :=
  existsb (fun miner => is_rejected (fe_canEatMeal env miner id))
          currentMiners.

(** The meals in the order their reads are settled: each meal pushes its
    status when its own reads are done.  Meals settled at the same time
    keep the order of their ids. *)
Fixpoint insertSettled (settleTime : nat -> nat) (id : nat) (done : list nat)
    : list nat :=
  match done with
  | [] => [id]
  | x :: rest =>
      if (settleTime id <? settleTime x)%nat then id :: done
      else x :: insertSettled settleTime id rest
  end.

Definition completionOrder (settleTime : nat -> nat) (ids : list nat)
    : list nat :=
  fold_left (fun done id => insertSettled settleTime id done) ids [].

(** [fetchStatuses(force)], run to its end. *)
Definition fetchStatuses (cl : FetchClosure) (env : FetchEnv) (force : bool)
    (now : Z) (h : Hook) : Hook :=
  if negb force && (now - fc_lastFetchTime cl <? FETCH_COOLDOWN) then h
  else
    let h1 := setLoading true (setLastFetchTime now h) in
    let '(currentMiners, m) :=
      fetchStakedMiners (fc_fetchStakedMiners cl) (fe_miners env)
                        (miners h1) in
    let h2 := withMiners m h1 in
    if negb (fc_connector cl) || (List.length currentMiners =? 0)%nat then
      setLoading false h2
    else
      match fe_foodAddress env with
      | Rejected _ => setLoading false h2
      | Resolved foodAddress =>
          if negb (truthy (Some foodAddress)) then h2
          else
            match fe_mealCount env with
            | Rejected _ => setLoading false h2
            | Resolved rawCount =>
                let mealCount := bigintToNumber rawCount in
                if negb (validArrayLength mealCount) then setLoading false h2
                else
                  let ids := seq 0 (Z.to_nat mealCount) in
                  if existsb (mealReadFails env currentMiners) ids
                  then setLoading false h2
                  else
                    let newStatuses :=
                      map (fun id =>
                             mealStatus id (mealResults env currentMiners id))
                          (completionOrder (fe_settleTime env) ids) in
                    setLoading false (setStatuses newStatuses h2)
            end
      end.

End UseMealStatuses.

(** * hooks/useStaking.ts *)

Module UseStaking.

Section Hook.

(** The token objects of the NFT service; the hook only reads their id,
    through [Number(nft.id)]. *)
Variable NFT : Type.
Variable idOf : NFT -> Z.

Record StakingState : Type := {
  stakedMiners : list Z;
  stakedMinerCount : Z;
  pendingRewards : string;
  gemsPerSecond : string;
  lastRewardsUpdate : Z;
  isLoading : bool;
  error : option string;
  availableMiners : list NFT;
  loadingMiners : bool;
  autoSyncEnabled : bool;
  estimatedRewards : string
}.

(** The initial state; [now] is the [Date.now()] of the first render. *)
Definition initialState (now : Z) : StakingState :=
  {| stakedMiners := []; stakedMinerCount := 0; pendingRewards := "0";
     gemsPerSecond := "0"; lastRewardsUpdate := now; isLoading := false;
     error := None; availableMiners := []; loadingMiners := false;
     autoSyncEnabled := false; estimatedRewards := "0" |}.

(** The one second interval of the local estimate, with the four values
    its callback closes over. *)
Record Ticker : Type := {
  tk_id : nat;
  tk_baseRewards : string;
  tk_gemsPerSecond : string;
  tk_minerCount : Z;
  tk_lastUpdateTime : Z
}.

(** [rewardsIntervalRef] and the tickers the runtime holds. *)
Record Estimation : Type := {
  rewardsIntervalRef : option nat;
  tickers : list Ticker;
  nextTickerId : nat
}.

Definition noEstimation : Estimation :=
  {| rewardsIntervalRef := None; tickers := []; nextTickerId := 1 |}.

Definition clearTicker (id : nat) (l : list Ticker) : list Ticker :=
  filter (fun t => negb (Nat.eqb (tk_id t) id)) l.

(** [setupRewardsEstimation]: with no miner it stops after clearing the
    old interval, leaving the dead handle in the reference. *)
Definition setupRewardsEstimation (baseRewards gemsPerSecond : string)
    (minerCount lastUpdateTime : Z) (e : Estimation) : Estimation :=
  let kept :=
    match rewardsIntervalRef e with
    | Some id => clearTicker id (tickers e)
    | None => tickers e
    end in
  if minerCount =? 0 then
    {| rewardsIntervalRef := rewardsIntervalRef e; tickers := kept;
       nextTickerId := nextTickerId e |}
  else
    let id := nextTickerId e in
    {| rewardsIntervalRef := Some id;
       tickers := kept ++ [{| tk_id := id; tk_baseRewards := baseRewards;
                              tk_gemsPerSecond := gemsPerSecond;
                              tk_minerCount := minerCount;
                              tk_lastUpdateTime := lastUpdateTime |}];
       nextTickerId := S id |}.

(** The clean-up of the wallet effect: the interval is cleared and the
    reference reset. *)
Definition stopRewardsEstimation (e : Estimation) : Estimation :=
  match rewardsIntervalRef e with
  | Some id =>
      {| rewardsIntervalRef := None; tickers := clearTicker id (tickers e);
         nextTickerId := nextTickerId e |}
  | None => e
  end.

(** [handleSyncUpdate]: the state update and the estimate set-up.  It
    also starts [fetchAvailableMiners], which runs on its own below. *)
Definition handleSyncUpdate (data : StakingSyncService.StakingData)
    (st : StakingState) (e : Estimation) : StakingState * Estimation :=
  ({| stakedMiners := StakingSyncService.stakedMiners data;
      stakedMinerCount := StakingSyncService.stakedMinerCount data;
      pendingRewards := StakingSyncService.pendingRewards data;
      gemsPerSecond := StakingSyncService.gemsPerSecond data;
      lastRewardsUpdate := StakingSyncService.lastSyncTimestamp data;
      isLoading := false;
      error := None;
      availableMiners := availableMiners st;
      loadingMiners := loadingMiners st;
      autoSyncEnabled := true;
      estimatedRewards := StakingSyncService.pendingRewards data |},
   setupRewardsEstimation (StakingSyncService.pendingRewards data)
                          (StakingSyncService.gemsPerSecond data)
                          (StakingSyncService.stakedMinerCount data)
                          (StakingSyncService.lastSyncTimestamp data) e).

(** The filter of [fetchAvailableMiners]: the owned tokens that are not
    in [stakedMinersRef]. *)
Definition availableForStaking (stakedMinersRef : list Z)
    (ownedNFTs : list NFT) : list NFT :=
  filter (fun nft => negb (existsb (Z.eqb (idOf nft)) stakedMinersRef))
         ownedNFTs.

Definition FETCH_COOLDOWN_MS : Z := 5000.

(** [fetchAvailableMiners(force)], run to its end: the state and the
    [lastFetchTime] cell it leaves.  [closureLastFetchTime] is the value
    of [lastFetchTime] the callback was created with.  [owned] is the
    answer of [nftService.getOwnedNFTs]: the tokens, or what was thrown,
    with its message when it is an [Error].  [stakedMinersRef] is the
    value of the reference when the filter runs. *)
Definition fetchAvailableMiners (hasNftService : bool)
    (address : option string) (closureLastFetchTime : Z) (force : bool)
    (now : Z) (owned : list NFT + option string) (stakedMinersRef : list Z)
    (st : StakingState) (lastFetchTime : Z) : StakingState * Z :=
  if negb hasNftService || negb (truthy address) then (st, lastFetchTime)
  else if negb force && (now - closureLastFetchTime <? FETCH_COOLDOWN_MS)
  then (st, lastFetchTime)
  else
    match owned with
    | inl ownedNFTs =>
        ({| stakedMiners := stakedMiners st;
            stakedMinerCount := stakedMinerCount st;
            pendingRewards := pendingRewards st;
            gemsPerSecond := gemsPerSecond st;
            lastRewardsUpdate := lastRewardsUpdate st;
            isLoading := isLoading st;
            error := None;
            availableMiners := availableForStaking stakedMinersRef ownedNFTs;
            loadingMiners := false;
            autoSyncEnabled := autoSyncEnabled st;
            estimatedRewards := estimatedRewards st |}, now)
    | inr thrown =>
        ({| stakedMiners := stakedMiners st;
            stakedMinerCount := stakedMinerCount st;
            pendingRewards := pendingRewards st;
            gemsPerSecond := gemsPerSecond st;
            lastRewardsUpdate := lastRewardsUpdate st;
            isLoading := isLoading st;
            error :=
              Some match thrown with
                   | Some message => append "Failed to fetch NFTs: " message
                   | None => "Failed to fetch NFTs: Unknown error"%string
                   end;
            availableMiners := availableMiners st;
            loadingMiners := false;
            autoSyncEnabled := autoSyncEnabled st;
            estimatedRewards := estimatedRewards st |}, now)
    end.

End Hook.

Arguments stakedMiners {NFT} _.
Arguments stakedMinerCount {NFT} _.
Arguments pendingRewards {NFT} _.
Arguments gemsPerSecond {NFT} _.
Arguments lastRewardsUpdate {NFT} _.
Arguments isLoading {NFT} _.
Arguments error {NFT} _.
Arguments availableMiners {NFT} _.
Arguments loadingMiners {NFT} _.
Arguments autoSyncEnabled {NFT} _.
Arguments estimatedRewards {NFT} _.
Arguments handleSyncUpdate {NFT} _ _ _.
Arguments availableForStaking {NFT} _ _ _.
Arguments fetchAvailableMiners {NFT} _ _ _ _ _ _ _ _ _ _.

(** ** The effect that watches the staked miners *)

(** [[...l].sort((a, b) => a - b)]. *)
Fixpoint insertSorted (x : Z) (l : list Z) : list Z :=
  match l with
  | [] => [x]
  | y :: rest => if x <=? y then x :: l else y :: insertSorted x rest
  end.

Fixpoint sortNumbers (l : list Z) : list Z :=
  match l with
  | [] => []
  | x :: rest => insertSorted x (sortNumbers rest)
  end.

(** The comparison loop over the indices of the current list; reading
    past the end of the previous one gives [undefined]. *)
Fixpoint differs (sortedCurrent sortedPrev : list Z) : bool :=
  match sortedCurrent, sortedPrev with
  | [], _ => false
  | _ :: _, [] => true
  | c :: cs, p :: ps => if c =? p then differs cs ps else true
  end.

Definition shouldFetch (prevMiners currentMiners : list Z) : bool :=
  let lengthChanged :=
    negb (List.length currentMiners =? List.length prevMiners)%nat in
  let contentChanged :=
    if lengthChanged then false
    else differs (sortNumbers currentMiners) (sortNumbers prevMiners) in
  let initialLoad :=
    (List.length prevMiners =? 0)%nat
    && (0 <? List.length currentMiners)%nat in
  initialLoad || lengthChanged || contentChanged.

(** The effect: whether it forces a fetch of the available miners, and
    the value of [prevStakedMinersRef] it leaves. *)
Definition minersEffect (connected : bool) (prevStakedMinersRef
    currentMiners : list Z) : bool * list Z :=
  if negb connected then (false, prevStakedMinersRef)
  else if shouldFetch prevStakedMinersRef currentMiners
       then (true, currentMiners)
       else (false, prevStakedMinersRef).

End UseStaking.

(** * pages/mine/EnterMines.tsx *)

Module EnterMines.

(** [Math.max(0, latestEndTime * 1000 - now)]. *)
Definition timeLeft (latestEndTime now : Z) : Z :=
  Z.max 0 (latestEndTime * 1000 - now).

(** The three numbers [formatTime] prints. *)
Definition timeParts (ms : Z) : Z * Z * Z :=
  let totalSec := ms / 1000 in
  (totalSec / 3600, Z.rem totalSec 3600 / 60, Z.rem totalSec 60).

Definition formatTime (ms : Z) : string :=
  let '(h, m, s) := timeParts ms in
  append (StringOfNumber h)
    (append "h "
       (append (padStart 2 "0" (StringOfNumber m))
          (append "m " (append (padStart 2 "0" (StringOfNumber s)) "s")))).

Definition canStartExpedition (loading allMinersEligible : bool) : bool :=
  negb loading && allMinersEligible.

Definition allMinersPropperlyFed (loading allMinersFed : bool) : bool :=
  negb loading && allMinersFed.

End EnterMines.

(** * The mining context (MiningProvider) *)

Module MiningContext.

(** [formatTime(seconds)]: MM:SS, or HH:MM:SS from one hour on. *)
Definition formatTime (seconds : Z) : string :=
  if seconds <? 0 then "00:00"%string
  else
    let hours := seconds / 3600 in
    let mins := Z.rem seconds 3600 / 60 in
    let secs := Z.rem seconds 60 in
    let two n := padStart 2 "0" (StringOfNumber n) in
    if 0 <? hours
    then append (two hours) (append ":" (append (two mins)
                                           (append ":" (two secs))))
    else append (two mins) (append ":" (two secs)).

(** [startMining] and [stopMining] on the pair of state cells. *)
Record Mining : Type := {
  isMining : bool;
  timeLeft : Z
}.

Definition startMining (duration : Z) (m : Mining) : Mining :=
  {| isMining := true; timeLeft := duration |}.

Definition stopMining (m : Mining) : Mining :=
  {| isMining := false; timeLeft := 0 |}.

(** One pass of the timer effect and, when it installed an interval, one
    tick of it: the count-down by one second, or the end of mining at
    zero. *)
Definition tick (m : Mining) : Mining :=
  if isMining m && (0 <? timeLeft m) then
    {| isMining := true; timeLeft := timeLeft m - 1 |}
  else if (timeLeft m =? 0) && isMining m then
    {| isMining := false; timeLeft := timeLeft m |}
  else m.

End MiningContext.

(** * hooks/useFeedingStatus.ts *)

Module UseFeedingStatus.

Record MinerFeedingStatus : Type := {
  minerId : Z;
  mealId : Z;
  timestamp : Z;
  fed : bool
}.

Record Result : Type := {
  statuses : list MinerFeedingStatus;
  allMinersFed : bool;
  loading : bool
}.

(** The hook returns one constant object. *)
Definition useFeedingStatus (refreshInterval : Z) : Result :=
  {| statuses := []; allMinersFed := true; loading := false |}.

End UseFeedingStatus.

(** * Vocabulary of the statements *)

Section Vocabulary.

Import UseExpeditions.

(** The state a cycle publishes when it commits. *)
Definition derivedState (h : Hook)
    : list ExpeditionStatus * bool * option string * bool * Z :=
  (statuses h, initialized h, error h, loading h, cooldownTime h).

(** No debounced run is pending besides the one [debouncedFetchRef]
    records. *)
Definition tidy (w : World) : Prop :=
  forall tm, In tm (timers w) ->
             debouncedFetchRef (hook w) = Some (timer_id tm).

(** The in-flight flag tells whether a cycle is in flight, and there is at
    most one. *)
Definition oneInFlight (s : System) : Prop :=
  match inflight s with
  | [] => fetchInProgressRef (hook (world s)) = false
  | [_] => fetchInProgressRef (hook (world s)) = true
  | _ => False
  end.

(** The gates a debounced run has to pass to start a read. *)
Definition gatesOpen (now : Z) (force : bool) (w : World) : bool :=
  walletConnected (walletRef (hook w))
  && negb (fetchInProgressRef (hook w))
  && (force || (REFETCH_COOLDOWN_MS <=? now - lastFetchTimeRef (hook w))).

(** The replies of a whole loop: for each miner its expedition read, then
    its meal read. *)
Definition loopReplies
    (rs : list (outcome ExpeditionData * outcome MealInfo)) : list Reply :=
  flat_map (fun p => [RExpedition (fst p); RMeal (snd p)]) rs.

(** The statuses the loop pushes for the miners [ms] read with [rs]. *)
Fixpoint collectStatuses (op : nat) (cd nowSecs : Z) (ms : list Z)
    (rs : list (outcome ExpeditionData * outcome MealInfo))
    : list ExpeditionStatus :=
  match ms, rs with
  | m :: ms', (re, rm) :: rs' =>
      match fst (processMiner op m cd nowSecs re rm) with
      | Some s => s :: collectStatuses op cd nowSecs ms' rs'
      | None => collectStatuses op cd nowSecs ms' rs'
      end
  | _, _ => []
  end.

(** Neither date formatting of the loop body throws for this miner. *)
Definition datesInRange (cd : Z) (rm : outcome MealInfo) : Prop :=
  let ts := match rm with Resolved mi => meal_timestamp mi | Rejected _ => 0 end in
  Z.abs ((ts + cd) * 1000) <= MAX_TIME_VALUE
  /\ Z.abs (ts + cd * 1000) <= MAX_TIME_VALUE.

(** What a miner gets when both of its reads fail. *)
Definition defaultStatus (miner cd : Z) : ExpeditionStatus :=
  {| minerId := miner; onExpedition := false; startTime := 0; endTime := 0;
     completed := false; eligibleForNewExpedition := false;
     fedStatus := {| mealId := 0; timestamp := 0; isActive := false;
                     expiryTime := cd |} |}.

(** Feeding replies to a segment result. *)
Definition continueWith (bound : list Z) (rs : list Reply)
    (p : World * option Cycle) : World * option Cycle :=
  match p with
  | (w, Some c) => feed bound rs w c
  | (w, None) => (w, None)
  end.

(** Events of a burst: calls of [fetchStatuses] and attempts of the
    runtime to run a timer. *)
Definition burstEvent (e : Event) : bool :=
  match e with
  | Trigger _ | TimerFires _ => true
  | _ => false
  end.

(** Time and [force] flag of the last trigger of a trace, given those of
    the trigger before it. *)
Fixpoint lastTrigger (t : Z) (f : bool) (tr : list (Z * Event)) : Z * bool :=
  match tr with
  | [] => (t, f)
  | (t', Trigger f') :: tr' => lastTrigger t' f' tr'
  | _ :: tr' => lastTrigger t f tr'
  end.

Fixpoint countTriggers (tr : list (Z * Event)) : nat :=
  match tr with
  | [] => 0
  | (_, Trigger _) :: tr' => S (countTriggers tr')
  | _ :: tr' => countTriggers tr'
  end.

(** The world in the middle of a burst that began in [w]: the one run
    pending is the one of the latest trigger, made at [t] with [force]. *)
Definition burstWorld (w : World) (id : nat) (t : Z) (force : bool) : World :=
  {| globalOperationCounter := globalOperationCounter w;
     hook := setDebouncedFetch (Some id) (hook w);
     timers := [{| timer_id := id; timer_due := t + FETCH_DEBOUNCE_MS;
                   timer_force := force |}];
     nextTimerId := S id;
     log := log w |}.

(** ** Sample data *)

Definition sampleWallet : Wallet :=
  {| connector := true; address := Some "0xA11CE"%string |}.

Definition noWallet : Wallet := {| connector := false; address := None |}.

Definition unfedStatus (miner : Z) : ExpeditionStatus :=
  {| minerId := miner; onExpedition := false; startTime := 0; endTime := 0;
     completed := false; eligibleForNewExpedition := false;
     fedStatus := {| mealId := 0; timestamp := 0; isActive := false;
                     expiryTime := 0 |} |}.

Definition fedStatusOf (miner ts cd : Z) : ExpeditionStatus :=
  {| minerId := miner; onExpedition := false; startTime := 0; endTime := 0;
     completed := false; eligibleForNewExpedition := true;
     fedStatus := {| mealId := 3; timestamp := ts; isActive := true;
                     expiryTime := ts + cd |} |}.

(** A hook after a committed cycle that ended at [lastFetch]. *)
Definition settledHook (wl : Wallet) (lastFetch : Z)
    (sts : list ExpeditionStatus) (miners : list Z) : Hook :=
  {| loading := false; error := None; initialized := true; statuses := sts;
     lastValidStakedMiners := miners;
     cooldownTime := lastFetch + REFETCH_COOLDOWN_MS;
     currentOpIdRef := 1; lastFetchTimeRef := lastFetch;
     fetchInProgressRef := false; debouncedFetchRef := None;
     walletRef := wl |}.

Definition settledWorld (wl : Wallet) (lastFetch : Z)
    (sts : list ExpeditionStatus) (miners : list Z) : World :=
  {| globalOperationCounter := 1;
     hook := settledHook wl lastFetch sts miners;
     timers := []; nextTimerId := 0; log := [] |}.

(** A world in which cycle 1 is in flight and the counter has moved on to
    2. *)
Definition supersededWorld : World :=
  {| globalOperationCounter := 2;
     hook := setFetchInProgress true
               (setLoading true (settledHook sampleWallet 10000 [] []));
     timers := []; nextTimerId := 0; log := [] |}.

(** A world in which cycle 1 is in flight and current, with miner 7 fed
    at second 1000 in the statuses of the cycle before. *)
Definition runningWorld : World :=
  {| globalOperationCounter := 1;
     hook := setFetchInProgress true
               (setLoading true
                  (settledHook sampleWallet 20000000
                               [fedStatusOf 7 1000 21600] [7]));
     timers := []; nextTimerId := 0; log := [] |}.

Definition cycleAt (op : nat) (now : Z) (p : Phase) : Cycle :=
  {| opId := op; cycleNow := now; phase := p |}.

End Vocabulary.

(** [ethers.formatUnits] as the library computes it: the digits of the
    value with a point [decimals] places from the right, a 0 before the
    point when nothing else is there, and no zero at the end besides the
    one right after the point. *)
Fixpoint dropLeadingZeros (s : string) : string :=
  match s with
  | String "0" (String _ _ as rest) => dropLeadingZeros rest
  | _ => s
  end.

Definition reverseString (s : string) : string :=
  string_of_list_ascii (rev (list_ascii_of_string s)).

Definition sampleFormatUnits (v : Z) (decimals : Z) : string :=
  let places := Z.to_nat decimals in
  let sign := if v <? 0 then "-"%string else ""%string in
  let digits := StringOfNumber (Z.abs v) in
  if (places =? 0)%nat then append sign digits
  else
    let padded := padStart (S places) "0" digits in
    let index := (String.length padded - places)%nat in
    let whole := dropLeadingZeros (substring 0 index padded) in
    let fraction :=
      reverseString
        (dropLeadingZeros (reverseString (substring index places padded))) in
    append sign (append whole (append "." fraction)).

(** Stand-ins for the other conversions of the platform, right on the
    values the examples use. *)

Definition sampleNumber (s : string) : float :=
  if String.eqb s "100" then 100%float
  else if String.eqb s "0.01" then 0x1.47ae147ae147bp-7%float
  else 0%float.

Definition sampleToString (x : float) : string :=
  if PrimFloat.eqb x 105 then "105"%string else "?"%string.

Definition goodChain : StakingSyncService.Chain :=
  {| StakingSyncService.rpc_getStakedMiners := Resolved [1; 2];
     StakingSyncService.rpc_getPendingRewards := Resolved 5;
     StakingSyncService.rpc_GEMS_PER_SECOND := Resolved 1 |}.

Definition failingChain : StakingSyncService.Chain :=
  {| StakingSyncService.rpc_getStakedMiners := Rejected "network error";
     StakingSyncService.rpc_getPendingRewards := Resolved 5;
     StakingSyncService.rpc_GEMS_PER_SECOND := Resolved 1 |}.

(** ** Vocabulary for the services *)

(** A call of [setupAutoSync], or a call of a clean-up function it
    returned. *)
Inductive SyncAction : Type :=
| Setup (intervalMs : option Z)
| Stop.

Definition syncStep (a : StakingSyncService.AutoSync) (act : SyncAction)
    : StakingSyncService.AutoSync :=
  match act with
  | Setup ms => StakingSyncService.setupAutoSync ms a
  | Stop => StakingSyncService.stopAutoSync a
  end.

Definition runSync (acts : list SyncAction)
    : StakingSyncService.AutoSync :=
  fold_left syncStep acts StakingSyncService.freshAutoSync.

(** The service holds at most one interval, the recorded one, never
    faster than the minimum. *)
Definition singleSync (a : StakingSyncService.AutoSync) : Prop :=
  (StakingSyncService.syncInterval a = None
   /\ StakingSyncService.intervals a = [])
  \/ exists id p,
      StakingSyncService.syncInterval a = Some id
      /\ StakingSyncService.intervals a
         = [{| StakingSyncService.iv_id := id;
               StakingSyncService.iv_period := p |}]
      /\ StakingSyncService.MIN_SYNC_INTERVAL <= p.

(** Reading a decimal numeral back. *)
Definition numberOfString (s : string) : option Z :=
  option_map Z.of_int (DecimalString.NilZero.int_of_string s).

Fixpoint dropChars (n : nat) (s : string) : string :=
  match n, s with
  | S n', String _ rest => dropChars n' rest
  | _, _ => s
  end.

(** Reading the token back from a name made by [minerName]. *)
Definition parseMinerName (name : string) : option Z :=
  numberOfString (dropChars 7 name).

(** ** Vocabulary for the contract table *)

(** The names [getContractAddress] knows: the five aliases and the seven
    keys of the table (two names are both). *)
Definition knownContractNames : list string :=
  [ "StakingSystem"; "MiningSystem"; "FoodSystem"; "StakingProxy";
    "MinerNFT"; "GEMSToken"; "MiningMastersStaking"; "FoodSystemProxy";
    "RewardSpendingBatch"; "MiningExpeditionProxy" ]%string.

(** The network variable is unset, empty, or one of the two networks the
    table has. *)
Definition networkConfigured (env : string -> option string) : Prop :=
  Contracts.orElse env "VITE_NETWORK_ENV" "testnet" = "mainnet"%string
  \/ Contracts.orElse env "VITE_NETWORK_ENV" "testnet" = "testnet"%string.

(** The names every JavaScript object answers to besides its own keys.
    With one of them as the network the look-up finds an inherited
    member instead of an address; the table of this embedding has own
    keys only. *)
Definition objectPrototypeMembers : list string :=
  [ "constructor"; "__proto__"; "hasOwnProperty"; "isPrototypeOf";
    "propertyIsEnumerable"; "toLocaleString"; "toString"; "valueOf";
    "__defineGetter__"; "__defineSetter__"; "__lookupGetter__";
    "__lookupSetter__" ]%string.

Definition ownNetworkName (env : string -> option string) : Prop :=
  ~ In (Contracts.orElse env "VITE_NETWORK_ENV" "testnet")
       objectPrototypeMembers.

(** [a] is "0x" followed by forty hex digits and nothing else. *)
Definition isAddress (a : string) : Prop :=
  Contracts.matchHere a = Some a /\ String.length a = 42%nat.

Definition sampleEnv (name : string) : option string :=
  if String.eqb name "VITE_TESTNET_STAKING_PROXY_ADDRESS"
  then Some "0x1111111111111111111111111111111111111111#staking"%string
  else None.

(** ** Vocabulary for the statuses and the tokens *)

(** The relations the loop body sets up between the fields of a status
    it builds with cooldown [cd]. *)
Definition wellFormed (cd : Z) (s : UseExpeditions.ExpeditionStatus) : Prop :=
  UseExpeditions.eligibleForNewExpedition s
  = negb (UseExpeditions.onExpedition s)
    && UseExpeditions.isActive (UseExpeditions.fedStatus s)
  /\ UseExpeditions.isActive (UseExpeditions.fedStatus s)
     = (0 <? UseExpeditions.timestamp (UseExpeditions.fedStatus s))
  /\ UseExpeditions.expiryTime (UseExpeditions.fedStatus s)
     = UseExpeditions.timestamp (UseExpeditions.fedStatus s) + cd
  /\ (UseExpeditions.onExpedition s = true ->
      0 < UseExpeditions.startTime s /\ 0 < UseExpeditions.endTime s
      /\ UseExpeditions.completed s = false).

(** No cycle in flight holds a token above the counter. *)
Definition tokensBounded (s : UseExpeditions.System) : Prop :=
  Forall (fun c => (UseExpeditions.opId c
                    <= UseExpeditions.globalOperationCounter
                         (UseExpeditions.world s))%nat)
         (UseExpeditions.inflight s).

(** The replies of a cycle whose set-up succeeds: provider, signer,
    cooldown, staked miners, then the loop. *)
Definition cycleReplies (rc : outcome Z) (rm : outcome (list Z))
    (rs : list (outcome UseExpeditions.ExpeditionData
                * outcome UseExpeditions.MealInfo))
    : list UseExpeditions.Reply :=
  UseExpeditions.RProvider (Resolved tt)
  :: UseExpeditions.RSigner (Resolved tt)
  :: UseExpeditions.RCooldown rc
  :: UseExpeditions.RStakedMiners rm
  :: loopReplies rs.

(** The cooldown a cycle works with, and the list it reads. *)
Definition cooldownUsed (rc : outcome Z) : Z :=
  match rc with
  | Resolved secs => secs
  | Rejected _ => UseExpeditions.MEAL_DURATION_SECONDS
  end.

Definition minersUsed (bound : list Z) (rm : outcome (list Z)) : list Z :=
  match rm with
  | Resolved l => l
  | Rejected _ => bound
  end.

(** ** Vocabulary for the clock texts *)

Fixpoint hasChar (c : ascii) (s : string) : bool :=
  match s with
  | EmptyString => false
  | String a rest => Ascii.eqb a c || hasChar c rest
  end.

(** The fields of a text between the occurrences of [sep]. *)
Fixpoint splitOn (sep : ascii) (s : string) : list string :=
  match s with
  | EmptyString => [EmptyString]
  | String a rest =>
      if Ascii.eqb a sep then EmptyString :: splitOn sep rest
      else match splitOn sep rest with
           | [] => [String a EmptyString]
           | f :: fs => String a f :: fs
           end
  end.

(** Reading a clock text back: the fields between the colons are
    numerals, each worth sixty of the next. *)
Definition parseClock (s : string) : option Z :=
  fold_left
    (fun (acc : option Z) (f : string) =>
       match acc, numberOfString f with
       | Some a, Some n => Some (a * 60 + n)
       | _, _ => None
       end)
    (splitOn ":" s) (Some 0).

(** ** Vocabulary for the staking hook *)

(** What happens to the estimation: a [setupRewardsEstimation] call with
    its base rewards, rate, miner count and time, or the clean-up of the
    wallet effect. *)
Inductive EstimationAction : Type :=
| Estimate (baseRewards gemsPerSecond : string)
           (minerCount lastUpdateTime : Z)
| StopEstimation.

Definition estimationStep (e : UseStaking.Estimation)
    (a : EstimationAction) : UseStaking.Estimation :=
  match a with
  | Estimate b g n t => UseStaking.setupRewardsEstimation b g n t e
  | StopEstimation => UseStaking.stopRewardsEstimation e
  end.

Definition runEstimation (acts : list EstimationAction)
    : UseStaking.Estimation :=
  fold_left estimationStep acts UseStaking.noEstimation.

(** At most one ticker runs, and it is the one the reference records. *)
Definition singleTicker (e : UseStaking.Estimation) : Prop :=
  UseStaking.tickers e = []
  \/ exists t, UseStaking.tickers e = [t]
               /\ UseStaking.rewardsIntervalRef e = Some (UseStaking.tk_id t).

(** One of the three reads of a chain fails. *)
Definition someReadFails (chain : StakingSyncService.Chain) : bool :=
  is_rejected (StakingSyncService.rpc_getStakedMiners chain)
  || is_rejected (StakingSyncService.rpc_getPendingRewards chain)
  || is_rejected (StakingSyncService.rpc_GEMS_PER_SECOND chain).

(** ** Vocabulary for the meal statuses *)



(** * Properties *)

(** ** Facts about the segments of a cycle *)

Section CycleFacts.

Import UseExpeditions.

Variable bound : list Z.

Lemma finish_setPhase (p : Phase) (c : Cycle) (x : Exit) (w : World) :
  finish (setPhase p c) x w = finish c x w.
Proof. reflexivity. Qed.

Lemma finish_counter (c : Cycle) (x : Exit) (w : World) :
  globalOperationCounter (finish c x w) = globalOperationCounter w.
Proof.
  unfold finish.
  destruct x as [miners sts | e | ];
    destruct (Nat.eqb (opId c) (globalOperationCounter w));
    try destruct miners; reflexivity.
Qed.

Lemma loopHead_counter (c : Cycle) (cd : Z) (all todo : list Z)
    (acc : list ExpeditionStatus) (w : World) :
  globalOperationCounter (fst (loopHead c cd all todo acc w))
  = globalOperationCounter w.
Proof.
  unfold loopHead. destruct todo as [ | m rest ]; cbn [fst].
  - apply finish_counter.
  - destruct (Nat.eqb (opId c) (globalOperationCounter w)); cbn [fst].
    + reflexivity.
    + now rewrite finish_counter.
Qed.

Lemma resume_counter (w : World) (c : Cycle) (r : Reply) :
  globalOperationCounter (fst (resume bound w c r)) = globalOperationCounter w.
Proof.
  unfold resume.
  destruct (phase c) as [ | | | cd | ls | ls ev ];
    destruct r as [ o | o | o | o | o | o ]; try reflexivity;
    try (destruct o; cbn [fst]; try reflexivity; apply finish_counter).
  - destruct o as [ l | e ].
    + rewrite loopHead_counter. now destruct l.
    + now rewrite loopHead_counter.
  - destruct (readMeal _ _ _ _ o) as [mv l2].
    destruct (buildStatus _ _ _ ev mv) as [st l3].
    now rewrite loopHead_counter.
Qed.

Lemma resume_token (w : World) (c c' : Cycle) (r : Reply) :
  snd (resume bound w c r) = Some c' ->
  opId c' = opId c /\ cycleNow c' = cycleNow c.
Proof.
  unfold resume.
  destruct (phase c) as [ | | | cd | ls | ls ev ];
    destruct r as [ o | o | o | o | o | o ]; cbn [snd];
    try (intros [= <-]; now split);
    try (destruct o; cbn [snd]; intros [= <-]; now split).
  - destruct o as [ l | e ]; unfold loopHead.
    + destruct l as [ | m rest ]; cbn [snd]; [ discriminate | ].
      match goal with |- context [if ?b then _ else _] => destruct b end;
        cbn [snd]; [ intros [= <-]; now split | discriminate ].
    + destruct bound as [ | m rest ]; cbn [snd]; [ discriminate | ].
      match goal with |- context [if ?b then _ else _] => destruct b end;
        cbn [snd]; [ intros [= <-]; now split | discriminate ].
  - destruct (readMeal _ _ _ _ o) as [mv l2].
    destruct (buildStatus _ _ _ ev mv) as [st l3].
    unfold loopHead. destruct (ls_pending ls) as [ | m rest ];
      cbn [snd]; [ discriminate | ].
    match goal with |- context [if ?b then _ else _] => destruct b end;
      cbn [snd]; [ intros [= <-]; now split | discriminate ].
Qed.

(** A superseded cycle publishes nothing when it leaves the [try]. *)
Lemma finish_stale (c : Cycle) (x : Exit) (w : World) :
  opId c <> globalOperationCounter w ->
  derivedState (hook (finish c x w)) = derivedState (hook w)
  /\ fetchInProgressRef (hook (finish c x w)) = false.
Proof.
  intros Hne. unfold finish.
  rewrite (proj2 (Nat.eqb_neq _ _) Hne).
  destruct x; split; reflexivity.
Qed.

Lemma loopHead_stale (c : Cycle) (cd : Z) (all todo : list Z)
    (acc : list ExpeditionStatus) (w : World) :
  opId c <> globalOperationCounter w ->
  derivedState (hook (fst (loopHead c cd all todo acc w)))
  = derivedState (hook w)
  /\ (snd (loopHead c cd all todo acc w) = None
      /\ fetchInProgressRef (hook (fst (loopHead c cd all todo acc w)))
         = false).
Proof.
  intros Hne. unfold loopHead. destruct todo as [ | m rest ]; cbn [fst snd].
  - destruct (finish_stale c (Completed all acc) w Hne) as [Hd Hf].
    now rewrite Hd, Hf.
  - rewrite (proj2 (Nat.eqb_neq _ _) Hne). cbn [fst snd].
    destruct (finish_stale c SupersededReturn
                (logDebug [LogSuperseded (opId c)] w) Hne) as [Hd Hf].
    now rewrite Hd, Hf.
Qed.

Lemma resume_stale (w : World) (c : Cycle) (r : Reply) :
  opId c <> globalOperationCounter w ->
  derivedState (hook (fst (resume bound w c r))) = derivedState (hook w)
  /\ (snd (resume bound w c r) = None ->
      fetchInProgressRef (hook (fst (resume bound w c r))) = false).
Proof.
  intros Hne. unfold resume.
  destruct (phase c) as [ | | | cd | ls | ls ev ];
    destruct r as [ o | o | o | o | o | o ];
    try (split; [ reflexivity | discriminate ]);
    try (destruct o as [ a | e ]; cbn [fst snd];
         [ split; [ reflexivity | discriminate ]
         | destruct (finish_stale c (Threw e) w Hne) as [Hd Hf];
           split; [ exact Hd | intros _; exact Hf ] ]).
  - destruct o; split; [ reflexivity | discriminate
                        | reflexivity | discriminate ].
  - destruct o as [ l | e ].
    + destruct l as [ | m rest ].
      * destruct (loopHead_stale c cd [] [] []
                    (logDebug [LogNoStakedMiners (opId c)] w) Hne)
          as [Hd [_ Hf]].
        split; [ exact Hd | intros _; exact Hf ].
      * destruct (loopHead_stale c cd (m :: rest) (m :: rest) []
                    (logDebug [LogFound (opId c) (m :: rest)]
                       (withHook (setLastValidStakedMiners (m :: rest)) w))
                    Hne) as [Hd [_ Hf]].
        split; [ exact Hd | intros _; exact Hf ].
    + destruct (loopHead_stale c cd bound bound []
                  (logDebug [LogMinersError (opId c) e;
                             LogUsingCached (opId c) bound] w) Hne)
        as [Hd [_ Hf]].
      split; [ exact Hd | intros _; exact Hf ].
  - destruct (readExpedition (opId c) (ls_minerId ls) o).
    split; [ reflexivity | discriminate ].
  - destruct (readMeal _ _ _ _ o) as [mv l2].
    destruct (buildStatus _ _ _ ev mv) as [st l3].
    match goal with
    | |- context [loopHead c ?cd ?all ?todo ?acc ?w0] =>
        destruct (loopHead_stale c cd all todo acc w0 Hne) as [Hd [_ Hf]]
    end.
    split; [ exact Hd | intros _; exact Hf ].
Qed.

(** The counter never goes back. *)
Lemma timerCallback_counter (now : Z) (force : bool) (w : World) :
  (globalOperationCounter w
   <= globalOperationCounter (fst (timerCallback now force w)))%nat.
Proof.
  unfold timerCallback.
  destruct (negb (walletConnected (walletRef (hook w)))); [ cbn; lia | ].
  destruct (fetchInProgressRef (hook w)); [ cbn; lia | ].
  destruct (negb force && _); cbn; lia.
Qed.

Lemma settle_counter (op : nat) (r : Reply) (w : World) (cs : list Cycle) :
  globalOperationCounter (fst (settle bound op r w cs))
  = globalOperationCounter w.
Proof.
  induction cs as [ | c cs IH ]; cbn [settle]; [ reflexivity | ].
  destruct (Nat.eqb (opId c) op).
  - pose proof (resume_counter w c r) as H.
    destruct (resume bound w c r) as [w' oc]. exact H.
  - destruct (settle bound op r w cs) as [w' cs']. exact IH.
Qed.

Lemma step_counter (now : Z) (e : Event) (s : System) :
  (globalOperationCounter (world s)
   <= globalOperationCounter (world (step bound now e s)))%nat.
Proof.
  destruct e as [ force | id | op r | | | wl changed ]; cbn [step].
  - cbn. lia.
  - destruct (find _ _) as [ t | ]; [ | lia ].
    destruct (timer_due t <=? now); [ | lia ].
    match goal with
    | |- context [timerCallback now ?f ?w0] =>
        pose proof (timerCallback_counter now f w0) as H;
        destruct (timerCallback now f w0) as [w1 oc]
    end.
    exact H.
  - pose proof (settle_counter op r (world s) (inflight s)) as H.
    destruct (settle bound op r (world s) (inflight s)) as [w1 cs].
    cbn in *. lia.
  - cbn. lia.
  - destruct (debouncedFetchRef (hook (world s))); cbn; lia.
  - destruct changed; [ destruct (connector wl) | ]; cbn; lia.
Qed.

Lemma run_counter (tr : list (Z * Event)) (s : System) :
  (globalOperationCounter (world s)
   <= globalOperationCounter (world (run bound tr s)))%nat.
Proof.
  revert s. induction tr as [ | [now e] tr IH ]; intros s; cbn [run].
  - lia.
  - pose proof (step_counter now e s). pose proof (IH (step bound now e s)).
    lia.
Qed.

Lemma settle_stale (op : nat) (r : Reply) (w : World) (cs : list Cycle) :
  op <> globalOperationCounter w ->
  derivedState (hook (fst (settle bound op r w cs))) = derivedState (hook w).
Proof.
  intros Hne. induction cs as [ | c cs IH ]; cbn [settle]; [ reflexivity | ].
  destruct (Nat.eqb (opId c) op) eqn:E.
  - apply Nat.eqb_eq in E. subst op.
    pose proof (proj1 (resume_stale w c r Hne)) as H.
    destruct (resume bound w c r) as [w' oc]. exact H.
  - destruct (settle bound op r w cs) as [w' cs']. exact IH.
Qed.

(** The in-flight flag: a segment that ends the cycle clears it, any other
    segment leaves it. *)
Lemma finish_flag (c : Cycle) (x : Exit) (w : World) :
  fetchInProgressRef (hook (finish c x w)) = false.
Proof.
  unfold finish.
  destruct x as [miners sts | e | ];
    destruct (Nat.eqb (opId c) (globalOperationCounter w));
    try destruct miners; reflexivity.
Qed.

Lemma loopHead_flag (c : Cycle) (cd : Z) (all todo : list Z)
    (acc : list ExpeditionStatus) (w : World) :
  match snd (loopHead c cd all todo acc w) with
  | None => fetchInProgressRef (hook (fst (loopHead c cd all todo acc w)))
            = false
  | Some _ => fetchInProgressRef (hook (fst (loopHead c cd all todo acc w)))
              = fetchInProgressRef (hook w)
  end.
Proof.
  unfold loopHead. destruct todo as [ | m rest ]; cbn [fst snd].
  - apply finish_flag.
  - destruct (Nat.eqb (opId c) (globalOperationCounter w)); cbn [fst snd].
    + reflexivity.
    + apply finish_flag.
Qed.

Lemma resume_flag (w : World) (c : Cycle) (r : Reply) :
  match snd (resume bound w c r) with
  | None => fetchInProgressRef (hook (fst (resume bound w c r))) = false
  | Some _ => fetchInProgressRef (hook (fst (resume bound w c r)))
              = fetchInProgressRef (hook w)
  end.
Proof.
  unfold resume.
  destruct (phase c) as [ | | | cd | ls | ls ev ];
    destruct r as [ o | o | o | o | o | o ]; try reflexivity;
    try (destruct o as [ a | e ]; cbn [fst snd];
         first [ reflexivity | apply finish_flag ]).
  - destruct o as [ l | e ].
    + destruct l as [ | m rest ].
      * exact (loopHead_flag c cd [] [] []
                 (logDebug [LogNoStakedMiners (opId c)] w)).
      * exact (loopHead_flag c cd (m :: rest) (m :: rest) []
                 (logDebug [LogFound (opId c) (m :: rest)]
                    (withHook (setLastValidStakedMiners (m :: rest)) w))).
    + exact (loopHead_flag c cd bound bound []
               (logDebug [LogMinersError (opId c) e;
                          LogUsingCached (opId c) bound] w)).
  - destruct (readMeal _ _ _ _ o) as [mv l2].
    destruct (buildStatus _ _ _ ev mv) as [st l3].
    match goal with
    | |- context [loopHead c ?cd ?all ?todo ?acc ?w0] =>
        exact (loopHead_flag c cd all todo acc w0)
    end.
Qed.

(** Mutual exclusion: whatever the page does, the instance has at most
    one cycle in flight, and the flag tells whether it has one. *)
Lemma oneInFlight_step (now : Z) (e : Event) (s : System) :
  oneInFlight s -> oneInFlight (step bound now e s).
Proof.
  unfold oneInFlight. intros Hinv.
  destruct e as [ force | id | op r | | | wl changed ]; cbn [step].
  - exact Hinv.
  - destruct (find _ _) as [ t | ]; [ | exact Hinv ].
    destruct (timer_due t <=? now); [ | exact Hinv ].
    unfold timerCallback. cbn [hook withTimers].
    destruct (negb (walletConnected (walletRef (hook (world s)))));
      [ cbn; now rewrite app_nil_r | ].
    destruct (fetchInProgressRef (hook (world s))) eqn:Hflag;
      [ cbn; now rewrite app_nil_r, Hflag | ].
    destruct (negb (timer_force t) && _);
      [ cbn; now rewrite app_nil_r, Hflag | ].
    cbn. destruct (inflight s) as [ | c [ | c' cs ] ];
      [ reflexivity | discriminate | contradiction ].
  - destruct (inflight s) as [ | c [ | c' cs ] ]; [ exact Hinv | | contradiction ].
    cbn [settle]. destruct (Nat.eqb (opId c) op); [ | cbn; exact Hinv ].
    pose proof (resume_flag (world s) c r) as Hflag.
    destruct (resume bound (world s) c r) as [w' [ c' | ]];
      cbn [fst snd] in Hflag; cbn; congruence.
  - exact Hinv.
  - destruct (debouncedFetchRef (hook (world s))); exact Hinv.
  - destruct changed; [ destruct (connector wl) | ]; exact Hinv.
Qed.

Lemma oneInFlight_run (tr : list (Z * Event)) (s : System) :
  oneInFlight s -> oneInFlight (run bound tr s).
Proof.
  revert s. induction tr as [ | [now e] tr IH ]; intros s Hinv; cbn [run].
  - exact Hinv.
  - apply IH. now apply oneInFlight_step.
Qed.

Lemma oneInFlight_mount (now : Z) (counter : nat) (wl : Wallet)
    (tr : list (Z * Event)) :
  oneInFlight (run bound tr (mount now counter wl)).
Proof.
  apply oneInFlight_run. unfold oneInFlight, mount. cbn.
  now destruct (connector wl).
Qed.

End CycleFacts.

(** ** Superseded cycles *)

Section Superseded.

Import UseExpeditions.

(** C2, as stated, fails: a cycle whose token is no longer the counter
    still writes shared state.  Cycle 1, superseded while it awaited the
    staked miner list, stores the list it receives in
    [lastValidStakedMiners] and, leaving at the token check of the loop,
    resets the in-flight flag. *)
Lemma superseded_cycle_writes_shared_state :
  let c := cycleAt 1 10000 (AwaitStakedMiners 21600) in
  let w' := fst (resume [] supersededWorld c (RStakedMiners (Resolved [7]))) in
  opId c <> globalOperationCounter supersededWorld
  /\ lastValidStakedMiners (hook supersededWorld) = []
  /\ lastValidStakedMiners (hook w') = [7]
  /\ fetchInProgressRef (hook supersededWorld) = true
  /\ fetchInProgressRef (hook w') = false
  /\ hook w' <> hook supersededWorld.
Proof.
  cbn. repeat split; try reflexivity; discriminate.
Qed.

(** C2, amended.  A cycle takes the fresh value of the counter as its
    token when it starts.  No segment of a cycle whose token differs from
    the counter writes [statuses], [initialized], [error], [loading] or
    [cooldownTime]; so once the counter has passed [t1], whatever happens
    next, the settling of a promise awaited by cycle [t1] leaves them as
    the newer cycle committed them.  When such a cycle ends it still
    releases the in-flight flag. *)
Theorem superseded_cycle_commits_nothing :
  forall bound : list Z,
    (forall (now : Z) (force : bool) (w : World) (c : Cycle),
        snd (timerCallback now force w) = Some c ->
        opId c = globalOperationCounter (fst (timerCallback now force w))
        /\ opId c = S (globalOperationCounter w))
    /\ (forall (w : World) (c : Cycle) (r : Reply),
           opId c <> globalOperationCounter w ->
           derivedState (hook (fst (resume bound w c r)))
           = derivedState (hook w))
    /\ (forall (s : System) (tr : list (Z * Event)) (now : Z) (t1 : nat)
               (r : Reply),
           (t1 < globalOperationCounter (world s))%nat ->
           let s1 := run bound tr s in
           derivedState (hook (world (step bound now (Settles t1 r) s1)))
           = derivedState (hook (world s1)))
    /\ (forall (w : World) (c : Cycle) (r : Reply),
           opId c <> globalOperationCounter w ->
           snd (resume bound w c r) = None ->
           fetchInProgressRef (hook (fst (resume bound w c r))) = false).
Proof.
  intros bound. split; [ | split; [ | split ] ].
  - intros now force w c. unfold timerCallback.
    destruct (negb (walletConnected (walletRef (hook w)))); [ discriminate | ].
    destruct (fetchInProgressRef (hook w)); [ discriminate | ].
    destruct (negb force && _); [ discriminate | ].
    cbn. intros [= <-]. now split.
  - intros w c r Hne. apply (resume_stale bound w c r Hne).
  - intros s tr now t1 r Hlt s1. cbn [step].
    pose proof (run_counter bound tr s) as Hmono. fold s1 in Hmono.
    assert (Hne : t1 <> globalOperationCounter (world s1)) by lia.
    pose proof (settle_stale bound t1 r (world s1) (inflight s1) Hne) as H.
    destruct (settle bound t1 r (world s1) (inflight s1)) as [w1 cs].
    exact H.
  - intros w c r Hne. apply (resume_stale bound w c r Hne).
Qed.

Lemma superseded_cycle_commits_nothing_witness :
  let c := cycleAt 1 10000 (AwaitStakedMiners 21600) in
  let s := {| world := supersededWorld; inflight := [c] |} in
  let w0 := settledWorld sampleWallet 10000 [] [] in
  opId (cycleAt 2 20000 AwaitProvider)
  = globalOperationCounter (fst (timerCallback 20000 true w0))
  /\ derivedState
       (hook (fst (resume [] supersededWorld c (RStakedMiners (Resolved [7])))))
     = derivedState (hook supersededWorld)
  /\ derivedState
       (hook (world (step [] 10600 (Settles 1 (RStakedMiners (Resolved [7])))
                          (run [] [(10500, OtherInstance)] s))))
     = derivedState (hook (world (run [] [(10500, OtherInstance)] s)))
  /\ fetchInProgressRef
       (hook (fst (resume [] supersededWorld c
                          (RStakedMiners (Resolved [7])))))
     = false.
Proof.
  intros c s w0.
  destruct (superseded_cycle_commits_nothing []) as [Hstart [Hseg [Hlate Hrel]]].
  split; [ | split; [ | split ] ].
  - apply (Hstart 20000 true w0 (cycleAt 2 20000 AwaitProvider)). reflexivity.
  - apply Hseg. cbn. discriminate.
  - apply (Hlate s [(10500, OtherInstance)] 10600 1%nat). cbn. lia.
  - apply Hrel; [ cbn; discriminate | reflexivity ].
Defined.

End Superseded.

(** ** Cooldown, force and the in-flight check *)

Section Gates.

Import UseExpeditions.

(** C3, as stated, fails: a forced trigger does not always read.  The run
    of a forced trigger finds no wallet and returns; and with a wallet and
    nothing in flight, a forced trigger followed 100 ms later by a plain
    one is cancelled by it, and the run that is left, not forced, stops at
    the cooldown: no cycle starts, the counter stays. *)
Lemma forced_trigger_without_read :
  let s0 := {| world := settledWorld sampleWallet 10000 [] [];
               inflight := [] |} in
  let s := run [] [ (11000, Trigger true); (11100, Trigger false);
                    (11300, TimerFires 0%nat); (11400, TimerFires 1%nat) ]
               s0 in
  snd (timerCallback 20000 true (settledWorld noWallet 10000 [] [])) = None
  /\ inflight s = []
  /\ timers (world s) = []
  /\ globalOperationCounter (world s) = globalOperationCounter (world s0)
  /\ lastFetchTimeRef (hook (world s)) = 10000.
Proof. cbn. repeat split. Qed.

(** C3, amended.  A run that is not forced and fires within the cooldown
    after the last start reads nothing.  A forced run that finds a wallet
    and nothing in flight starts a cycle whatever the time since the last
    start.  A run, forced or not, that finds a cycle in flight is dropped:
    it writes a log line and nothing else, and schedules nothing.
    [manualSync] within [MIN_SYNC_INTERVAL] of the last sync reads nothing
    and does not call back. *)
Theorem cooldown_and_force_gates :
  (forall (now : Z) (w : World),
      now - lastFetchTimeRef (hook w) < REFETCH_COOLDOWN_MS ->
      let r := timerCallback now false w in
      snd r = None
      /\ globalOperationCounter (fst r) = globalOperationCounter w
      /\ timers (fst r) = timers w
      /\ lastFetchTimeRef (hook (fst r)) = lastFetchTimeRef (hook w)
      /\ fetchInProgressRef (hook (fst r)) = fetchInProgressRef (hook w))
  /\ (forall (now : Z) (w : World),
         walletConnected (walletRef (hook w)) = true ->
         fetchInProgressRef (hook w) = false ->
         let r := timerCallback now true w in
         snd r = Some {| opId := S (globalOperationCounter w);
                         cycleNow := now; phase := AwaitProvider |}
         /\ globalOperationCounter (fst r) = S (globalOperationCounter w)
         /\ fetchInProgressRef (hook (fst r)) = true
         /\ lastFetchTimeRef (hook (fst r)) = now)
  /\ (forall (now : Z) (force : bool) (w : World),
         walletConnected (walletRef (hook w)) = true ->
         fetchInProgressRef (hook w) = true ->
         timerCallback now force w = (logDebug [LogFetchInProgress] w, None))
  /\ (forall (formatUnits : Z -> Z -> string) (NumberOfBigInt : Z -> Z)
             (svc : StakingSyncService.Service)
             (chain : StakingSyncService.Chain) (walletAddress : string)
             (callbackThrows : StakingSyncService.StakingData -> bool)
             (now nowSync nowCatch : Z),
         now - StakingSyncService.svc_lastSyncTimestamp svc
         < StakingSyncService.MIN_SYNC_INTERVAL ->
         StakingSyncService.manualSync formatUnits NumberOfBigInt svc chain
           walletAddress callbackThrows now nowSync nowCatch
         = ([], svc)).
Proof.
  split; [ | split; [ | split ] ].
  - intros now w Hcool. unfold timerCallback.
    destruct (negb (walletConnected (walletRef (hook w))));
      [ cbn; repeat split | ].
    destruct (fetchInProgressRef (hook w)) eqn:E; [ cbn; now repeat split | ].
    apply Z.ltb_lt in Hcool. rewrite Hcool. cbn. now repeat split.
  - intros now w Hw Hfree. unfold timerCallback.
    rewrite Hw, Hfree. cbn. repeat split.
  - intros now force w Hw Hbusy. unfold timerCallback.
    now rewrite Hw, Hbusy.
  - intros formatUnits NumberOfBigInt svc chain walletAddress callbackThrows
           now nowSync nowCatch Hcool.
    unfold StakingSyncService.manualSync.
    apply Z.leb_gt in Hcool. now rewrite Hcool.
Qed.

Lemma cooldown_and_force_gates_witness :
  let w := settledWorld sampleWallet 10000 [] [] in
  let busy := withHook (setFetchInProgress true) w in
  snd (timerCallback 11000 false w) = None
  /\ snd (timerCallback 11000 true w)
     = Some {| opId := 2; cycleNow := 11000; phase := AwaitProvider |}
  /\ timerCallback 11000 true busy = (logDebug [LogFetchInProgress] busy, None)
  /\ StakingSyncService.manualSync (fun _ _ => "1.0"%string) (fun z => z)
       {| StakingSyncService.svc_lastSyncTimestamp := 10000 |}
       {| StakingSyncService.rpc_getStakedMiners := Resolved [1];
          StakingSyncService.rpc_getPendingRewards := Resolved 5;
          StakingSyncService.rpc_GEMS_PER_SECOND := Resolved 1 |}
       "0xA11CE" (fun _ => false) 20000 20001 20002
     = ([], {| StakingSyncService.svc_lastSyncTimestamp := 10000 |}).
Proof.
  intros w busy.
  destruct cooldown_and_force_gates as [Hcool [Hforce [Hbusy Hmanual]]].
  split; [ | split; [ | split ] ].
  - apply (Hcool 11000 w). reflexivity.
  - apply (Hforce 11000 w); reflexivity.
  - apply (Hbusy 11000 true busy); reflexivity.
  - apply Hmanual. reflexivity.
Defined.

End Gates.

(** ** Debounce *)

Section Debounce.

Import UseExpeditions.

Variable bound : list Z.

Lemma clearTimeout_tidy (w : World) (id : nat) :
  tidy w -> debouncedFetchRef (hook w) = Some id ->
  clearTimeout id (timers w) = [].
Proof.
  unfold tidy. intros Htidy Href.
  induction (timers w) as [ | tm ts IH ]; [ reflexivity | ].
  cbn. assert (Hid : timer_id tm = id).
  { specialize (Htidy tm (or_introl eq_refl)). congruence. }
  rewrite Hid, Nat.eqb_refl. cbn.
  apply IH. intros tm' Hin. apply Htidy. now right.
Qed.

Lemma fetchStatuses_tidy (w : World) (t : Z) (force : bool) :
  tidy w -> fetchStatuses t force w = burstWorld w (nextTimerId w) t force.
Proof.
  intros Htidy. unfold fetchStatuses, burstWorld.
  destruct (debouncedFetchRef (hook w)) as [ id | ] eqn:Href.
  - now rewrite (clearTimeout_tidy w id Htidy Href).
  - destruct (timers w) as [ | tm ts ] eqn:Hts; [ reflexivity | ].
    specialize (Htidy tm). rewrite Hts in Htidy.
    specialize (Htidy (or_introl eq_refl)). congruence.
Qed.

Lemma fetchStatuses_burst (w : World) (id : nat) (t t' : Z) (f f' : bool) :
  fetchStatuses t' f' (burstWorld w id t f) = burstWorld w (S id) t' f'.
Proof.
  unfold fetchStatuses, burstWorld. cbn. now rewrite Nat.eqb_refl.
Qed.

Lemma timer_not_due (w : World) (cs : list Cycle) (id id' : nat)
    (t now : Z) (f : bool) :
  id' <> id \/ now < t + FETCH_DEBOUNCE_MS ->
  step bound now (TimerFires id')
       {| world := burstWorld w id t f; inflight := cs |}
  = {| world := burstWorld w id t f; inflight := cs |}.
Proof.
  intros H. cbn. destruct (Nat.eqb id id') eqn:E; [ | reflexivity ].
  apply Nat.eqb_eq in E. destruct H as [H | H]; [ congruence | ].
  cbn. apply Z.leb_gt in H. now rewrite H.
Qed.

Lemma burst_rest (w : World) (cs : list Cycle) (t1 : Z)
    (es : list (Z * Event)) :
  Forall (fun te => burstEvent (snd te) = true
                    /\ t1 <= fst te < t1 + FETCH_DEBOUNCE_MS) es ->
  forall (id : nat) (t : Z) (f : bool),
    t1 <= t ->
    run bound es {| world := burstWorld w id t f; inflight := cs |}
    = {| world := burstWorld w (id + countTriggers es)
                             (fst (lastTrigger t f es))
                             (snd (lastTrigger t f es));
         inflight := cs |}.
Proof.
  induction 1 as [ | [now e] es [Hev Hwin] _ IH ]; intros id t f Ht.
  - cbn. now rewrite Nat.add_0_r.
  - cbn in Hev, Hwin. destruct e as [ f' | id' | | | | ]; try discriminate.
    + cbn [run step world inflight].
      rewrite fetchStatuses_burst, IH by lia.
      cbn [countTriggers lastTrigger]. now rewrite Nat.add_succ_r.
    + cbn [run]. rewrite timer_not_due by (right; lia).
      now rewrite IH.
Qed.

Lemma timerCallback_gates (now : Z) (force : bool) (w : World) :
  (gatesOpen now force w = true ->
   snd (timerCallback now force w)
   = Some {| opId := S (globalOperationCounter w); cycleNow := now;
             phase := AwaitProvider |}
   /\ globalOperationCounter (fst (timerCallback now force w))
      = S (globalOperationCounter w)
   /\ timers (fst (timerCallback now force w)) = timers w)
  /\ (gatesOpen now force w = false ->
      snd (timerCallback now force w) = None
      /\ globalOperationCounter (fst (timerCallback now force w))
         = globalOperationCounter w
      /\ timers (fst (timerCallback now force w)) = timers w).
Proof.
  unfold gatesOpen, timerCallback.
  destruct (walletConnected (walletRef (hook w))); cbn [negb andb];
    [ | split; [ discriminate | now repeat split ] ].
  destruct (fetchInProgressRef (hook w)); cbn [negb andb];
    [ split; [ discriminate | now repeat split ] | ].
  destruct force; cbn [negb andb orb].
  - split; [ now repeat split | discriminate ].
  - rewrite Z.leb_antisym.
    destruct (now - lastFetchTimeRef (hook w) <? REFETCH_COOLDOWN_MS);
      cbn [negb];
      split; try discriminate; now repeat split.
Qed.

End Debounce.

Section DebounceClaim.

Import UseExpeditions.

(** C9, as stated, fails: a burst can end with no read cycle at all.  One
    plain trigger one second after the last start: its run fires after
    the delay and stops at the cooldown.  Three triggers within 200 ms,
    the last one plain: the same. *)
Lemma burst_without_read_cycle :
  let s0 := {| world := settledWorld sampleWallet 10000 [] [];
               inflight := [] |} in
  let s1 := run [] [ (11000, Trigger false); (11300, TimerFires 0%nat) ] s0 in
  let s3 := run [] [ (11000, Trigger true); (11100, Trigger true);
                     (11200, Trigger false); (11300, TimerFires 0%nat);
                     (11400, TimerFires 1%nat); (11500, TimerFires 2%nat) ]
                s0 in
  inflight s1 = [] /\ timers (world s1) = []
  /\ globalOperationCounter (world s1) = globalOperationCounter (world s0)
  /\ inflight s3 = [] /\ timers (world s3) = []
  /\ globalOperationCounter (world s3) = globalOperationCounter (world s0).
Proof. cbn. repeat split. Qed.

(** C9, amended.  Start with no debounced run pending besides the one in
    [debouncedFetchRef].  A trigger at [t1], followed within less than
    the debounce window only by further triggers and by attempts of the
    runtime to run timers (so no read cycle ends, no clean-up runs and no
    wallet change arrives meanwhile), leaves exactly one run pending: the
    one of the last trigger, due [FETCH_DEBOUNCE_MS] after it and
    carrying its [force] flag; no cycle has started meanwhile.  Every
    other handle is dead.  When the pending run fires it starts one read
    cycle if it finds a wallet, nothing in flight and either [force] or
    the cooldown elapsed, and none otherwise. *)
Theorem debounce_burst_runs_once :
  forall (bound : list Z) (s : System) (t1 : Z) (f1 : bool)
         (es : list (Z * Event)),
    tidy (world s) ->
    Forall (fun te => burstEvent (snd te) = true
                      /\ t1 <= fst te < t1 + FETCH_DEBOUNCE_MS) es ->
    let s1 := run bound ((t1, Trigger f1) :: es) s in
    let id := (nextTimerId (world s) + countTriggers es)%nat in
    let tlast := fst (lastTrigger t1 f1 es) in
    let flast := snd (lastTrigger t1 f1 es) in
    timers (world s1)
    = [{| timer_id := id; timer_due := tlast + FETCH_DEBOUNCE_MS;
          timer_force := flast |}]
    /\ inflight s1 = inflight s
    /\ globalOperationCounter (world s1) = globalOperationCounter (world s)
    /\ (forall (id' : nat) (now : Z),
           id' <> id \/ now < tlast + FETCH_DEBOUNCE_MS ->
           step bound now (TimerFires id') s1 = s1)
    /\ (forall now : Z,
           tlast + FETCH_DEBOUNCE_MS <= now ->
           let s2 := step bound now (TimerFires id) s1 in
           timers (world s2) = []
           /\ if gatesOpen now flast (world s)
              then inflight s2
                   = inflight s
                     ++ [{| opId := S (globalOperationCounter (world s));
                            cycleNow := now; phase := AwaitProvider |}]
                   /\ globalOperationCounter (world s2)
                      = S (globalOperationCounter (world s))
              else inflight s2 = inflight s
                   /\ globalOperationCounter (world s2)
                      = globalOperationCounter (world s)).
Proof.
  intros bound s t1 f1 es Htidy Hes s1 id tlast flast.
  assert (Hs1 : s1 = {| world := burstWorld (world s) id tlast flast;
                        inflight := inflight s |}).
  { subst s1 id tlast flast. cbn [run step].
    rewrite (fetchStatuses_tidy (world s) t1 f1 Htidy).
    apply (burst_rest bound (world s) (inflight s) t1 es Hes); lia. }
  rewrite Hs1. split; [ reflexivity | ].
  split; [ reflexivity | ]. split; [ reflexivity | ]. split.
  - intros id' now H. now apply timer_not_due.
  - intros now Hdue s2. subst s2. cbn [step world timers burstWorld find
                                           timer_id timer_due timer_force].
    rewrite Nat.eqb_refl. cbn [timer_due timer_force].
    apply Z.leb_le in Hdue. rewrite Hdue.
    cbn [clearTimeout filter timer_id]. rewrite Nat.eqb_refl. cbn [negb].
    match goal with
    | |- context [timerCallback now flast ?w0] =>
        pose proof (timerCallback_gates now flast w0) as [Hopen Hshut];
        change (gatesOpen now flast w0) with (gatesOpen now flast (world s))
          in Hopen, Hshut;
        destruct (timerCallback now flast w0) as [w1 oc]
    end.
    cbn [fst snd] in Hopen, Hshut.
    destruct (gatesOpen now flast (world s)).
    + destruct (Hopen eq_refl) as [Hoc [Hcnt Htm]]. subst oc.
      cbn [world inflight started]. now rewrite Htm, Hcnt.
    + destruct (Hshut eq_refl) as [Hoc [Hcnt Htm]]. subst oc.
      cbn [world inflight started]. rewrite Htm, Hcnt, app_nil_r.
      now repeat split.
Qed.

Lemma debounce_burst_runs_once_witness :
  let s0 := {| world := settledWorld sampleWallet 10000 [] [];
               inflight := [] |} in
  let es := [ (11100, Trigger false); (11150, TimerFires 0%nat);
              (11200, Trigger true) ] in
  let s1 := run [] ((11000, Trigger true) :: es) s0 in
  timers (world s1)
  = [{| timer_id := 2; timer_due := 11500; timer_force := true |}]
  /\ inflight s1 = []
  /\ inflight (step [] 11500 (TimerFires 2%nat) s1)
     = [{| opId := 2; cycleNow := 11500; phase := AwaitProvider |}].
Proof.
  intros s0 es s1.
  assert (Htidy : tidy (world s0)) by (intros tm []).
  assert (Hes : Forall (fun te => burstEvent (snd te) = true
                                  /\ 11000 <= fst te
                                     < 11000 + FETCH_DEBOUNCE_MS) es).
  { repeat constructor; cbn; try discriminate; reflexivity. }
  destruct (debounce_burst_runs_once [] s0 11000 true es Htidy Hes)
    as [Htimers [Hin [_ [_ Hfire]]]].
  split; [ exact Htimers | ]. split; [ exact Hin | ].
  destruct (Hfire 11500) as [_ Hstart]; [ cbn; discriminate | ].
  exact (proj1 Hstart).
Defined.

(** Why the burst has to start with nothing pending outside
    [debouncedFetchRef], and why no cycle may end within it: a cycle that
    ends clears the reference even when it holds the handle of a newer
    run.  Cycle 1 ends between two forced triggers 200 ms apart; the
    second trigger no longer cancels the run of the first, and both runs
    start a cycle. *)
Remark completion_orphans_pending_run :
  let s0 := {| world := runningWorld;
               inflight := [cycleAt 1 20000000 AwaitProvider] |} in
  let burst := [ (20000100, Trigger true);
                 (20000200, Settles 1 (RProvider (Rejected "rpc down")));
                 (20000300, Trigger true) ] in
  let later := [ (20000400, TimerFires 0%nat);
                 (20000450, Settles 2 (RProvider (Rejected "rpc down")));
                 (20000600, TimerFires 1%nat) ] in
  map timer_id (timers (world (run [] burst s0))) = [0%nat; 1%nat]
  /\ globalOperationCounter (world (run [] (burst ++ later) s0)) = 3%nat.
Proof. cbn. split; reflexivity. Qed.

End DebounceClaim.

(** ** Facts about the sequential loop *)

Section LoopFacts.

Import UseExpeditions.

Variable bound : list Z.

Lemma finish_hook_ext (c : Cycle) (x : Exit) (w1 w2 : World) :
  hook w1 = hook w2 ->
  globalOperationCounter w1 = globalOperationCounter w2 ->
  hook (finish c x w1) = hook (finish c x w2).
Proof.
  intros Hh Hc. unfold finish. rewrite Hc.
  destruct x as [miners sts | e | ];
    destruct (Nat.eqb (opId c) (globalOperationCounter w2));
    try destruct miners; cbn; now rewrite Hh.
Qed.

Lemma throws_false (x : Z) :
  Z.abs x <= MAX_TIME_VALUE -> toISOString_throws x = false.
Proof. intros H. unfold toISOString_throws. now apply Z.ltb_ge. Qed.

(** With both dates in range the loop body yields a status, for the miner
    it was run for. *)
Lemma processMiner_some (op : nat) (m cd nowSecs : Z)
    (re : outcome ExpeditionData) (rm : outcome MealInfo) :
  datesInRange cd rm ->
  exists s, fst (processMiner op m cd nowSecs re rm) = Some s
            /\ minerId s = m.
Proof.
  intros [H1 H2]. unfold processMiner.
  destruct (readExpedition op m re) as [ev l1].
  destruct rm as [ mi | e ]; cbn [readMeal]; unfold buildStatus;
    cbn [mv_mealTimestamp mv_fed mv_mealId];
    rewrite (throws_false _ H1), (throws_false _ H2), andb_false_r;
    cbn [fst]; eexists; split; reflexivity.
Qed.

Lemma processMiner_rejected (op : nat) (m cd nowSecs : Z) (e1 e2 : string) :
  Z.abs (cd * 1000) <= MAX_TIME_VALUE ->
  fst (processMiner op m cd nowSecs (Rejected e1) (Rejected e2))
  = Some (defaultStatus m cd).
Proof.
  intros H. unfold processMiner. cbn [readExpedition readMeal].
  unfold buildStatus. cbn [mv_mealTimestamp mv_fed mv_mealId isOnExpedition].
  rewrite !Z.add_0_l, !(throws_false _ H). reflexivity.
Qed.

Lemma collectStatuses_ids (op : nat) (cd nowSecs : Z) (ms : list Z) :
  forall rs : list (outcome ExpeditionData * outcome MealInfo),
    List.length rs = List.length ms ->
    Forall (datesInRange cd) (map snd rs) ->
    map minerId (collectStatuses op cd nowSecs ms rs) = ms.
Proof.
  induction ms as [ | m ms IH ]; intros [ | [re rm] rs ] Hlen Hok;
    try discriminate; [ reflexivity | ].
  cbn [map snd] in Hok. inversion Hok as [ | ? ? Hrm Hrest ]; subst.
  cbn [collectStatuses].
  destruct (processMiner_some op m cd nowSecs re rm Hrm) as [s [Hs Hid]].
  rewrite Hs. cbn [map]. rewrite Hid. f_equal.
  apply IH; [ now injection Hlen | exact Hrest ].
Qed.

Lemma collectStatuses_in (op : nat) (cd nowSecs : Z) (ms : list Z) :
  forall (rs : list (outcome ExpeditionData * outcome MealInfo))
         (m : Z) (re : outcome ExpeditionData) (rm : outcome MealInfo)
         (s : ExpeditionStatus),
    In (m, (re, rm)) (combine ms rs) ->
    fst (processMiner op m cd nowSecs re rm) = Some s ->
    In s (collectStatuses op cd nowSecs ms rs).
Proof.
  induction ms as [ | m0 ms IH ]; intros [ | [re0 rm0] rs ] m re rm s Hin Hs;
    try contradiction.
  cbn [combine] in Hin. cbn [collectStatuses].
  destruct Hin as [ Heq | Hin ].
  - injection Heq as -> -> ->. rewrite Hs. now left.
  - specialize (IH rs m re rm s Hin Hs).
    destruct (fst (processMiner op m0 cd nowSecs re0 rm0));
      [ now right | exact IH ].
Qed.

(** The loop left alone: it reads every miner in turn, each with its own
    two replies, and leaves the [try] with the statuses collected. *)
Lemma feed_loop (cd : Z) (all : list Z) :
  forall (ms : list Z) (rs : list (outcome ExpeditionData * outcome MealInfo))
         (c : Cycle) (acc : list ExpeditionStatus) (w : World),
    List.length rs = List.length ms ->
    opId c = globalOperationCounter w ->
    exists w',
      continueWith bound (loopReplies rs) (loopHead c cd all ms acc w)
      = (w', None)
      /\ hook w'
         = hook (finish c
                   (Completed all
                      (acc ++ collectStatuses (opId c) cd (cycleNow c / 1000)
                                              ms rs)) w)
      /\ globalOperationCounter w' = globalOperationCounter w.
Proof.
  induction ms as [ | m ms IH ]; intros [ | [re rm] rs ] c acc w Hlen Hcur;
    try discriminate.
  - cbn [loopHead loopReplies flat_map continueWith collectStatuses].
    rewrite app_nil_r. eexists. split; [ reflexivity | ].
    split; [ reflexivity | apply finish_counter ].
  - injection Hlen as Hlen.
    cbn [loopHead]. rewrite (proj2 (Nat.eqb_eq _ _) Hcur).
    cbn [loopReplies flat_map app continueWith fst snd feed].
    unfold resume at 1. cbn [phase setPhase ls_minerId opId].
    destruct (readExpedition (opId c) m re) as [ev l1] eqn:E1.
    cbn [feed]. unfold resume at 1.
    cbn [phase setPhase ls_minerId ls_mealCooldownSecs ls_stakedMiners
         ls_pending ls_newStatuses opId cycleNow].
    destruct (readMeal (opId c) m cd (cycleNow c / 1000) rm)
      as [mv l2] eqn:E2.
    destruct (buildStatus (opId c) m cd ev mv) as [st l3] eqn:E3.
    match goal with
    | |- context [loopHead ?c2 cd all ms ?acc2 ?w2] =>
        destruct (IH rs c2 acc2 w2 Hlen) as [w' [Hrun [Hhook Hcnt]]];
          [ cbn; exact Hcur | ];
        exists w'; split; [ exact Hrun | ];
        split; [ | rewrite Hcnt; reflexivity ]
    end.
    rewrite Hhook. cbn [opId cycleNow setPhase collectStatuses].
    unfold processMiner. rewrite E1, E2, E3. cbn [fst].
    rewrite finish_setPhase, finish_setPhase.
    destruct st as [ s | ].
    + rewrite <- app_assoc. cbn [app].
      apply finish_hook_ext; reflexivity.
    + apply finish_hook_ext; reflexivity.
Qed.

(** The whole of a current cycle from the staked miner read on. *)
Lemma feed_from_miners (w : World) (c : Cycle) (cd : Z)
    (r : outcome (list Z))
    (rs : list (outcome ExpeditionData * outcome MealInfo)) :
  phase c = AwaitStakedMiners cd ->
  opId c = globalOperationCounter w ->
  let ms := match r with Resolved l => l | Rejected _ => bound end in
  List.length rs = List.length ms ->
  let res := feed bound (RStakedMiners r :: loopReplies rs) w c in
  snd res = None
  /\ statuses (hook (fst res))
     = collectStatuses (opId c) cd (cycleNow c / 1000) ms rs
  /\ initialized (hook (fst res)) = true
  /\ lastValidStakedMiners (hook (fst res))
     = match ms with [] => lastValidStakedMiners (hook w) | _ => ms end.
Proof.
  intros Hph Hcur ms Hlen res. subst res.
  change (feed bound (RStakedMiners r :: loopReplies rs) w c)
    with (continueWith bound (loopReplies rs)
            (resume bound w c (RStakedMiners r))).
  unfold resume. rewrite Hph.
  destruct r as [ l | e ]; cbn [ms] in *.
  - match goal with
    | |- context [loopHead c cd l l [] ?w1] =>
        destruct (feed_loop cd l l rs c [] w1 Hlen) as [w' [Hrun [Hhook _]]];
          [ destruct l; exact Hcur | ]
    end.
    rewrite Hrun. cbn [fst snd]. rewrite Hhook.
    unfold finish.
    replace (Nat.eqb (opId c) _) with true
      by (symmetry; destruct l; cbn; rewrite Hcur; apply Nat.eqb_refl).
    destruct l as [ | m l' ]; cbn; now repeat split.
  - match goal with
    | |- context [loopHead c cd bound bound [] ?w1] =>
        destruct (feed_loop cd bound bound rs c [] w1 Hlen)
          as [w' [Hrun [Hhook _]]]; [ exact Hcur | ]
    end.
    rewrite Hrun. cbn [fst snd]. rewrite Hhook.
    unfold finish.
    replace (Nat.eqb (opId c) _) with true
      by (symmetry; cbn; rewrite Hcur; apply Nat.eqb_refl).
    destruct bound as [ | m l' ]; cbn; now repeat split.
Qed.

(** How such a cycle leaves the cells besides the statuses: no error is
    recorded, and the cycle is over. *)
Lemma feed_from_miners_end (w : World) (c : Cycle) (cd : Z)
    (r : outcome (list Z))
    (rs : list (outcome ExpeditionData * outcome MealInfo)) :
  phase c = AwaitStakedMiners cd ->
  opId c = globalOperationCounter w ->
  let ms := match r with Resolved l => l | Rejected _ => bound end in
  List.length rs = List.length ms ->
  let res := feed bound (RStakedMiners r :: loopReplies rs) w c in
  error (hook (fst res)) = error (hook w)
  /\ loading (hook (fst res)) = false
  /\ fetchInProgressRef (hook (fst res)) = false.
Proof.
  intros Hph Hcur ms Hlen res. subst res.
  change (feed bound (RStakedMiners r :: loopReplies rs) w c)
    with (continueWith bound (loopReplies rs)
            (resume bound w c (RStakedMiners r))).
  unfold resume. rewrite Hph.
  destruct r as [ l | e ]; cbn [ms] in *.
  - match goal with
    | |- context [loopHead c cd l l [] ?w1] =>
        destruct (feed_loop cd l l rs c [] w1 Hlen) as [w' [Hrun [Hhook _]]];
          [ destruct l; exact Hcur | ]
    end.
    rewrite Hrun. cbn [fst snd]. rewrite Hhook.
    unfold finish.
    replace (Nat.eqb (opId c) _) with true
      by (symmetry; destruct l; cbn; rewrite Hcur; apply Nat.eqb_refl).
    destruct l as [ | m l' ]; cbn; now repeat split.
  - match goal with
    | |- context [loopHead c cd bound bound [] ?w1] =>
        destruct (feed_loop cd bound bound rs c [] w1 Hlen)
          as [w' [Hrun [Hhook _]]]; [ exact Hcur | ]
    end.
    rewrite Hrun. cbn [fst snd]. rewrite Hhook.
    unfold finish.
    replace (Nat.eqb (opId c) _) with true
      by (symmetry; cbn; rewrite Hcur; apply Nat.eqb_refl).
    destruct bound as [ | m l' ]; cbn; now repeat split.
Qed.

Lemma finish_log (c : Cycle) (x : Exit) (w : World) (e : LogEvent) :
  In e (log w) -> In e (log (finish c x w)).
Proof.
  intros Hin. unfold finish.
  destruct x as [miners sts | err | ];
    destruct (Nat.eqb (opId c) (globalOperationCounter w));
    try destruct miners; cbn; try apply in_or_app; auto.
Qed.

Lemma loopHead_log (c : Cycle) (cd : Z) (all todo : list Z)
    (acc : list ExpeditionStatus) (w : World) (e : LogEvent) :
  In e (log w) -> In e (log (fst (loopHead c cd all todo acc w))).
Proof.
  intros Hin. unfold loopHead. destruct todo as [ | m rest ]; cbn [fst].
  - now apply finish_log.
  - destruct (Nat.eqb (opId c) (globalOperationCounter w)); cbn [fst].
    + exact Hin.
    + apply finish_log. cbn. apply in_or_app. now left.
Qed.

End LoopFacts.

(** ** A failed read of the staked miner list *)

Section FailedSetRead.

Import UseExpeditions.

(** C1, as stated, fails: after a read that returned miners 1 and 2, a
    read that fails makes [getStakingData] return no miner, a count of 0
    and rewards and rate "0". *)
Lemma failed_read_returns_zeroed_snapshot :
  let svc0 := {| StakingSyncService.svc_lastSyncTimestamp := 0 |} in
  let prior :=
    StakingSyncService.getStakingData sampleFormatUnits (fun z => z)
      svc0 goodChain "0xA11CE" 1000 in
  let next :=
    StakingSyncService.getStakingData sampleFormatUnits (fun z => z)
      (snd prior) failingChain "0xA11CE" 40000 in
  StakingSyncService.stakedMiners (fst prior) = [1; 2]
  /\ StakingSyncService.pendingRewards (fst prior)
     = "0.000000000000000005"%string
  /\ StakingSyncService.stakedMiners (fst next) = []
  /\ StakingSyncService.stakedMinerCount (fst next) = 0
  /\ StakingSyncService.pendingRewards (fst next) = "0"%string
  /\ StakingSyncService.gemsPerSecond (fst next) = "0"%string
  /\ fst next <> fst prior.
Proof. vm_compute. repeat split. discriminate. Qed.

(** C1, amended.  When one of its reads fails, [getStakingData] returns
    the fixed fallback record (no miner, count 0, rewards and rate "0",
    stamped with the current time) and keeps its own last sync time.  When
    the staked miner read of a [fetchStatuses] cycle fails, the failure is
    caught inside the cycle: that segment writes neither
    [lastValidStakedMiners] nor [error], and a cycle that is still current
    and left alone runs to its end with no error recorded, [initialized]
    set, [loading] false and the in-flight flag released.  In the hook as
    it is mounted the whole cycle leaves [lastValidStakedMiners] as it
    was.  Nothing is marked stale. *)
Theorem failed_set_read_falls_back :
  (forall (formatUnits : Z -> Z -> string) (NumberOfBigInt : Z -> Z)
          (svc : StakingSyncService.Service)
          (chain : StakingSyncService.Chain) (walletAddress : string)
          (now : Z),
      is_rejected (StakingSyncService.rpc_getStakedMiners chain) = true
      \/ is_rejected (StakingSyncService.rpc_getPendingRewards chain) = true
      \/ is_rejected (StakingSyncService.rpc_GEMS_PER_SECOND chain) = true ->
      StakingSyncService.getStakingData formatUnits NumberOfBigInt svc chain
                                        walletAddress now
      = (StakingSyncService.fallbackData walletAddress now, svc))
  /\ (forall (bound : list Z) (w : World) (c : Cycle) (cd : Z) (e : string),
         phase c = AwaitStakedMiners cd ->
         let w' := fst (resume bound w c (RStakedMiners (Rejected e))) in
         lastValidStakedMiners (hook w') = lastValidStakedMiners (hook w)
         /\ error (hook w') = error (hook w))
  /\ (forall (bound : list Z) (w : World) (c : Cycle) (cd : Z) (e : string)
             (rs : list (outcome ExpeditionData * outcome MealInfo)),
         phase c = AwaitStakedMiners cd ->
         opId c = globalOperationCounter w ->
         List.length rs = List.length bound ->
         let res :=
           feed bound (RStakedMiners (Rejected e) :: loopReplies rs) w c in
         snd res = None
         /\ error (hook (fst res)) = error (hook w)
         /\ initialized (hook (fst res)) = true
         /\ loading (hook (fst res)) = false
         /\ fetchInProgressRef (hook (fst res)) = false)
  /\ (forall (w : World) (c : Cycle) (cd : Z) (e : string),
         phase c = AwaitStakedMiners cd ->
         opId c = globalOperationCounter w ->
         let res := feed mountBinding [RStakedMiners (Rejected e)] w c in
         lastValidStakedMiners (hook (fst res))
         = lastValidStakedMiners (hook w)).
Proof.
  split; [ | split; [ | split ] ].
  - intros formatUnits NumberOfBigInt svc chain walletAddress now H.
    unfold StakingSyncService.getStakingData.
    destruct (StakingSyncService.rpc_getStakedMiners chain);
      [ | reflexivity ].
    destruct (StakingSyncService.rpc_getPendingRewards chain);
      [ | reflexivity ].
    destruct (StakingSyncService.rpc_GEMS_PER_SECOND chain);
      [ | reflexivity ].
    cbn in H. destruct H as [ H | [ H | H ] ]; discriminate.
  - intros bound w c cd e Hph w'. subst w'. unfold resume. rewrite Hph.
    unfold loopHead, finish. cbn [globalOperationCounter logDebug].
    destruct bound as [ | m rest ];
      destruct (Nat.eqb (opId c) (globalOperationCounter w));
      split; reflexivity.
  - intros bound w c cd e rs Hph Hcur Hlen res.
    destruct (feed_from_miners bound w c cd (Rejected e) rs Hph Hcur Hlen)
      as [Hend [_ [Hinit _]]].
    destruct (feed_from_miners_end bound w c cd (Rejected e) rs Hph Hcur
                                   Hlen) as [Herr [Hload Hflag]].
    fold res in Hend, Hinit, Herr, Hload, Hflag.
    split; [ exact Hend | ]. split; [ exact Herr | ].
    split; [ exact Hinit | ]. split; [ exact Hload | exact Hflag ].
  - intros w c cd e Hph Hcur res.
    destruct (feed_from_miners mountBinding w c cd (Rejected e) [] Hph Hcur
                               eq_refl) as [_ [_ [_ Hlast]]].
    exact Hlast.
Qed.

Lemma failed_set_read_falls_back_witness :
  let c := cycleAt 1 20000000 (AwaitStakedMiners 21600) in
  let res :=
    feed mountBinding [RStakedMiners (Rejected "network error")]
         runningWorld c in
  StakingSyncService.getStakingData sampleFormatUnits (fun z => z)
    {| StakingSyncService.svc_lastSyncTimestamp := 1000 |}
    failingChain "0xA11CE" 40000
  = (StakingSyncService.fallbackData "0xA11CE" 40000,
     {| StakingSyncService.svc_lastSyncTimestamp := 1000 |})
  /\ lastValidStakedMiners
       (hook (fst (resume mountBinding runningWorld c
                          (RStakedMiners (Rejected "network error")))))
     = [7]
  /\ snd res = None
  /\ error (hook (fst res)) = None
  /\ loading (hook (fst res)) = false
  /\ lastValidStakedMiners (hook (fst res)) = [7].
Proof.
  intros c res.
  destruct failed_set_read_falls_back as [Hsvc [Hseg [Hrun Hkeep]]].
  split; [ | split; [ | split; [ | split; [ | split ] ] ] ].
  - apply Hsvc. left. reflexivity.
  - apply (Hseg mountBinding runningWorld c 21600 "network error"%string).
    reflexivity.
  - apply (Hrun mountBinding runningWorld c 21600 "network error"%string []);
      reflexivity.
  - apply (Hrun mountBinding runningWorld c 21600 "network error"%string []);
      reflexivity.
  - apply (Hrun mountBinding runningWorld c 21600 "network error"%string []);
      reflexivity.
  - apply (Hkeep runningWorld c 21600 "network error"%string); reflexivity.
Defined.

(** The callback is created once, with an empty dependency list, so the
    list it is bound to is the one of the first render.  With that
    binding a failed read in a current cycle commits no status at all,
    whatever [lastValidStakedMiners] holds by then. *)
Remark failed_read_with_mount_binding :
  forall (w : World) (c : Cycle) (cd : Z) (e : string),
    phase c = AwaitStakedMiners cd ->
    opId c = globalOperationCounter w ->
    let res := feed mountBinding [RStakedMiners (Rejected e)] w c in
    snd res = None /\ statuses (hook (fst res)) = [].
Proof.
  intros w c cd e Hph Hcur res.
  destruct (feed_from_miners mountBinding w c cd (Rejected e) [] Hph Hcur
                             eq_refl) as [Hend [Hsts _]].
  split; [ exact Hend | exact Hsts ].
Qed.

(** The two forced triggers of a mount with a connector leave one run. *)
Example mount_schedules_one_run :
  timers (world (mount 1000 0 sampleWallet))
  = [{| timer_id := 1; timer_due := 1300; timer_force := true |}].
Proof. reflexivity. Qed.

End FailedSetRead.

(** ** Failures of single miners *)

Section MinerFailures.

Import UseExpeditions.

(** C4, as stated, fails: a miner whose reads fail does not keep its last
    known status.  Miner 7 was fed at second 1000 in the statuses of the
    cycle before; in a cycle in which both of its reads are rejected it is
    committed with the defaults: meal timestamp 0, not fed, not
    eligible. *)
Lemma failed_miner_gets_defaults :
  let c := cycleAt 1 20000000 (AwaitStakedMiners 21600) in
  let res :=
    feed [7] (RStakedMiners (Resolved [7])
              :: loopReplies [(Rejected "timeout", Rejected "timeout")])
         runningWorld c in
  statuses (hook runningWorld) = [fedStatusOf 7 1000 21600]
  /\ snd res = None
  /\ statuses (hook (fst res)) = [defaultStatus 7 21600]
  /\ timestamp (fedStatus (fedStatusOf 7 1000 21600)) = 1000
  /\ timestamp (fedStatus (defaultStatus 7 21600)) = 0
  /\ statuses (hook (fst res)) <> statuses (hook runningWorld).
Proof. cbn. repeat split. discriminate. Qed.

(** C4, amended.  A cycle that stays current reads every miner of the
    list in turn, whatever the reads of the others did, and commits for
    each miner the status computed from its own two replies.  A miner
    both of whose reads failed is committed with the default fields (no
    expedition, meal timestamp 0, not fed, not eligible).  As long as no
    date formatting throws, the committed statuses are those of exactly
    the miners of the list read, in order. *)
Theorem loop_isolates_miner_failures :
  forall (bound : list Z) (w : World) (c : Cycle) (cd : Z) (ms : list Z)
         (rs : list (outcome ExpeditionData * outcome MealInfo)),
    phase c = AwaitStakedMiners cd ->
    opId c = globalOperationCounter w ->
    List.length rs = List.length ms ->
    let res := feed bound (RStakedMiners (Resolved ms) :: loopReplies rs) w c in
    snd res = None
    /\ statuses (hook (fst res))
       = collectStatuses (opId c) cd (cycleNow c / 1000) ms rs
    /\ (forall (m : Z) (e1 e2 : string),
           In (m, (Rejected e1, Rejected e2)) (combine ms rs) ->
           Z.abs (cd * 1000) <= MAX_TIME_VALUE ->
           In (defaultStatus m cd) (statuses (hook (fst res))))
    /\ (Forall (datesInRange cd) (map snd rs) ->
        map minerId (statuses (hook (fst res))) = ms).
Proof.
  intros bound w c cd ms rs Hph Hcur Hlen res.
  destruct (feed_from_miners bound w c cd (Resolved ms) rs Hph Hcur Hlen)
    as [Hend [Hsts _]].
  fold res in Hend, Hsts.
  split; [ exact Hend | ]. split; [ exact Hsts | ]. split.
  - intros m e1 e2 Hin Hcd. rewrite Hsts.
    apply (collectStatuses_in _ _ _ ms rs m (Rejected e1) (Rejected e2));
      [ exact Hin | now apply processMiner_rejected ].
  - intros Hok. rewrite Hsts. now apply collectStatuses_ids.
Qed.

Lemma loop_isolates_miner_failures_witness :
  let c := cycleAt 1 20000000 (AwaitStakedMiners 21600) in
  let rs := [ (Rejected "timeout", Rejected "timeout");
              (Resolved {| exp_startTime := 0; exp_endTime := 0;
                           exp_completed := false |},
               Resolved {| meal_mealId := 3; meal_timestamp := 1000 |}) ] in
  let res :=
    feed [] (RStakedMiners (Resolved [7; 8]) :: loopReplies rs)
         runningWorld c in
  snd res = None
  /\ In (defaultStatus 7 21600) (statuses (hook (fst res)))
  /\ map minerId (statuses (hook (fst res))) = [7; 8].
Proof.
  intros c rs res.
  destruct (loop_isolates_miner_failures [] runningWorld c 21600 [7; 8] rs)
    as [Hend [_ [Hdef Hids]]]; try reflexivity.
  split; [ exact Hend | ]. split.
  - apply (Hdef 7 "timeout"%string "timeout"%string).
    + left. reflexivity.
    + cbn. discriminate.
  - apply Hids. repeat constructor; cbn; discriminate.
Defined.

End MinerFailures.

(** ** The eligibility mismatch *)

Section Mismatch.

Import UseExpeditions.

(** C6.  For a miner whose meal status was read, the contract predicate
    is "meal timestamp > 0" and the display predicate is "meal timestamp
    + cooldown > now" (in seconds, the time the cycle started); the status
    of the miner carries the first one.  Whenever the two disagree, the
    segment that receives the meal status leaves in the log a record with
    the miner id and both values, and records with the meal timestamp,
    the expiry time and the current time.  When they agree the read logs
    no mismatch. *)
Theorem eligibility_mismatch_is_logged :
  forall (bound : list Z) (w : World) (c : Cycle) (ls : LoopState)
         (ev : ExpVals) (mi : MealInfo),
    phase c = AwaitMeal ls ev ->
    let miner := ls_minerId ls in
    let ts := meal_timestamp mi in
    let cd := ls_mealCooldownSecs ls in
    let nowSecs := cycleNow c / 1000 in
    let chainExact := mealEverConsumed ts in
    let display := mealActiveByExpiry ts cd nowSecs in
    let lg := log (fst (resume bound w c (RMeal (Resolved mi)))) in
    (chainExact = true <-> 0 < ts)
    /\ (display = true <-> nowSecs < ts + cd)
    /\ (forall (re : outcome ExpeditionData) (s : ExpeditionStatus),
           fst (processMiner (opId c) miner cd nowSecs re (Resolved mi))
           = Some s ->
           isActive (fedStatus s) = chainExact
           /\ timestamp (fedStatus s) = ts)
    /\ (chainExact <> display ->
        In (LogMismatch (opId c) miner chainExact display) lg
        /\ In (LogMismatchMealTimestamp (opId c) ts) lg
        /\ In (LogMismatchExpiry (opId c) (ts + cd)) lg
        /\ In (LogMismatchCurrentTime (opId c) nowSecs) lg
        /\ In (LogMismatchUI (opId c) display) lg
        /\ In (LogMismatchContract (opId c) chainExact) lg)
    /\ (chainExact = display ->
        forall a b : bool,
          ~ In (LogMismatch (opId c) miner a b)
               (snd (readMeal (opId c) miner cd nowSecs (Resolved mi)))).
Proof.
  intros bound w c ls ev mi Hph miner ts cd nowSecs chainExact display lg.
  split; [ apply Z.ltb_lt | ]. split; [ apply Z.ltb_lt | ]. split; [ | split ].
  - intros re s. unfold processMiner.
    destruct (readExpedition (opId c) miner re) as [ev' l1].
    cbn [readMeal]. unfold buildStatus.
    destruct (toISOString_throws _); [ discriminate | ].
    destruct (negb _ && toISOString_throws _); [ discriminate | ].
    cbn [fst]. intros [= <-]. now split.
  - intros Hdiff.
    assert (Hrep : forall e,
               In e (mismatchReport (opId c) miner ts cd nowSecs) ->
               In e lg).
    { intros e He. subst lg. unfold resume. rewrite Hph. cbn [readMeal].
      fold miner ts cd nowSecs. fold chainExact. fold display.
      destruct (Bool.eqb chainExact display) eqn:E;
        [ apply Bool.eqb_prop in E; contradiction | ].
      destruct (buildStatus _ _ _ _ _) as [st l3].
      apply loopHead_log. cbn [log logDebug].
      apply in_or_app. right. apply in_or_app. left.
      apply in_or_app. now left. }
    unfold mismatchReport in Hrep. fold chainExact display in Hrep.
    repeat split; apply Hrep; cbn; auto 10.
  - intros Hsame a b. cbn [readMeal snd].
    fold ts chainExact display. rewrite Hsame, Bool.eqb_reflx.
    cbn [app]. destruct (_ && _); cbn; intuition discriminate.
Qed.

Lemma eligibility_mismatch_is_logged_witness :
  let ls := {| ls_mealCooldownSecs := 21600; ls_stakedMiners := [7];
               ls_minerId := 7; ls_pending := []; ls_newStatuses := [] |} in
  let ev := {| startTimeValue := 0; endTimeValue := 0;
               completedValue := false; isOnExpedition := false |} in
  let c := cycleAt 1 20000000000 (AwaitMeal ls ev) in
  let mi := {| meal_mealId := 3; meal_timestamp := 1000 |} in
  let lg := log (fst (resume [] runningWorld c (RMeal (Resolved mi)))) in
  mealEverConsumed 1000 = true
  /\ mealActiveByExpiry 1000 21600 20000000 = false
  /\ In (LogMismatch 1 7 true false) lg
  /\ In (LogMismatchMealTimestamp 1 1000) lg
  /\ In (LogMismatchExpiry 1 22600) lg
  /\ In (LogMismatchCurrentTime 1 20000000) lg.
Proof.
  intros ls ev c mi lg.
  destruct (eligibility_mismatch_is_logged [] runningWorld c ls ev mi eq_refl)
    as [_ [_ [_ [Hlog _]]]].
  destruct Hlog as [H1 [H2 [H3 [H4 _]]]]; [ cbn; discriminate | ].
  repeat split; assumption.
Defined.

End Mismatch.

(** ** An empty answer and an error *)

Section EmptyAnswer.

Import UseExpeditions.

(** C8, as stated, fails: [fetchStakedMiners] of useMealStatuses does not
    trust a successful read that returns no miner.  With miners 1 and 2
    cached, such a read returns the cached list and writes nothing. *)
Lemma empty_answer_is_not_committed :
  let cl := {| UseMealStatuses.cl_connector := true;
               UseMealStatuses.cl_address := Some "0xA11CE"%string;
               UseMealStatuses.cl_lastValidStakedMiners := [1; 2] |} in
  let env := {| UseMealStatuses.env_stakingAddress := Resolved "0x57A4E"%string;
                UseMealStatuses.env_getStakedMiners := Resolved [] |} in
  let st := {| UseMealStatuses.stakedMiners := [1; 2];
               UseMealStatuses.lastValidStakedMiners := [1; 2] |} in
  UseMealStatuses.fetchStakedMiners cl env st = ([1; 2], st)
  /\ UseMealStatuses.stakedMinerCount
       (snd (UseMealStatuses.fetchStakedMiners cl env st)) = 2%nat.
Proof. cbn. split; reflexivity. Qed.

(** C8, amended.  In useMealStatuses a successful read with no miner and
    a failed read both return the list the callback has cached and write
    nothing; only a read with at least one miner is stored.  In
    useExpeditions a successful read with no miner, in a cycle that is
    still current, ends the cycle with an empty [statuses] and
    [initialized] set, and leaves [lastValidStakedMiners] as it was. *)
Theorem empty_answer_and_error :
  (forall (cl : UseMealStatuses.Closure) (env : UseMealStatuses.Env)
          (st : UseMealStatuses.State),
      UseMealStatuses.env_getStakedMiners env = Resolved []
      \/ is_rejected (UseMealStatuses.env_getStakedMiners env) = true ->
      UseMealStatuses.fetchStakedMiners cl env st
      = (UseMealStatuses.cl_lastValidStakedMiners cl, st))
  /\ (forall (cl : UseMealStatuses.Closure) (env : UseMealStatuses.Env)
             (st : UseMealStatuses.State) (stakingAddress : string)
             (m : Z) (l : list Z),
         UseMealStatuses.cl_connector cl = true ->
         truthy (UseMealStatuses.cl_address cl) = true ->
         UseMealStatuses.env_stakingAddress env = Resolved stakingAddress ->
         truthy (Some stakingAddress) = true ->
         UseMealStatuses.env_getStakedMiners env = Resolved (m :: l) ->
         UseMealStatuses.fetchStakedMiners cl env st
         = (m :: l,
            {| UseMealStatuses.stakedMiners := m :: l;
               UseMealStatuses.lastValidStakedMiners := m :: l |}))
  /\ (forall (bound : list Z) (w : World) (c : Cycle) (cd : Z),
         phase c = AwaitStakedMiners cd ->
         opId c = globalOperationCounter w ->
         let res := resume bound w c (RStakedMiners (Resolved [])) in
         snd res = None
         /\ statuses (hook (fst res)) = []
         /\ initialized (hook (fst res)) = true
         /\ lastValidStakedMiners (hook (fst res))
            = lastValidStakedMiners (hook w)).
Proof.
  split; [ | split ].
  - intros cl env st H. unfold UseMealStatuses.fetchStakedMiners.
    destruct (negb _ || negb _); [ reflexivity | ].
    destruct (UseMealStatuses.env_stakingAddress env) as [ a | e ];
      [ | reflexivity ].
    destruct (negb (truthy (Some a))); [ reflexivity | ].
    destruct H as [ H | H ].
    + now rewrite H.
    + destruct (UseMealStatuses.env_getStakedMiners env);
        [ discriminate | reflexivity ].
  - intros cl env st stakingAddress m l Hc Ha Hs Hsa Hm.
    unfold UseMealStatuses.fetchStakedMiners.
    now rewrite Hc, Ha, Hs, Hsa, Hm.
  - intros bound w c cd Hph Hcur res. subst res.
    unfold resume. rewrite Hph. cbn [loopHead fst snd].
    unfold finish. cbn [globalOperationCounter logDebug].
    rewrite (proj2 (Nat.eqb_eq _ _) Hcur). cbn. now repeat split.
Qed.

Lemma empty_answer_and_error_witness :
  let cl := {| UseMealStatuses.cl_connector := true;
               UseMealStatuses.cl_address := Some "0xA11CE"%string;
               UseMealStatuses.cl_lastValidStakedMiners := [1; 2] |} in
  let st := {| UseMealStatuses.stakedMiners := [1; 2];
               UseMealStatuses.lastValidStakedMiners := [1; 2] |} in
  let env r := {| UseMealStatuses.env_stakingAddress :=
                    Resolved "0x57A4E"%string;
                  UseMealStatuses.env_getStakedMiners := r |} in
  let c := cycleAt 1 20000000 (AwaitStakedMiners 21600) in
  UseMealStatuses.fetchStakedMiners cl (env (Rejected "timeout")) st
  = ([1; 2], st)
  /\ UseMealStatuses.fetchStakedMiners cl (env (Resolved [3])) st
     = ([3], {| UseMealStatuses.stakedMiners := [3];
                UseMealStatuses.lastValidStakedMiners := [3] |})
  /\ statuses (hook (fst (resume [] runningWorld c
                                 (RStakedMiners (Resolved []))))) = []
  /\ lastValidStakedMiners
       (hook (fst (resume [] runningWorld c (RStakedMiners (Resolved [])))))
     = [7].
Proof.
  intros cl st env c.
  destruct empty_answer_and_error as [Hkeep [Hstore Hexp]].
  split; [ | split ].
  - apply (Hkeep cl (env (Rejected "timeout")) st). right. reflexivity.
  - apply (Hstore cl (env (Resolved [3])) st "0x57A4E"%string 3 []);
      reflexivity.
  - destruct (Hexp [] runningWorld c 21600) as [_ [Hsts [_ Hlast]]];
      try reflexivity.
    split; [ exact Hsts | exact Hlast ].
Defined.

End EmptyAnswer.

(** ** The staking snapshot *)

Section StakingSnapshot.

Import StakingSyncService.

Variable formatUnits : Z -> Z -> string.
Variable NumberOfBigInt : Z -> Z.

(** C10.  Every value returned by [getStakingData], on the success path
    and on the fallback path alike, reports as [stakedMinerCount] the
    length of the [stakedMiners] list it carries. *)
Theorem getStakingData_count_is_length :
  forall (svc : Service) (chain : Chain) (walletAddress : string) (now : Z),
    let d := fst (getStakingData formatUnits NumberOfBigInt svc chain
                                 walletAddress now) in
    stakedMinerCount d = Z.of_nat (List.length (stakedMiners d)).
Proof.
  intros svc chain walletAddress now.
  unfold getStakingData.
  destruct (rpc_getStakedMiners chain) as [miners | e]; [ | reflexivity ].
  destruct (rpc_getPendingRewards chain) as [rewards | e]; [ | reflexivity ].
  destruct (rpc_GEMS_PER_SECOND chain) as [rate | e]; [ | reflexivity ].
  cbn. now rewrite length_map.
Qed.

End StakingSnapshot.

(** ** The reward estimate *)

Section RewardEstimate.

Import StakingSyncService.
Set Warnings "-inexact-float".

(** C7.  With at least one miner the estimate is the base amount plus
    rate times miner count times the seconds elapsed since the base
    timestamp, in the arithmetic of the program; with base 100, rate
    0.01 and 5 miners it is 105 once 100 seconds (100000 ms) have
    elapsed; with no miner it is the base amount as given, whatever the
    two timestamps are. *)
Theorem estimateCurrentRewards_extrapolates :
  forall (Number : string -> float) (toString : float -> string),
    (forall (B r : string) (n T now : float),
        PrimFloat.eqb n 0 = false ->
        estimateCurrentRewards Number toString B r n T now
        = toString (Number B + Number r * n * ((now - T) / 1000))%float)
    /\ (forall (T now : float),
           Number "100"%string = 100%float ->
           Number "0.01"%string = 0.01%float ->
           (now - T)%float = 100000%float ->
           estimateCurrentRewards Number toString "100" "0.01" 5 T now
           = toString 105%float)
    /\ (forall (B r : string) (T now : float),
           estimateCurrentRewards Number toString B r 0 T now = B).
Proof.
  intros Number toString. split; [ | split ].
  - intros B r n T now Hn. unfold estimateCurrentRewards.
    now rewrite Hn.
  - intros T now HB Hr Hel. unfold estimateCurrentRewards.
    rewrite HB, Hr, Hel. reflexivity.
  - intros B r T now. reflexivity.
Qed.

Lemma estimateCurrentRewards_extrapolates_witness :
  estimateCurrentRewards sampleNumber sampleToString "100" "0.01" 5
                         1700000000000 1700000100000 = "105"%string
  /\ estimateCurrentRewards sampleNumber sampleToString "100" "0.01" 2
                            0 1000
     = sampleToString (100 + 0.01 * 2 * ((1000 - 0) / 1000))%float.
Proof.
  destruct (estimateCurrentRewards_extrapolates sampleNumber sampleToString)
    as [Hgen [H105 _]].
  split.
  - rewrite (H105 1700000000000%float 1700000100000%float);
      reflexivity.
  - rewrite (Hgen "100"%string "0.01"%string 2%float 0%float 1000%float);
      reflexivity.
Defined.

End RewardEstimate.

(** ** The aggregates on an empty set *)

Section Aggregates.

Import UseExpeditions.

(** C5, as stated, fails: the aggregates are booleans.  With no status
    both aggregates of useExpeditions answer [false], the answer they
    also give for one unfed miner, and the feeding hook answers [true]
    with no status at all. *)
Lemma empty_set_is_not_a_distinct_state :
  allMinersEligible [] = false
  /\ allMinersFed [] = false
  /\ allMinersEligible [] = allMinersEligible [unfedStatus 7]
  /\ allMinersFed [] = allMinersFed [unfedStatus 7]
  /\ UseFeedingStatus.statuses (UseFeedingStatus.useFeedingStatus 30000) = []
  /\ UseFeedingStatus.allMinersFed (UseFeedingStatus.useFeedingStatus 30000)
     = true.
Proof. repeat split. Qed.

(** C5, amended.  The two aggregates are [true] exactly when there is at
    least one status and every status is eligible (respectively fed): an
    empty set gives [false]; the feeding hook always gives [true]. *)
Theorem aggregates_on_empty_set :
  (forall l : list ExpeditionStatus,
      allMinersEligible l = true
      <-> l <> [] /\ Forall (fun s => eligibleForNewExpedition s = true) l)
  /\ (forall l : list ExpeditionStatus,
         allMinersFed l = true
         <-> l <> [] /\ Forall (fun s => isActive (fedStatus s) = true) l)
  /\ (forall i : Z,
         UseFeedingStatus.allMinersFed (UseFeedingStatus.useFeedingStatus i)
         = true).
Proof.
  split; [ | split ].
  - intros l. destruct l as [ | s l ].
    + split; [ discriminate | intros [Hne _]; now elim Hne ].
    + unfold allMinersEligible. rewrite forallb_forall, Forall_forall.
      split; [ intros H; split; [ discriminate | exact H ] | now intros [_ H] ].
  - intros l. destruct l as [ | s l ].
    + split; [ discriminate | intros [Hne _]; now elim Hne ].
    + unfold allMinersFed. rewrite forallb_forall, Forall_forall.
      split; [ intros H; split; [ discriminate | exact H ] | now intros [_ H] ].
  - reflexivity.
Qed.

End Aggregates.

(** * Further properties *)

(** ** The staking service *)

Section AutoSyncFacts.

Import StakingSyncService.

Lemma singleSync_setup (ms : option Z) (a : AutoSync) :
  singleSync a ->
  intervals (setupAutoSync ms a)
  = [{| iv_id := nextIntervalId a;
        iv_period := Z.max (match ms with Some v => v | None => 60000 end)
                           MIN_SYNC_INTERVAL |}]
  /\ singleSync (setupAutoSync ms a).
Proof.
  intros [[Hnone Hempty] | [id [p [Hsome [Hone Hmin]]]]];
    unfold setupAutoSync.
  - rewrite Hnone, Hempty. cbn. split; [ reflexivity | ].
    right. eexists. eexists. repeat split. apply Z.le_max_r.
  - rewrite Hsome, Hone. cbn. rewrite Nat.eqb_refl. cbn.
    split; [ reflexivity | ].
    right. eexists. eexists. repeat split. apply Z.le_max_r.
Qed.

Lemma singleSync_stop (a : AutoSync) :
  singleSync a ->
  syncInterval (stopAutoSync a) = None /\ intervals (stopAutoSync a) = [].
Proof.
  intros [[Hnone Hempty] | [id [p [Hsome [Hone Hmin]]]]];
    unfold stopAutoSync.
  - rewrite Hnone. now split.
  - rewrite Hsome, Hone. cbn. rewrite Nat.eqb_refl. now split.
Qed.

Lemma singleSync_run (acts : list SyncAction) (a : AutoSync) :
  singleSync a -> singleSync (fold_left syncStep acts a).
Proof.
  revert a. induction acts as [ | act acts IH ]; intros a Ha; cbn.
  - exact Ha.
  - apply IH. destruct act as [ ms | ]; cbn.
    + apply (singleSync_setup ms a Ha).
    + left. apply (singleSync_stop a Ha).
Qed.

End AutoSyncFacts.

Section ServiceExtras.

Import StakingSyncService.

(** X1.  Whatever sequence of [setupAutoSync] calls and clean-up calls a
    fresh service goes through, at most one interval is alive, it is the
    one [syncInterval] records, and its period is at least
    [MIN_SYNC_INTERVAL].  Right after a [setupAutoSync] the interval has
    the requested period (60 s by default) raised to that minimum.
    Right after a clean-up nothing is alive, also when the clean-up
    function came from an earlier set-up than the one that made the
    running interval. *)
Theorem autoSync_keeps_one_interval :
  forall acts : list SyncAction,
    (forall iv, In iv (intervals (runSync acts)) ->
                intervals (runSync acts) = [iv]
                /\ syncInterval (runSync acts) = Some (iv_id iv)
                /\ MIN_SYNC_INTERVAL <= iv_period iv)
    /\ (forall ms : option Z,
           map iv_period (intervals (runSync (acts ++ [Setup ms])))
           = [Z.max (match ms with Some v => v | None => 60000 end)
                    MIN_SYNC_INTERVAL])
    /\ intervals (runSync (acts ++ [Stop])) = [].
Proof.
  intros acts.
  assert (Hinv : singleSync (runSync acts)).
  { apply singleSync_run. left. now split. }
  split; [ | split ].
  - intros iv Hin.
    destruct Hinv as [[_ Hempty] | [id [p [Hsome [Hone Hmin]]]]].
    + rewrite Hempty in Hin. contradiction.
    + rewrite Hone in Hin. destruct Hin as [ <- | [] ].
      now rewrite Hone, Hsome.
  - intros ms. unfold runSync in *. rewrite fold_left_app. cbn [fold_left syncStep].
    now rewrite (proj1 (singleSync_setup ms _ Hinv)).
  - unfold runSync in *. rewrite fold_left_app. cbn [fold_left syncStep].
    apply (singleSync_stop _ Hinv).
Qed.





End ServiceExtras.

Section TokenNames.

Import StakingSyncService.

Lemma int_of_StringOfNumber (z : Z) :
  0 <= z ->
  exists u, DecimalString.NilZero.int_of_string (StringOfNumber z)
            = Some (Decimal.Pos u)
            /\ Z.of_uint u = z.
Proof.
  intros Hz. unfold StringOfNumber. destruct z as [ | p | p ]; [ | | lia ].
  - exists (Decimal.D0 Decimal.Nil). split; reflexivity.
  - exists (Pos.to_uint p). split.
    + apply DecimalString.NilZero.isi; intros [= H];
        now apply (DecimalPos.Unsigned.to_uint_nonnil p).
    + unfold Z.of_uint. now rewrite DecimalPos.Unsigned.of_to.
Qed.

Lemma int_of_zero_prefix (s : string) (u : Decimal.uint) :
  DecimalString.NilZero.int_of_string s = Some (Decimal.Pos u) ->
  DecimalString.NilZero.int_of_string (String "0" s)
  = Some (Decimal.Pos (Decimal.D0 u)).
Proof.
  destruct s as [ | a s' ]; [ discriminate | ].
  cbn [DecimalString.NilZero.int_of_string].
  destruct (Ascii.eqb a "-").
  - destruct (DecimalString.NilZero.uint_of_string s'); discriminate.
  - change (Ascii.eqb "0" "-") with false. cbn iota.
    unfold DecimalString.NilZero.uint_of_string.
    change (DecimalString.NilEmpty.uint_of_string (String "0" (String a s')))
      with (DecimalString.uint_of_char "0"
              (DecimalString.NilEmpty.uint_of_string (String a s'))).
    destruct (DecimalString.NilEmpty.uint_of_string (String a s'))
      as [ v | ]; [ | discriminate ].
    intros [= ->]. reflexivity.
Qed.

Lemma int_of_padding (k : nat) (s : string) (u : Decimal.uint) :
  DecimalString.NilZero.int_of_string s = Some (Decimal.Pos u) ->
  exists u', DecimalString.NilZero.int_of_string
               (append (repeatChar "0" k) s) = Some (Decimal.Pos u')
             /\ Z.of_uint u' = Z.of_uint u.
Proof.
  intros Hs. induction k as [ | k [u' [Hu' Heq]] ].
  - exists u. now split.
  - exists (Decimal.D0 u'). split.
    + cbn [repeatChar append]. now apply int_of_zero_prefix.
    + exact Heq.
Qed.

Lemma numberOfString_padStart (w : nat) (z : Z) :
  0 <= z -> numberOfString (padStart w "0" (StringOfNumber z)) = Some z.
Proof.
  intros Hz. destruct (int_of_StringOfNumber z Hz) as [u [Hu Hval]].
  destruct (int_of_padding (w - String.length (StringOfNumber z)) _ u Hu)
    as [u' [Hu' Heq]].
  unfold numberOfString, padStart. rewrite Hu'. cbn. congruence.
Qed.

Lemma length_repeatChar (c : ascii) (n : nat) :
  String.length (repeatChar c n) = n.
Proof. induction n; cbn; congruence. Qed.

Lemma length_append (s t : string) :
  String.length (append s t) = (String.length s + String.length t)%nat.
Proof. induction s; cbn; congruence. Qed.

Lemma length_padStart (w : nat) (c : ascii) (s : string) :
  String.length (padStart w c s) = Nat.max w (String.length s).
Proof.
  unfold padStart. rewrite length_append, length_repeatChar. lia.
Qed.

(** Every integer from 0 to 999 prints in at most three characters, and
    every one from 0 to 99 in at most two. *)
Lemma digits_below_1000 (z : Z) :
  0 <= z < 1000 -> (String.length (StringOfNumber z) <= 3)%nat.
Proof.
  intros Hz.
  assert (Hall : forallb (fun n => (String.length (StringOfNumber (Z.of_nat n))
                                    <=? 3)%nat) (seq 0 1000) = true)
    by (vm_compute; reflexivity).
  rewrite forallb_forall in Hall.
  specialize (Hall (Z.to_nat z)). rewrite Z2Nat.id in Hall by lia.
  apply Nat.leb_le, Hall, in_seq. lia.
Qed.

Lemma digits_below_100 (z : Z) :
  0 <= z < 100 -> (String.length (StringOfNumber z) <= 2)%nat.
Proof.
  intros Hz.
  assert (Hall : forallb (fun n => (String.length (StringOfNumber (Z.of_nat n))
                                    <=? 2)%nat) (seq 0 100) = true)
    by (vm_compute; reflexivity).
  rewrite forallb_forall in Hall.
  specialize (Hall (Z.to_nat z)). rewrite Z2Nat.id in Hall by lia.
  apply Nat.leb_le, Hall, in_seq. lia.
Qed.

(** [Number] keeps a bigint below 2^53, and such a number prints as its
    decimal numeral. *)
Lemma bigintToNumber_exact (t : Z) :
  Z.abs t < 2 ^ 53 -> bigintToNumber t = t.
Proof.
  intros Ht. unfold bigintToNumber.
  now rewrite (proj2 (Z.ltb_lt _ _) Ht).
Qed.

Lemma NumberToString_plain (exponentForm : Z -> string) (n : Z) :
  Z.abs n < 2 ^ 53 -> NumberToString exponentForm n = StringOfNumber n.
Proof.
  intros Hn. unfold NumberToString.
  change (2 ^ 53) with 9007199254740992 in Hn.
  change (10 ^ 21) with 1000000000000000000000.
  now rewrite (proj2 (Z.ltb_lt _ _)) by lia.
Qed.

(** Between 2^53 and 2^54 the numbers are two apart. *)
Lemma bigintToNumber_even (t : Z) :
  2 ^ 53 <= t < 2 ^ 54 -> exists k, bigintToNumber t = 2 * k.
Proof.
  intros Ht. unfold bigintToNumber.
  assert (Habs : Z.abs t = t)
    by (change (2 ^ 53) with 9007199254740992 in Ht; lia).
  rewrite Habs. rewrite (proj2 (Z.ltb_ge _ _)) by lia.
  assert (Hlog : Z.log2 t = 53).
  { apply Z.log2_unique; [ lia | ]. change (53 + 1) with 54. exact Ht. }
  rewrite Hlog. change (53 - 52) with 1. change (2 ^ 1) with 2.
  assert (Hsgn : Z.sgn t = 1)
    by (apply Z.sgn_pos; change (2 ^ 53) with 9007199254740992 in Ht; lia).
  rewrite Hsgn. eexists.
  rewrite Z.mul_1_l, Z.mul_comm. reflexivity.
Qed.

(** X3.  Below 2^53 the name [getOwnedNFTs] gives a token identifies it:
    the id stored is the token id, the number read back from the name is
    the token id, so two such tokens with the same name are the same
    token; padding never cuts digits, and the names of the tokens below
    1000 all have ten characters.  From 2^53 on [Number(tokenId)] rounds:
    no token with an odd id below 2^54 keeps its id, and tokens 2^53 and
    2^53 + 1 get the same id and the same name. *)
Theorem minerName_identifies_token :
  forall exponentForm : Z -> string,
    (forall t : Z,
        0 <= t < 2 ^ 53 ->
        nft_id (ownedNFT exponentForm t) = t
        /\ parseMinerName (nft_name (ownedNFT exponentForm t)) = Some t)
    /\ (forall a b : Z,
           0 <= a < 2 ^ 53 -> 0 <= b < 2 ^ 53 ->
           nft_name (ownedNFT exponentForm a)
           = nft_name (ownedNFT exponentForm b) ->
           a = b)
    /\ (forall t : Z,
           0 <= t < 1000 ->
           String.length (nft_name (ownedNFT exponentForm t)) = 10%nat)
    /\ (forall t : Z,
           2 ^ 53 <= t < 2 ^ 54 -> Z.odd t = true ->
           nft_id (ownedNFT exponentForm t) <> t)
    /\ ownedNFT exponentForm (2 ^ 53 + 1) = ownedNFT exponentForm (2 ^ 53).
Proof.
  intros exponentForm.
  assert (Hparse : forall t : Z,
             0 <= t < 2 ^ 53 ->
             nft_id (ownedNFT exponentForm t) = t
             /\ parseMinerName (nft_name (ownedNFT exponentForm t)) = Some t).
  { intros t Ht. cbn [ownedNFT nft_id nft_name].
    rewrite bigintToNumber_exact by lia. split; [ reflexivity | ].
    unfold parseMinerName, minerName.
    rewrite NumberToString_plain by lia. cbn [append dropChars].
    apply numberOfString_padStart. lia. }
  split; [ exact Hparse | split; [ | split; [ | split ] ] ].
  - intros a b Ha Hb Heq.
    pose proof (proj2 (Hparse a Ha)) as H1.
    rewrite Heq, (proj2 (Hparse b Hb)) in H1. congruence.
  - intros t Ht. cbn [ownedNFT nft_name].
    assert (Hsmall : Z.abs t < 2 ^ 53)
      by (change (2 ^ 53) with 9007199254740992; lia).
    rewrite bigintToNumber_exact by exact Hsmall. unfold minerName.
    rewrite NumberToString_plain by exact Hsmall.
    rewrite length_append, length_padStart.
    pose proof (digits_below_1000 t Ht). cbn [String.length]. lia.
  - intros t Ht Hodd. cbn [ownedNFT nft_id].
    destruct (bigintToNumber_even t Ht) as [k Hk]. rewrite Hk.
    apply Z.odd_spec in Hodd. destruct Hodd as [m Hm]. lia.
  - unfold ownedNFT.
    replace (bigintToNumber (2 ^ 53 + 1)) with (bigintToNumber (2 ^ 53))
      by (vm_compute; reflexivity).
    reflexivity.
Qed.

Lemma minerName_identifies_token_witness :
  let exponentForm := fun _ : Z => "1e+21"%string in
  parseMinerName (nft_name (ownedNFT exponentForm 7)) = Some 7
  /\ nft_name (ownedNFT exponentForm 7) <> nft_name (ownedNFT exponentForm 70)
  /\ String.length (nft_name (ownedNFT exponentForm 42)) = 10%nat
  /\ nft_id (ownedNFT exponentForm 9007199254740993) <> 9007199254740993.
Proof.
  intros exponentForm.
  destruct (minerName_identifies_token exponentForm)
    as [Hparse [Hinj [Hlen [Hodd _]]]].
  assert (H53 : 2 ^ 53 = 9007199254740992) by reflexivity.
  assert (H54 : 2 ^ 54 = 18014398509481984) by reflexivity.
  split; [ apply Hparse; lia | split; [ | split ] ].
  - intros Heq. apply Hinj in Heq; lia.
  - apply Hlen. lia.
  - apply Hodd; [ lia | reflexivity ].
Defined.

(** The service remembers the time of a read exactly when all three
    reads succeeded. *)
Lemma getStakingData_service (formatUnits : Z -> Z -> string)
    (NumberOfBigInt : Z -> Z) (svc : Service) (chain : Chain)
    (walletAddress : string) (now : Z) :
  snd (getStakingData formatUnits NumberOfBigInt svc chain walletAddress now)
  = if is_rejected (rpc_getStakedMiners chain)
       || is_rejected (rpc_getPendingRewards chain)
       || is_rejected (rpc_GEMS_PER_SECOND chain)
    then svc else {| svc_lastSyncTimestamp := now |}.
Proof.
  unfold getStakingData.
  destruct (rpc_getStakedMiners chain); [ | reflexivity ].
  destruct (rpc_getPendingRewards chain); [ | reflexivity ].
  destruct (rpc_GEMS_PER_SECOND chain); reflexivity.
Qed.

(** X4.  [manualSync] that passes its gate hands the result of
    [getStakingData] to the callback first.  When the three reads
    succeeded, the service remembers the time of the read and another
    [manualSync] less than [MIN_SYNC_INTERVAL] later reads nothing; when
    a read failed, the service remembers nothing and any later
    [manualSync] reads again. *)
Theorem manualSync_cooldown_after_success_only :
  forall (formatUnits : Z -> Z -> string) (NumberOfBigInt : Z -> Z)
         (svc : Service) (chain : Chain) (walletAddress : string)
         (callbackThrows : StakingData -> bool) (now nowSync nowCatch : Z),
    MIN_SYNC_INTERVAL <= now - svc_lastSyncTimestamp svc ->
    let r := manualSync formatUnits NumberOfBigInt svc chain walletAddress
                        callbackThrows now nowSync nowCatch in
    hd_error (fst r)
    = Some (fst (getStakingData formatUnits NumberOfBigInt svc chain
                                walletAddress nowSync))
    /\ (is_rejected (rpc_getStakedMiners chain) = false ->
        is_rejected (rpc_getPendingRewards chain) = false ->
        is_rejected (rpc_GEMS_PER_SECOND chain) = false ->
        forall (chain' : Chain) (cb' : StakingData -> bool) (now' n2 n3 : Z),
          now' - nowSync < MIN_SYNC_INTERVAL ->
          manualSync formatUnits NumberOfBigInt (snd r) chain' walletAddress
                     cb' now' n2 n3 = ([], snd r))
    /\ (is_rejected (rpc_getStakedMiners chain) = true
        \/ is_rejected (rpc_getPendingRewards chain) = true
        \/ is_rejected (rpc_GEMS_PER_SECOND chain) = true ->
        snd r = svc
        /\ forall (chain' : Chain) (cb' : StakingData -> bool)
                  (now' n2 n3 : Z),
            now <= now' ->
            fst (manualSync formatUnits NumberOfBigInt (snd r) chain'
                            walletAddress cb' now' n2 n3) <> []).
Proof.
  intros formatUnits NumberOfBigInt svc chain walletAddress callbackThrows
         now nowSync nowCatch Hgate r.
  assert (Hr : exists ds,
             r = (ds, snd (getStakingData formatUnits NumberOfBigInt svc chain
                                          walletAddress nowSync))
             /\ hd_error ds
                = Some (fst (getStakingData formatUnits NumberOfBigInt svc
                                            chain walletAddress nowSync))).
  { subst r. unfold manualSync.
    rewrite (proj2 (Z.leb_le _ _) Hgate).
    destruct (getStakingData formatUnits NumberOfBigInt svc chain
                             walletAddress nowSync) as [data svc'].
    destruct (callbackThrows data); eexists; split; reflexivity. }
  destruct Hr as [ds [Hr Hhd]]. clearbody r. subst r. cbn [fst snd].
  split; [ exact Hhd | ]. rewrite getStakingData_service. split.
  - intros H1 H2 H3 chain' cb' now' n2 n3 Hsoon.
    rewrite H1, H2, H3. cbn [orb]. unfold manualSync.
    cbn [svc_lastSyncTimestamp].
    now rewrite (proj2 (Z.leb_gt _ _) Hsoon).
  - intros Hfail.
    assert (Hany : is_rejected (rpc_getStakedMiners chain)
                   || is_rejected (rpc_getPendingRewards chain)
                   || is_rejected (rpc_GEMS_PER_SECOND chain) = true).
    { destruct Hfail as [ H | [ H | H ] ]; rewrite H;
        now rewrite ?orb_true_r. }
    rewrite Hany. split; [ reflexivity | ].
    intros chain' cb' now' n2 n3 Hlater. unfold manualSync.
    assert (Hopen' : (MIN_SYNC_INTERVAL <=? now' - svc_lastSyncTimestamp svc)
                     = true) by (apply Z.leb_le; lia).
    rewrite Hopen'.
    match goal with
    | |- context [let '(_, _) := ?g in _] => destruct g as [d s']
    end.
    destruct (cb' d); discriminate.
Qed.

Lemma manualSync_cooldown_after_success_only_witness :
  let svc := {| svc_lastSyncTimestamp := 10000 |} in
  let ok := manualSync sampleFormatUnits (fun z => z) svc goodChain
                       "0xA11CE" (fun _ => false) 50000 50010 50020 in
  let ko := manualSync sampleFormatUnits (fun z => z) svc failingChain
                       "0xA11CE" (fun _ => false) 50000 50010 50020 in
  manualSync sampleFormatUnits (fun z => z) (snd ok) goodChain "0xA11CE"
             (fun _ => false) 60000 60010 60020 = ([], snd ok)
  /\ snd ko = svc
  /\ fst (manualSync sampleFormatUnits (fun z => z) (snd ko) goodChain
                     "0xA11CE" (fun _ => false) 50100 50110 50120) <> [].
Proof.
  intros svc ok ko.
  assert (Hgate : MIN_SYNC_INTERVAL <= 50000 - svc_lastSyncTimestamp svc)
    by (cbn; discriminate).
  split; [ | split ].
  - destruct (manualSync_cooldown_after_success_only
                sampleFormatUnits (fun z => z) svc goodChain "0xA11CE"
                (fun _ => false) 50000 50010 50020 Hgate) as [_ [Hok _]].
    apply Hok; reflexivity.
  - destruct (manualSync_cooldown_after_success_only
                sampleFormatUnits (fun z => z) svc failingChain "0xA11CE"
                (fun _ => false) 50000 50010 50020 Hgate) as [_ [_ Hko]].
    apply Hko. left. reflexivity.
  - destruct (manualSync_cooldown_after_success_only
                sampleFormatUnits (fun z => z) svc failingChain "0xA11CE"
                (fun _ => false) 50000 50010 50020 Hgate) as [_ [_ Hko]].
    apply Hko; [ left; reflexivity | cbn; discriminate ].
Defined.

End TokenNames.

(** ** The contract table *)

Section ContractFacts.

Import Contracts.

Lemma takeHex_spec (n : nat) :
  forall s h : string,
    takeHex n s = Some h ->
    String.length h = n
    /\ takeHex n h = Some h
    /\ exists post, s = append h post.
Proof.
  induction n as [ | n IH ]; intros s h; cbn [takeHex].
  - intros [= <-]. repeat split. now exists s.
  - destruct s as [ | c rest ]; [ discriminate | ].
    destruct (isHexDigit c) eqn:Hc; [ | discriminate ].
    destruct (takeHex n rest) as [ h' | ] eqn:Hrest; [ | discriminate ].
    intros [= <-]. destruct (IH rest h' Hrest) as [Hlen [Hself [post Hpost]]].
    cbn [String.length takeHex]. rewrite Hc, Hself. repeat split.
    + now rewrite Hlen.
    + exists post. cbn [append]. now rewrite <- Hpost.
Qed.

Lemma matchHere_spec (s a : string) :
  matchHere s = Some a ->
  isAddress a /\ exists post, s = append a post.
Proof.
  unfold matchHere, isAddress.
  destruct s as [ | c0 [ | c1 rest ] ]; try discriminate;
    try (destruct c0 as [[] [] [] [] [] [] [] []]; discriminate).
  destruct (Ascii.eqb c0 "0") eqn:E0.
  2:{ destruct c0 as [[] [] [] [] [] [] [] []]; try discriminate. }
  destruct (Ascii.eqb c1 "x") eqn:E1.
  2:{ destruct c0 as [[] [] [] [] [] [] [] []]; try discriminate;
      destruct c1 as [[] [] [] [] [] [] [] []]; discriminate. }
  apply Ascii.eqb_eq in E0, E1. subst c0 c1.
  destruct (takeHex 40 rest) as [ h | ] eqn:Hh; [ | discriminate ].
  intros [= <-]. destruct (takeHex_spec 40 rest h Hh) as [Hlen [Hself [post Hpost]]].
  cbn -[takeHex]. rewrite Hself, Hlen. repeat split.
  exists post. now rewrite <- Hpost.
Qed.

Lemma matchAddress_spec :
  forall s a : string,
    matchAddress s = Some a ->
    isAddress a /\ exists pre post, s = append pre (append a post).
Proof.
  induction s as [ | c rest IH ]; intros a.
  - cbn. discriminate.
  - cbn [matchAddress].
    destruct (matchHere (String c rest)) as [ a' | ] eqn:Hhere.
    + intros [= <-].
      destruct (matchHere_spec _ _ Hhere) as [Haddr [post Hpost]].
      split; [ exact Haddr | ]. now exists EmptyString, post.
    + intros Hrest. destruct (IH a Hrest) as [Haddr [pre [post Hpost]]].
      split; [ exact Haddr | ].
      exists (String c pre), post. cbn [append]. now rewrite <- Hpost.
Qed.

Lemma matchAddress_self (a : string) :
  isAddress a -> matchAddress a = Some a.
Proof.
  intros [Hhere _]. destruct a; cbn [matchAddress]; now rewrite Hhere.
Qed.

Lemma cleanAddress_cases (a : string) :
  (cleanAddress a = a
   /\ ((String.length a <= 42)%nat \/ matchAddress a = None))
  \/ (isAddress (cleanAddress a) /\ matchAddress a = Some (cleanAddress a)
      /\ (42 < String.length a)%nat).
Proof.
  unfold cleanAddress.
  destruct (42 <? String.length a)%nat eqn:Hlong.
  - destruct (matchAddress a) as [ x | ] eqn:Hm.
    + right. apply Nat.ltb_lt in Hlong.
      split; [ apply (matchAddress_spec a x Hm) | now split ].
    + left. split; [ reflexivity | now right ].
  - left. apply Nat.ltb_ge in Hlong. split; [ reflexivity | now left ].
Qed.

Lemma truthy_nonempty (s : string) : truthy (Some s) = true <-> s <> EmptyString.
Proof. destruct s; cbn; split; congruence. Qed.

Lemma orElse_truthy (env : string -> option string) (name fallback : string) :
  fallback <> EmptyString -> orElse env name fallback <> EmptyString.
Proof.
  intros Hf. unfold orElse. destruct (env name) as [ v | ]; [ | exact Hf ].
  destruct (truthy (Some v)) eqn:Hv; [ | exact Hf ].
  now apply truthy_nonempty.
Qed.

Lemma cleanAddress_nonempty (a : string) :
  a <> EmptyString -> cleanAddress a <> EmptyString.
Proof.
  intros Ha.
  destruct (cleanAddress_cases a) as [[Heq _] | [[_ Hlen] _]].
  - now rewrite Heq.
  - intros H. rewrite H in Hlen. discriminate.
Qed.

End ContractFacts.

Section ContractExtras.

Import Contracts.



(** X6.  On a configured network [getContractAddress] resolves each of
    the ten names it knows to a non-empty address and rejects every
    other name.  An alias resolves to what its target resolves to; the
    staking contract of useExpeditions ("StakingSystem"), the one of
    useMealStatuses ("StakingProxy") and the one of the sync service
    ("MiningMastersStaking") are the same address. *)
Theorem getContractAddress_known_names :
  forall env : string -> option string,
    networkConfigured env ->
    (forall name : string,
        In name knownContractNames ->
        exists a, getContractAddress env name = Resolved a
                  /\ a <> EmptyString)
    /\ (forall name : string,
           ~ In name knownContractNames ->
           is_rejected (getContractAddress env name) = true)
    /\ getContractAddress env "StakingSystem"
       = getContractAddress env "MiningMastersStaking"
    /\ getContractAddress env "StakingProxy"
       = getContractAddress env "MiningMastersStaking"
    /\ getContractAddress env "MiningSystem"
       = getContractAddress env "MiningExpeditionProxy"
    /\ getContractAddress env "FoodSystem"
       = getContractAddress env "FoodSystemProxy".
Proof.
  intros env Hnet.
  assert (Hentry : forall suffix,
             exists a, lookupNetwork (entry env suffix)
                         (orElse env "VITE_NETWORK_ENV" "testnet") = Some a
                       /\ a <> EmptyString).
  { intros suffix. unfold lookupNetwork.
    destruct Hnet as [ -> | -> ]; cbn [String.eqb Ascii.eqb Bool.eqb];
      eexists; (split; [ reflexivity | ]);
      apply orElse_truthy; discriminate. }
  split; [ | split; [ | repeat split ] ].
  - intros name Hin. unfold getContractAddress.
    cbn in Hin.
    repeat (destruct Hin as [ <- | Hin ];
            [ cbn [lookup contractMap CONTRACT_ADDRESSES String.eqb Ascii.eqb
                   Bool.eqb];
              match goal with
              | |- context [lookupNetwork (entry env ?sfx) _] =>
                  destruct (Hentry sfx) as [a [Ha Hne]]; rewrite Ha;
                  exists (cleanAddress a);
                  split; [ reflexivity | now apply cleanAddress_nonempty ]
              end | ]).
    contradiction.
  - intros name Hout. unfold getContractAddress.
    assert (Hne : forall k, In k knownContractNames -> String.eqb k name = false).
    { intros k Hk. apply String.eqb_neq. intros ->. now apply Hout. }
    cbn [lookup contractMap CONTRACT_ADDRESSES].
    rewrite !Hne by (cbn; tauto). reflexivity.
  - unfold getContractAddress.
    cbn [lookup contractMap CONTRACT_ADDRESSES String.eqb Ascii.eqb Bool.eqb].
    destruct (Hentry "STAKING_PROXY_ADDRESS"%string) as [a [Ha _]].
    now rewrite Ha.
  - unfold getContractAddress.
    cbn [lookup contractMap CONTRACT_ADDRESSES String.eqb Ascii.eqb Bool.eqb].
    destruct (Hentry "STAKING_PROXY_ADDRESS"%string) as [a [Ha _]].
    now rewrite Ha.
  - unfold getContractAddress.
    cbn [lookup contractMap CONTRACT_ADDRESSES String.eqb Ascii.eqb Bool.eqb].
    destruct (Hentry "MINING_EXPEDITION_PROXY_ADDRESS"%string) as [a [Ha _]].
    now rewrite Ha.
  - unfold getContractAddress.
    cbn [lookup contractMap CONTRACT_ADDRESSES String.eqb Ascii.eqb Bool.eqb].
    destruct (Hentry "FOOD_SYSTEM_PROXY_ADDRESS"%string) as [a [Ha _]].
    now rewrite Ha.
Qed.

Lemma getContractAddress_known_names_witness :
  getContractAddress sampleEnv "StakingSystem"
  = Resolved "0x1111111111111111111111111111111111111111"%string
  /\ getContractAddress sampleEnv "FoodSystem" = Resolved ZERO_ADDRESS
  /\ is_rejected (getContractAddress sampleEnv "Staking") = true.
Proof.
  assert (Hnet : networkConfigured sampleEnv) by (right; reflexivity).
  destruct (getContractAddress_known_names sampleEnv Hnet)
    as [Hknown [Hother _]].
  split; [ | split ].
  - destruct (Hknown "StakingSystem"%string) as [a [Ha _]];
      [ cbn; tauto | ].
    rewrite Ha. vm_compute in Ha. symmetry. exact Ha.
  - destruct (Hknown "FoodSystem"%string) as [a [Ha _]]; [ cbn; tauto | ].
    rewrite Ha. vm_compute in Ha. symmetry. exact Ha.
  - apply Hother. cbn. intuition discriminate.
Defined.

End ContractExtras.

(** ** The statuses a cycle commits *)

Section StatusFacts.

Import UseExpeditions.

Lemma readExpedition_on (op : nat) (m : Z) (re : outcome ExpeditionData) :
  isOnExpedition (fst (readExpedition op m re)) = true ->
  0 < startTimeValue (fst (readExpedition op m re))
  /\ 0 < endTimeValue (fst (readExpedition op m re))
  /\ completedValue (fst (readExpedition op m re)) = false.
Proof.
  destruct re as [ d | e ]; cbn; [ | discriminate ].
  intros H. apply andb_prop in H. destruct H as [H Hc].
  apply andb_prop in H. destruct H as [Hs He].
  repeat split; [ now apply Z.ltb_lt | now apply Z.ltb_lt
                | now apply negb_true_iff ].
Qed.

Lemma readMeal_fed (op : nat) (m cd nowSecs : Z) (rm : outcome MealInfo) :
  mv_fed (fst (readMeal op m cd nowSecs rm))
  = (0 <? mv_mealTimestamp (fst (readMeal op m cd nowSecs rm))).
Proof. destruct rm; reflexivity. Qed.

Lemma processMiner_wellFormed (op : nat) (m cd nowSecs : Z)
    (re : outcome ExpeditionData) (rm : outcome MealInfo)
    (s : ExpeditionStatus) :
  fst (processMiner op m cd nowSecs re rm) = Some s ->
  wellFormed cd s /\ minerId s = m.
Proof.
  unfold processMiner.
  pose proof (readExpedition_on op m re) as Hon.
  pose proof (readMeal_fed op m cd nowSecs rm) as Hfed.
  destruct (readExpedition op m re) as [ev l1].
  destruct (readMeal op m cd nowSecs rm) as [mv l2].
  cbn [fst] in Hon, Hfed. unfold buildStatus.
  destruct (toISOString_throws ((mv_mealTimestamp mv + cd) * 1000));
    [ discriminate | ].
  destruct (negb (negb (isOnExpedition ev) && mv_fed mv)
            && toISOString_throws (mv_mealTimestamp mv + cd * 1000));
    [ discriminate | ].
  cbn [fst]. intros [= <-]. unfold wellFormed. cbn.
  repeat split; try assumption; now apply Hon.
Qed.

Lemma collectStatuses_wellFormed (op : nat) (cd nowSecs : Z) (ms : list Z) :
  forall rs : list (outcome ExpeditionData * outcome MealInfo),
    Forall (fun s => wellFormed cd s /\ In (minerId s) ms)
           (collectStatuses op cd nowSecs ms rs).
Proof.
  induction ms as [ | m ms IH ]; intros [ | [re rm] rs ];
    cbn [collectStatuses]; try constructor.
  assert (Hrest : Forall (fun s => wellFormed cd s /\ In (minerId s) (m :: ms))
                         (collectStatuses op cd nowSecs ms rs)).
  { eapply Forall_impl; [ | apply IH ]. intros s [Hwf Hin].
    split; [ exact Hwf | now right ]. }
  destruct (fst (processMiner op m cd nowSecs re rm)) as [ s | ] eqn:Hs;
    [ | exact Hrest ].
  constructor; [ | exact Hrest ].
  destruct (processMiner_wellFormed op m cd nowSecs re rm s Hs) as [Hwf Hid].
  split; [ exact Hwf | now left ].
Qed.

(** What well formed statuses imply for the aggregates. *)
Lemma wellFormed_aggregates (cd : Z) (sts : list ExpeditionStatus) :
  Forall (wellFormed cd) sts ->
  allMinersEligible sts = true ->
  allMinersFed sts = true
  /\ existsb onExpedition sts = false
  /\ eligibleMiners sts = map minerId sts.
Proof.
  intros Hwf Hall. destruct sts as [ | s0 sts ]; [ discriminate | ].
  unfold allMinersEligible in Hall. unfold allMinersFed, eligibleMiners.
  rewrite forallb_forall in Hall.
  assert (Hparts : forall s, In s (s0 :: sts) ->
                             onExpedition s = false
                             /\ isActive (fedStatus s) = true).
  { intros s Hin. rewrite Forall_forall in Hwf.
    destruct (Hwf s Hin) as [Hel _]. rewrite (Hall s Hin) in Hel.
    symmetry in Hel. apply andb_prop in Hel. destruct Hel as [H1 H2].
    split; [ now apply negb_true_iff | exact H2 ]. }
  split; [ | split ].
  - apply forallb_forall. intros s Hin. apply (Hparts s Hin).
  - apply not_true_is_false. intros H. apply existsb_exists in H.
    destruct H as [s [Hin Hon]]. destruct (Hparts s Hin). congruence.
  - f_equal. apply forallb_filter_id. now apply forallb_forall.
Qed.

Lemma wellFormed_not_both (cd nowSecs : Z) (s : ExpeditionStatus) :
  wellFormed cd s ->
  eligibleForNewExpedition s = true ->
  onExpedition s && (endTime s <=? nowSecs) && negb (completed s) = false.
Proof.
  intros [Hel _] He. rewrite He in Hel. symmetry in Hel.
  apply andb_prop in Hel. destruct Hel as [Hon _].
  apply negb_true_iff in Hon. now rewrite Hon.
Qed.

Lemma filter_none {A : Type} (f : A -> bool) (l : list A) :
  (forall x, In x l -> f x = false) -> filter f l = [].
Proof.
  induction l as [ | a l IH ]; intros H; cbn [filter]; [ reflexivity | ].
  rewrite (H a (or_introl eq_refl)). apply IH.
  intros x Hx. apply H. now right.
Qed.

Lemma committed_wf (bound : list Z) (w : World) (c : Cycle) (cd : Z)
    (r : outcome (list Z))
    (rs : list (outcome ExpeditionData * outcome MealInfo)) :
  phase c = AwaitStakedMiners cd ->
  opId c = globalOperationCounter w ->
  List.length rs = List.length (minersUsed bound r) ->
  forall s : ExpeditionStatus,
    In s (statuses (hook (fst (feed bound (RStakedMiners r :: loopReplies rs)
                                    w c)))) ->
    wellFormed cd s /\ In (minerId s) (minersUsed bound r).
Proof.
  intros Hph Hcur Hlen s Hin.
  destruct (feed_from_miners bound w c cd r rs Hph Hcur) as [_ [Hsts _]].
  { destruct r; exact Hlen. }
  rewrite Hsts in Hin.
  pose proof (collectStatuses_wellFormed (opId c) cd (cycleNow c / 1000)
                (minersUsed bound r) rs) as Hall.
  rewrite Forall_forall in Hall. apply Hall.
  destruct r; exact Hin.
Qed.

End StatusFacts.

Section StatusExtras.

Import UseExpeditions.

(** X7.  In a cycle that stays current and is left alone, every status
    committed belongs to a miner of the list read and its fields hang
    together: the miner is eligible exactly when it is fed and not on an
    expedition; it is fed exactly when its meal timestamp is positive;
    the expiry time is the meal timestamp plus the cooldown the cycle
    worked with; and a miner on an expedition has positive start and end
    times and is not completed. *)
Theorem committed_statuses_are_well_formed :
  forall (bound : list Z) (w : World) (c : Cycle) (cd : Z)
         (r : outcome (list Z))
         (rs : list (outcome ExpeditionData * outcome MealInfo)),
    phase c = AwaitStakedMiners cd ->
    opId c = globalOperationCounter w ->
    List.length rs = List.length (minersUsed bound r) ->
    let res := feed bound (RStakedMiners r :: loopReplies rs) w c in
    forall s : ExpeditionStatus,
      In s (statuses (hook (fst res))) ->
      In (minerId s) (minersUsed bound r)
      /\ eligibleForNewExpedition s
         = negb (onExpedition s) && isActive (fedStatus s)
      /\ isActive (fedStatus s) = (0 <? timestamp (fedStatus s))
      /\ expiryTime (fedStatus s) = timestamp (fedStatus s) + cd
      /\ (onExpedition s = true ->
          0 < startTime s /\ 0 < endTime s /\ completed s = false).
Proof.
  intros bound w c cd r rs Hph Hcur Hlen res s Hin.
  destruct (committed_wf bound w c cd r rs Hph Hcur Hlen s Hin)
    as [[H1 [H2 [H3 H4]]] Hm].
  repeat split; try assumption; now apply H4.
Qed.

Lemma committed_statuses_are_well_formed_witness :
  let c := cycleAt 1 20000000 (AwaitStakedMiners 21600) in
  let rs := [ (Resolved {| exp_startTime := 5; exp_endTime := 9;
                           exp_completed := false |},
               Resolved {| meal_mealId := 3; meal_timestamp := 1000 |}) ] in
  let res := feed [] (RStakedMiners (Resolved [7]) :: loopReplies rs)
                  runningWorld c in
  Forall (fun s => minerId s = 7 /\ eligibleForNewExpedition s = false
                  /\ expiryTime (fedStatus s) = 22600)
         (statuses (hook (fst res))).
Proof.
  intros c rs res. apply Forall_forall. intros s Hin.
  destruct (committed_statuses_are_well_formed
              [] runningWorld c 21600 (Resolved [7]) rs eq_refl eq_refl
              eq_refl s Hin) as [Hm [Hel [Hfed [Hexp Hon]]]].
  destruct Hin as [ <- | [] ]. repeat split.
Defined.

(** X8.  For the statuses such a cycle commits: when [allMinersEligible]
    is true, [allMinersFed] is true, no miner is on an expedition (so
    [anyOnExpedition] is false), [eligibleMiners] lists every miner, and
    nothing is ready to complete; and in any case no status is both
    eligible and ready to complete.  So the expedition button of
    EnterMines is never enabled while the feeding check fails. *)
Theorem all_eligible_means_all_fed :
  forall (bound : list Z) (w : World) (c : Cycle) (cd : Z)
         (r : outcome (list Z))
         (rs : list (outcome ExpeditionData * outcome MealInfo)),
    phase c = AwaitStakedMiners cd ->
    opId c = globalOperationCounter w ->
    List.length rs = List.length (minersUsed bound r) ->
    let sts :=
      statuses (hook (fst (feed bound (RStakedMiners r :: loopReplies rs)
                                w c))) in
    (allMinersEligible sts = true ->
     allMinersFed sts = true
     /\ (forall i : bool, anyOnExpedition i sts = false)
     /\ eligibleMiners sts = map minerId sts
     /\ (forall nowSecs : Z, readyToComplete nowSecs sts = [])
     /\ (forall loading : bool,
            EnterMines.canStartExpedition loading (allMinersEligible sts)
            = true ->
            EnterMines.allMinersPropperlyFed loading (allMinersFed sts)
            = true))
    /\ (forall (nowSecs : Z) (s : ExpeditionStatus),
           In s (readyToComplete nowSecs sts) ->
           eligibleForNewExpedition s = false).
Proof.
  intros bound w c cd r rs Hph Hcur Hlen sts.
  assert (Hwf : Forall (wellFormed cd) sts).
  { apply Forall_forall. intros s Hin.
    destruct (committed_wf bound w c cd r rs Hph Hcur Hlen s Hin)
      as [Hwfs _]. exact Hwfs. }
  split.
  - intros Hall.
    destruct (wellFormed_aggregates cd sts Hwf Hall) as [Hfed [Hnone Hids]].
    split; [ exact Hfed | ]. split.
    { intros i. unfold anyOnExpedition. rewrite Hnone. apply andb_false_r. }
    split; [ exact Hids | ]. split.
    + intros nowSecs. unfold readyToComplete. apply filter_none.
      intros s Hin.
      assert (Hon : onExpedition s = false).
      { apply not_true_is_false. intros Hon.
        assert (He : existsb onExpedition sts = true)
          by (apply existsb_exists; now exists s).
        congruence. }
      now rewrite Hon.
    + intros loading Hcan. unfold EnterMines.canStartExpedition in Hcan.
      unfold EnterMines.allMinersPropperlyFed.
      apply andb_prop in Hcan. destruct Hcan as [Hl _].
      now rewrite Hl, Hfed.
  - intros nowSecs s Hin. unfold readyToComplete in Hin.
    apply filter_In in Hin. destruct Hin as [Hin Hready].
    rewrite Forall_forall in Hwf.
    destruct (eligibleForNewExpedition s) eqn:He; [ | reflexivity ].
    rewrite (wellFormed_not_both cd nowSecs s (Hwf s Hin) He) in Hready.
    discriminate.
Qed.

Lemma all_eligible_means_all_fed_witness :
  let c := cycleAt 1 20000000 (AwaitStakedMiners 21600) in
  let rs := [ (Resolved {| exp_startTime := 0; exp_endTime := 0;
                           exp_completed := false |},
               Resolved {| meal_mealId := 3; meal_timestamp := 1000 |}) ] in
  let sts :=
    statuses (hook (fst (feed [] (RStakedMiners (Resolved [7])
                                    :: loopReplies rs) runningWorld c))) in
  allMinersFed sts = true /\ eligibleMiners sts = [7].
Proof.
  intros c rs sts.
  destruct (all_eligible_means_all_fed
              [] runningWorld c 21600 (Resolved [7]) rs eq_refl eq_refl
              eq_refl) as [Hall _].
  destruct (Hall eq_refl) as [Hfed [_ [Hids _]]].
  split; [ exact Hfed | ]. exact (eq_trans Hids eq_refl).
Defined.

End StatusExtras.

(** ** Whole cycles *)

Section WholeCycleFacts.

Import UseExpeditions.

Variable bound : list Z.

Lemma timerCallback_open (now : Z) (force : bool) (w : World) :
  gatesOpen now force w = true ->
  timerCallback now force w
  = (logDebug [LogStart (S (globalOperationCounter w))]
       (withHook (fun h => setError None
                             (setLoading true
                                (setLastFetchTime now
                                   (setCurrentOpId
                                      (S (globalOperationCounter w)) h))))
                 (bumpCounter (withHook (setFetchInProgress true) w))),
     Some {| opId := S (globalOperationCounter w); cycleNow := now;
             phase := AwaitProvider |}).
Proof.
  unfold gatesOpen, timerCallback. intros H.
  apply andb_prop in H. destruct H as [H Hcool].
  apply andb_prop in H. destruct H as [Hw Hfree].
  apply negb_true_iff in Hfree. rewrite Hw, Hfree. cbn [negb].
  destruct force; cbn [negb andb orb] in *; [ reflexivity | ].
  apply Z.leb_le in Hcool.
  now rewrite (proj2 (Z.ltb_ge _ _) Hcool).
Qed.

(** The hook at the end of a current cycle whose set-up succeeded. *)
Lemma feed_from_miners_hook (w : World) (c : Cycle) (cd : Z)
    (r : outcome (list Z))
    (rs : list (outcome ExpeditionData * outcome MealInfo)) :
  phase c = AwaitStakedMiners cd ->
  opId c = globalOperationCounter w ->
  List.length rs = List.length (minersUsed bound r) ->
  exists w',
    feed bound (RStakedMiners r :: loopReplies rs) w c = (w', None)
    /\ hook w'
       = hook (finish c
                 (Completed (minersUsed bound r)
                    (collectStatuses (opId c) cd (cycleNow c / 1000)
                                     (minersUsed bound r) rs)) w)
    /\ globalOperationCounter w' = globalOperationCounter w.
Proof.
  intros Hph Hcur Hlen.
  change (feed bound (RStakedMiners r :: loopReplies rs) w c)
    with (continueWith bound (loopReplies rs)
            (resume bound w c (RStakedMiners r))).
  unfold resume. rewrite Hph.
  destruct r as [ l | e ]; cbn [minersUsed] in *.
  - match goal with
    | |- context [loopHead c cd l l [] ?w1] =>
        destruct (feed_loop bound cd l l rs c [] w1 Hlen)
          as [w' [Hrun [Hhook Hcnt]]]; [ destruct l; exact Hcur | ]
    end.
    exists w'. split; [ exact Hrun | ]. split.
    + rewrite Hhook. unfold finish.
      replace (Nat.eqb (opId c) _) with true
        by (symmetry; destruct l; cbn; rewrite Hcur; apply Nat.eqb_refl).
      rewrite (proj2 (Nat.eqb_eq _ _) Hcur).
      destruct l as [ | m l' ]; reflexivity.
    + rewrite Hcnt. now destruct l.
  - match goal with
    | |- context [loopHead c cd bound bound [] ?w1] =>
        destruct (feed_loop bound cd bound bound rs c [] w1 Hlen)
          as [w' [Hrun [Hhook Hcnt]]]; [ exact Hcur | ]
    end.
    exists w'. split; [ exact Hrun | ]. split.
    + rewrite Hhook. apply finish_hook_ext; reflexivity.
    + rewrite Hcnt. reflexivity.
Qed.

Lemma feed_cons (r : Reply) (rs : list Reply) (w : World) (c : Cycle) :
  feed bound (r :: rs) w c = continueWith bound rs (resume bound w c r).
Proof. reflexivity. Qed.

(** A whole current cycle whose set-up succeeds. *)
Lemma feed_cycleReplies (w : World) (c : Cycle) (rc : outcome Z)
    (rm : outcome (list Z))
    (rs : list (outcome ExpeditionData * outcome MealInfo)) :
  phase c = AwaitProvider ->
  opId c = globalOperationCounter w ->
  List.length rs = List.length (minersUsed bound rm) ->
  exists w',
    feed bound (cycleReplies rc rm rs) w c = (w', None)
    /\ hook w'
       = hook (finish c
                 (Completed (minersUsed bound rm)
                    (collectStatuses (opId c) (cooldownUsed rc)
                                     (cycleNow c / 1000)
                                     (minersUsed bound rm) rs)) w)
    /\ globalOperationCounter w' = globalOperationCounter w.
Proof.
  intros Hph Hcur Hlen. unfold cycleReplies.
  rewrite feed_cons. unfold resume at 1. rewrite Hph. cbn [continueWith].
  rewrite feed_cons. unfold resume at 1. cbn [phase setPhase continueWith].
  rewrite feed_cons. unfold resume at 1. cbn [phase setPhase].
  destruct rc as [ secs | e ]; cbn [continueWith cooldownUsed].
  - destruct (feed_from_miners_hook w
                (setPhase (AwaitStakedMiners secs)
                   (setPhase AwaitCooldown (setPhase AwaitSigner c)))
                secs rm rs eq_refl Hcur Hlen) as [w' [Hrun [Hhook Hcnt]]].
    exists w'. split; [ exact Hrun | ]. split; [ exact Hhook | exact Hcnt ].
  - destruct (feed_from_miners_hook
                (logDebug [LogCooldownDefault (opId c) e] w)
                (setPhase (AwaitStakedMiners MEAL_DURATION_SECONDS)
                   (setPhase AwaitCooldown (setPhase AwaitSigner c)))
                MEAL_DURATION_SECONDS rm rs eq_refl Hcur Hlen)
      as [w' [Hrun [Hhook Hcnt]]].
    exists w'. split; [ exact Hrun | ]. split; [ | exact Hcnt ].
    rewrite Hhook, !finish_setPhase. cbn [opId cycleNow setPhase].
    apply finish_hook_ext; reflexivity.
Qed.

End WholeCycleFacts.

Section WholeCycleExtras.

Import UseExpeditions.

(** X9.  A run that passes the gates and whose cycle is left alone, with
    a set-up that succeeds: the cycle ends with [loading] false, no
    error, [initialized] true, the statuses of the list it read (the
    live list, or on a failed read the list the callback is bound to),
    computed with the cooldown read from the food contract or with six
    hours when that read failed, and [cooldownTime] five seconds after
    the start; the in-flight flag is released and the counter has moved
    by one. *)
Theorem completed_cycle_end_state :
  forall (bound : list Z) (now : Z) (force : bool) (w : World)
         (rc : outcome Z) (rm : outcome (list Z))
         (rs : list (outcome ExpeditionData * outcome MealInfo)),
    gatesOpen now force w = true ->
    List.length rs = List.length (minersUsed bound rm) ->
    exists c : Cycle,
      snd (timerCallback now force w) = Some c
      /\ let res := feed bound (cycleReplies rc rm rs)
                         (fst (timerCallback now force w)) c in
         let h := hook (fst res) in
         snd res = None
         /\ loading h = false
         /\ error h = None
         /\ initialized h = true
         /\ statuses h
            = collectStatuses (S (globalOperationCounter w))
                              (cooldownUsed rc) (now / 1000)
                              (minersUsed bound rm) rs
         /\ cooldownTime h = now + REFETCH_COOLDOWN_MS
         /\ lastFetchTimeRef h = now
         /\ fetchInProgressRef h = false
         /\ globalOperationCounter (fst res)
            = S (globalOperationCounter w).
Proof.
  intros bound now force w rc rm rs Hopen Hlen.
  rewrite (timerCallback_open now force w Hopen).
  eexists. split; [ reflexivity | ]. intros res h. cbn [fst] in res.
  match goal with
  | res := feed bound _ ?w1 ?c1 |- _ =>
      destruct (feed_cycleReplies bound w1 c1 rc rm rs eq_refl eq_refl Hlen)
        as [w' [Hrun [Hhook Hcnt]]]
  end.
  assert (Hres : res = (w', None)) by exact Hrun.
  subst h. rewrite Hres. cbn [fst snd]. rewrite Hhook, Hcnt.
  unfold finish. cbn [opId cycleNow globalOperationCounter logDebug withHook
                       bumpCounter].
  rewrite Nat.eqb_refl.
  destruct (minersUsed bound rm); cbn; repeat split.
Qed.

Lemma completed_cycle_end_state_witness :
  let w := settledWorld sampleWallet 10000 [] [] in
  let rs := [ (Rejected "timeout", Rejected "timeout") ] in
  let res := feed [] (cycleReplies (Rejected "no cooldown") (Resolved [7]) rs)
                  (fst (timerCallback 20000000 true w))
                  {| opId := 2; cycleNow := 20000000;
                     phase := AwaitProvider |} in
  snd res = None
  /\ statuses (hook (fst res)) = [defaultStatus 7 21600]
  /\ cooldownTime (hook (fst res)) = 20005000.
Proof.
  intros w rs res.
  destruct (completed_cycle_end_state
              [] 20000000 true w (Rejected "no cooldown") (Resolved [7]) rs
              eq_refl eq_refl) as [c [Hc Hend]].
  injection Hc as <-.
  destruct Hend as [Hnone [_ [_ [_ [Hsts [Hcool _]]]]]].
  split; [ exact Hnone | ]. split; [ exact Hsts | exact Hcool ].
Defined.

(** Within the cooldown a plain run starts no cycle, whatever else holds. *)
Lemma timerCallback_cooling (now : Z) (w : World) :
  now - lastFetchTimeRef (hook w) < REFETCH_COOLDOWN_MS ->
  snd (timerCallback now false w) = None.
Proof.
  intros Hsoon. unfold timerCallback.
  destruct (negb (walletConnected (walletRef (hook w)))); [ reflexivity | ].
  destruct (fetchInProgressRef (hook w)); [ reflexivity | ].
  cbn [negb andb]. now rewrite (proj2 (Z.ltb_lt _ _) Hsoon).
Qed.

(** X10.  A run that passes the gates and whose set-up fails (the
    provider or the signer cannot be had): the cycle ends with the error
    recorded and [loading] false, and keeps [statuses], [initialized]
    and [lastValidStakedMiners] as they were.  The failed attempt counts
    for the cooldown: a plain run less than five seconds after its start
    reads nothing. *)
Theorem failed_cycle_keeps_last_data :
  forall (bound : list Z) (now : Z) (force : bool) (w : World) (e : string)
         (signerFailed : bool),
    gatesOpen now force w = true ->
    let replies :=
      if signerFailed
      then [RProvider (Resolved tt); RSigner (Rejected e)]
      else [RProvider (Rejected e)] in
    exists c : Cycle,
      snd (timerCallback now force w) = Some c
      /\ let res := feed bound replies (fst (timerCallback now force w)) c in
         let h := hook (fst res) in
         snd res = None
         /\ statuses h = statuses (hook w)
         /\ initialized h = initialized (hook w)
         /\ lastValidStakedMiners h = lastValidStakedMiners (hook w)
         /\ error h = Some e
         /\ loading h = false
         /\ fetchInProgressRef h = false
         /\ (forall now' : Z,
                now' - now < REFETCH_COOLDOWN_MS ->
                snd (timerCallback now' false (fst res)) = None).
Proof.
  intros bound now force w e signerFailed Hopen replies.
  rewrite (timerCallback_open now force w Hopen).
  eexists. split; [ reflexivity | ]. intros res h.
  subst h res replies.
  destruct signerFailed; cbn [fst snd feed]; unfold resume, finish;
    cbn [phase setPhase opId cycleNow globalOperationCounter logDebug
         withHook bumpCounter fst snd];
    rewrite Nat.eqb_refl; cbn [fst snd hook withHook];
    (repeat split; intros now' Hsoon; apply timerCallback_cooling;
     exact Hsoon).
Qed.

Lemma failed_cycle_keeps_last_data_witness :
  let w := settledWorld sampleWallet 10000 [fedStatusOf 7 1000 21600] [7] in
  let res := feed [] [RProvider (Rejected "rpc down")]
                  (fst (timerCallback 20000 false w))
                  {| opId := 2; cycleNow := 20000; phase := AwaitProvider |} in
  statuses (hook (fst res)) = [fedStatusOf 7 1000 21600]
  /\ error (hook (fst res)) = Some "rpc down"%string
  /\ snd (timerCallback 24000 false (fst res)) = None.
Proof.
  intros w res.
  destruct (failed_cycle_keeps_last_data
              [] 20000 false w "rpc down"%string false eq_refl)
    as [c [Hc Hend]].
  injection Hc as <-.
  destruct Hend as [_ [Hsts [_ [_ [Herr [_ [_ Hcool]]]]]]].
  split; [ exact Hsts | ]. split; [ exact Herr | ].
  apply Hcool. reflexivity.
Defined.

End WholeCycleExtras.

(** ** The life of a hook instance *)

Section LifecycleFacts.

Import UseExpeditions.

Variable bound : list Z.

(** The tokens of the cycles in flight stay below the counter. *)
Lemma settle_tokens (n : nat) (op : nat) (r : Reply) (w : World)
    (cs : list Cycle) :
  Forall (fun c => (opId c <= n)%nat) cs ->
  Forall (fun c => (opId c <= n)%nat) (snd (settle bound op r w cs)).
Proof.
  induction cs as [ | c cs IH ]; intros Hall; cbn [settle];
    [ constructor | ].
  inversion Hall as [ | ? ? Hc Hcs ]; subst.
  destruct (Nat.eqb (opId c) op).
  - destruct (resume bound w c r) as [w' [ c' | ]] eqn:E;
      cbn [snd started app]; [ | exact Hcs ].
    constructor; [ | exact Hcs ].
    destruct (resume_token bound w c c' r) as [Hid _];
      [ now rewrite E | lia ].
  - specialize (IH Hcs).
    destruct (settle bound op r w cs) as [w' cs']. cbn [snd] in *.
    now constructor.
Qed.

Lemma tokens_weaken (n m : nat) (cs : list Cycle) :
  (n <= m)%nat ->
  Forall (fun c => (opId c <= n)%nat) cs ->
  Forall (fun c => (opId c <= m)%nat) cs.
Proof.
  intros Hle. apply Forall_impl. intros c. cbn. lia.
Qed.

Lemma tokensBounded_step (now : Z) (e : Event) (s : System) :
  tokensBounded s -> tokensBounded (step bound now e s).
Proof.
  unfold tokensBounded. intros Hinv.
  destruct e as [ force | id | op r | | | wl changed ]; cbn [step].
  - exact Hinv.
  - destruct (find _ _) as [ t | ]; [ | exact Hinv ].
    destruct (timer_due t <=? now); [ | exact Hinv ].
    unfold timerCallback. cbn [hook withTimers].
    destruct (negb (walletConnected (walletRef (hook (world s)))));
      [ cbn; now rewrite app_nil_r | ].
    destruct (fetchInProgressRef (hook (world s)));
      [ cbn; now rewrite app_nil_r | ].
    destruct (negb (timer_force t) && _);
      [ cbn; now rewrite app_nil_r | ].
    cbn. apply Forall_app. split.
    + apply (tokens_weaken (globalOperationCounter (world s))); [ lia | ].
      exact Hinv.
    + constructor; [ cbn; lia | constructor ].
  - pose proof (settle_counter bound op r (world s) (inflight s)) as Hc.
    pose proof (settle_tokens (globalOperationCounter (world s)) op r
                  (world s) (inflight s) Hinv) as Ht.
    destruct (settle bound op r (world s) (inflight s)) as [w1 cs].
    cbn [fst snd world inflight] in *. now rewrite Hc.
  - cbn. apply (tokens_weaken (globalOperationCounter (world s)));
      [ lia | exact Hinv ].
  - destruct (debouncedFetchRef (hook (world s))); cbn;
      (apply (tokens_weaken (globalOperationCounter (world s)));
       [ lia | exact Hinv ]).
  - destruct changed; [ destruct (connector wl) | ]; exact Hinv.
Qed.

Lemma tokensBounded_run (tr : list (Z * Event)) (s : System) :
  tokensBounded s -> tokensBounded (run bound tr s).
Proof.
  revert s. induction tr as [ | [now e] tr IH ]; intros s Hinv; cbn [run].
  - exact Hinv.
  - apply IH. now apply tokensBounded_step.
Qed.

End LifecycleFacts.

Section LifecycleExtras.

Import UseExpeditions.

(** X11.  Mutual exclusion.  Whatever the page does after mount
    (triggers, timers that fire, promises that settle, other instances
    moving the counter, wallet changes, the clean-up), the instance has at
    most one cycle in flight, and [fetchInProgressRef] is true exactly
    when it has one; a debounced run that fires while a cycle is in
    flight starts no other. *)
Theorem at_most_one_cycle_in_flight :
  forall (bound : list Z) (now0 : Z) (counter : nat) (wl : Wallet)
         (tr : list (Z * Event)),
    let s := run bound tr (mount now0 counter wl) in
    (List.length (inflight s) <= 1)%nat
    /\ (fetchInProgressRef (hook (world s)) = true <-> inflight s <> [])
    /\ (forall (now : Z) (force : bool),
           inflight s <> [] ->
           snd (timerCallback now force (world s)) = None).
Proof.
  intros bound now0 counter wl tr s.
  pose proof (oneInFlight_mount bound now0 counter wl tr) as Hinv.
  fold s in Hinv. unfold oneInFlight in Hinv.
  destruct (inflight s) as [ | c [ | c' cs ] ]; [ | | contradiction ].
  - split; [ cbn; lia | split ].
    + rewrite Hinv. split; [ discriminate | congruence ].
    + intros now force Hne. congruence.
  - split; [ cbn; lia | split ].
    + rewrite Hinv. split; [ discriminate | reflexivity ].
    + intros now force _. unfold timerCallback. rewrite Hinv.
      now destruct (negb (walletConnected (walletRef (hook (world s))))).
Qed.

Lemma at_most_one_cycle_in_flight_witness :
  let s := run [] [ (1300, TimerFires 1%nat) ]
               (mount 1000 0 sampleWallet) in
  inflight s <> []
  /\ snd (timerCallback 9000 true (world s)) = None.
Proof.
  intros s.
  destruct (at_most_one_cycle_in_flight
              [] 1000 0%nat sampleWallet [ (1300, TimerFires 1%nat) ])
    as [_ [_ Hbusy]].
  assert (Hne : inflight s <> []) by (cbn; discriminate).
  split; [ exact Hne | ]. apply Hbusy. exact Hne.
Defined.

(** X12.  The clean-up of the effect cancels the debounced run recorded
    in [debouncedFetchRef] and supersedes the cycles in flight: whatever
    happens afterwards, the settling of a promise awaited by a cycle that
    was in flight at the clean-up leaves [statuses], [initialized],
    [error], [loading] and [cooldownTime] alone. *)
Theorem cleanup_supersedes_cycles_in_flight :
  forall (bound : list Z) (now0 : Z) (counter : nat) (wl : Wallet)
         (before after : list (Z * Event)) (nowc now : Z) (c : Cycle)
         (r : Reply),
    let s1 := run bound before (mount now0 counter wl) in
    let s2 := step bound nowc Cleanup s1 in
    let s3 := run bound after s2 in
    In c (inflight s1) ->
    debouncedFetchRef (hook (world s2)) = None
    /\ (forall id : nat,
           debouncedFetchRef (hook (world s1)) = Some id ->
           ~ In id (map timer_id (timers (world s2))))
    /\ derivedState (hook (world (step bound now (Settles (opId c) r) s3)))
       = derivedState (hook (world s3)).
Proof.
  intros bound now0 counter wl before after nowc now c r s1 s2 s3 Hin.
  assert (Hb : tokensBounded s1).
  { apply (tokensBounded_run bound). unfold tokensBounded, mount. cbn.
    constructor. }
  unfold tokensBounded in Hb. rewrite Forall_forall in Hb.
  specialize (Hb c Hin).
  assert (Hbump : globalOperationCounter (world s2)
                  = S (globalOperationCounter (world s1))).
  { subst s2. cbn [step].
    now destruct (debouncedFetchRef (hook (world s1))). }
  split; [ | split ].
  - subst s2. cbn [step].
    destruct (debouncedFetchRef (hook (world s1))) eqn:E; cbn; [ reflexivity | exact E ].
  - intros id Href. subst s2. cbn [step]. rewrite Href. cbn.
    unfold clearTimeout. intros Hmem. apply in_map_iff in Hmem.
    destruct Hmem as [tm [Hid Htm]]. apply filter_In in Htm.
    destruct Htm as [_ Hkeep]. rewrite Hid, Nat.eqb_refl in Hkeep.
    discriminate.
  - pose proof (run_counter bound after s2) as Hmono. fold s3 in Hmono.
    assert (Hne : opId c <> globalOperationCounter (world s3)) by lia.
    cbn [step].
    pose proof (settle_stale bound (opId c) r (world s3) (inflight s3) Hne)
      as H.
    destruct (settle bound (opId c) r (world s3) (inflight s3)) as [w1 cs].
    exact H.
Qed.

Lemma cleanup_supersedes_cycles_in_flight_witness :
  let c := cycleAt 1 1300 AwaitProvider in
  let s1 := run [] [ (1300, TimerFires 1%nat) ]
                (mount 1000 0 sampleWallet) in
  let s3 := run [] [ (1500, Trigger true) ] (step [] 1400 Cleanup s1) in
  In c (inflight s1)
  /\ derivedState
       (hook (world (step [] 1600
                          (Settles 1 (RProvider (Rejected "rpc down"))) s3)))
     = derivedState (hook (world s3)).
Proof.
  intros c s1 s3.
  assert (Hin : In c (inflight s1)) by (left; reflexivity).
  split; [ exact Hin | ].
  destruct (cleanup_supersedes_cycles_in_flight
              [] 1000 0%nat sampleWallet [ (1300, TimerFires 1%nat) ]
              [ (1500, Trigger true) ] 1400 1600 c
              (RProvider (Rejected "rpc down")) Hin) as [_ [_ Hsame]].
  exact Hsame.
Defined.

End LifecycleExtras.

(** ** Times shown on the mine page *)

Section TimeFacts.

Lemma fold_max_ge (l : list Z) (a : Z) :
  a <= fold_left Z.max l a
  /\ (forall x, In x l -> x <= fold_left Z.max l a).
Proof.
  revert a. induction l as [ | y l IH ]; intros a; cbn [fold_left].
  - split; [ lia | intros x [] ].
  - destruct (IH (Z.max a y)) as [Ha Hl]. split; [ lia | ].
    intros x [ <- | Hin ]; [ lia | now apply Hl ].
Qed.

Lemma fold_max_in (l : list Z) (a : Z) :
  fold_left Z.max l a = a \/ In (fold_left Z.max l a) l.
Proof.
  revert a. induction l as [ | y l IH ]; intros a; cbn [fold_left].
  - now left.
  - destruct (IH (Z.max a y)) as [H | H].
    + rewrite H. destruct (Z.max_spec a y) as [[_ ->] | [_ ->]];
        [ right; now left | now left ].
    + right. now right.
Qed.

End TimeFacts.

Section TimeExtras.

Import UseExpeditions.

(** X13.  [latestEndTime] of a list that is not empty is the end time of
    one of its statuses and no status ends later; so the time left shown
    by EnterMines is never negative, and it is zero exactly when every
    expedition of the list has ended. *)
Theorem latestEndTime_is_maximum :
  forall sts : list ExpeditionStatus,
    sts <> [] ->
    (exists s, In s sts /\ endTime s = latestEndTime sts)
    /\ (forall s, In s sts -> endTime s <= latestEndTime sts)
    /\ (forall now : Z,
           0 <= EnterMines.timeLeft (latestEndTime sts) now
           /\ (EnterMines.timeLeft (latestEndTime sts) now = 0
               <-> forall s, In s sts -> endTime s * 1000 <= now)).
Proof.
  intros [ | s0 rest ] Hne; [ congruence | ]. cbn [latestEndTime].
  destruct (fold_max_ge (map endTime rest) (endTime s0)) as [H0 Hrest].
  assert (Hmax : forall s, In s (s0 :: rest) ->
                           endTime s
                           <= fold_left Z.max (map endTime rest) (endTime s0)).
  { intros s [ <- | Hin ]; [ exact H0 | ].
    apply Hrest. now apply in_map. }
  assert (Hwit : exists s, In s (s0 :: rest)
                           /\ endTime s
                              = fold_left Z.max (map endTime rest)
                                          (endTime s0)).
  { destruct (fold_max_in (map endTime rest) (endTime s0)) as [H | H].
    - exists s0. split; [ now left | now rewrite H ].
    - apply in_map_iff in H. destruct H as [s [Hs Hin]].
      exists s. split; [ now right | exact Hs ]. }
  split; [ exact Hwit | split; [ exact Hmax | ] ].
  intros now. unfold EnterMines.timeLeft. split; [ lia | ]. split.
  - intros Hz s Hin. specialize (Hmax s Hin). lia.
  - intros Hall. destruct Hwit as [s [Hin Hs]].
    specialize (Hall s Hin). lia.
Qed.

Lemma latestEndTime_is_maximum_witness :
  let sts := [ fedStatusOf 7 1000 21600;
               {| minerId := 8; onExpedition := true; startTime := 500;
                  endTime := 900; completed := false;
                  fedStatus := fedStatus (fedStatusOf 8 1000 21600);
                  eligibleForNewExpedition := false |} ] in
  latestEndTime sts = 900
  /\ EnterMines.timeLeft (latestEndTime sts) 900000 = 0.
Proof.
  intros sts.
  assert (Hne : sts <> []) by discriminate.
  destruct (latestEndTime_is_maximum sts Hne) as [_ [_ Hleft]].
  split; [ reflexivity | ].
  apply (proj2 (proj2 (Hleft 900000))).
  intros s [ <- | [ <- | [] ] ]; cbn; lia.
Defined.

(** X14.  The three numbers EnterMines prints for a time that is not
    negative: minutes and seconds are below sixty, and together with the
    hours they make the whole seconds of the time.  The text has nine
    characters besides the digits of the hours. *)
Theorem timeParts_decomposes :
  forall ms : Z,
    0 <= ms ->
    let '(h, m, s) := EnterMines.timeParts ms in
    0 <= h /\ 0 <= m < 60 /\ 0 <= s < 60
    /\ h * 3600 + m * 60 + s = ms / 1000
    /\ String.length (EnterMines.formatTime ms)
       = (String.length (StringOfNumber h) + 9)%nat.
Proof.
  intros ms Hms. unfold EnterMines.formatTime, EnterMines.timeParts.
  set (t := ms / 1000).
  assert (Ht : 0 <= t) by (apply Z.div_pos; lia).
  rewrite !Z.rem_mod_nonneg by lia.
  assert (Hm : 0 <= t mod 3600 / 60 < 60).
  { pose proof (Z.mod_pos_bound t 3600 ltac:(lia)).
    split; [ apply Z.div_pos; lia | apply Z.div_lt_upper_bound; lia ]. }
  assert (Hs : 0 <= t mod 60 < 60) by (apply Z.mod_pos_bound; lia).
  split; [ apply Z.div_pos; lia | ].
  split; [ exact Hm | ]. split; [ exact Hs | ]. split.
  - pose proof (Z.div_mod t 3600 ltac:(lia)).
    pose proof (Z.div_mod (t mod 3600) 60 ltac:(lia)).
    assert (Hmm : (t mod 3600) mod 60 = t mod 60).
    { apply Z.mod_mod_divide. exists 60. reflexivity. }
    lia.
  - rewrite !length_append, !length_padStart.
    pose proof (digits_below_100 (t mod 3600 / 60) ltac:(lia)).
    pose proof (digits_below_100 (t mod 60) ltac:(lia)).
    cbn [String.length]. lia.
Qed.

Lemma timeParts_decomposes_witness :
  let '(h, m, s) := EnterMines.timeParts (EnterMines.timeLeft 7325 1000) in
  0 <= h /\ 0 <= m < 60 /\ 0 <= s < 60
  /\ h * 3600 + m * 60 + s = EnterMines.timeLeft 7325 1000 / 1000
  /\ String.length (EnterMines.formatTime (EnterMines.timeLeft 7325 1000))
     = (String.length (StringOfNumber h) + 9)%nat.
Proof.
  apply (timeParts_decomposes (EnterMines.timeLeft 7325 1000)).
  cbn. lia.
Defined.

End TimeExtras.

(** ** The mining context *)

Section ClockFacts.

Lemma hasChar_append (c : ascii) (s t : string) :
  hasChar c (append s t) = hasChar c s || hasChar c t.
Proof.
  induction s as [ | a s IH ]; cbn; [ reflexivity | ].
  now rewrite IH, orb_assoc.
Qed.

Lemma hasChar_repeatChar (c a : ascii) (n : nat) :
  Ascii.eqb a c = false -> hasChar c (repeatChar a n) = false.
Proof.
  intros Hne. induction n as [ | n IH ]; cbn; [ reflexivity | ].
  now rewrite Hne, IH.
Qed.

Lemma colon_free_uint (u : Decimal.uint) :
  hasChar ":" (DecimalString.NilEmpty.string_of_uint u) = false.
Proof. induction u; cbn; auto. Qed.

Lemma colon_free_StringOfNumber (z : Z) :
  hasChar ":" (StringOfNumber z) = false.
Proof.
  unfold StringOfNumber. destruct z as [ | p | p ]; cbn;
    [ reflexivity | | ];
    unfold DecimalString.NilZero.string_of_uint;
    destruct (Pos.to_uint p) eqn:E; try reflexivity;
    rewrite <- E; apply colon_free_uint.
Qed.

Lemma colon_free_padStart (w : nat) (z : Z) :
  hasChar ":" (padStart w "0" (StringOfNumber z)) = false.
Proof.
  unfold padStart.
  rewrite hasChar_append, hasChar_repeatChar, colon_free_StringOfNumber;
    reflexivity.
Qed.

Lemma splitOn_single (sep : ascii) (s : string) :
  hasChar sep s = false -> splitOn sep s = [s].
Proof.
  induction s as [ | a s IH ]; cbn; [ reflexivity | ].
  intros H. apply orb_false_iff in H. destruct H as [Ha Hs].
  now rewrite Ha, (IH Hs).
Qed.

Lemma splitOn_append (sep : ascii) (s t : string) :
  hasChar sep s = false ->
  splitOn sep (append s (String sep t)) = s :: splitOn sep t.
Proof.
  induction s as [ | a s IH ]; cbn.
  - intros _. now rewrite Ascii.eqb_refl.
  - intros H. apply orb_false_iff in H. destruct H as [Ha Hs].
    now rewrite Ha, (IH Hs).
Qed.

Lemma length_two (z : Z) :
  0 <= z < 100 ->
  String.length (padStart 2 "0" (StringOfNumber z)) = 2%nat.
Proof.
  intros Hz. rewrite length_padStart.
  pose proof (digits_below_100 z Hz). lia.
Qed.

End ClockFacts.

Section MiningExtras.

Import MiningContext.

(** X15.  The count-down of the mining context.  After [startMining d]
    with [d] seconds, [d] not negative, each pass of the timer effect
    takes one second off while mining stays on; the pass after the last
    second turns mining off, and nothing changes from then on.  With a
    negative duration no pass changes anything: mining stays on.  After
    [stopMining] the effect does nothing. *)
Theorem mining_counts_down :
  forall (d : Z) (m : Mining),
    (0 <= d ->
     (forall k : nat,
         Z.of_nat k <= d ->
         Nat.iter k tick (startMining d m)
         = {| isMining := true; timeLeft := d - Z.of_nat k |})
     /\ (forall k : nat,
            d < Z.of_nat k ->
            Nat.iter k tick (startMining d m)
            = {| isMining := false; timeLeft := 0 |}))
    /\ (d < 0 ->
        forall k : nat,
          Nat.iter k tick (startMining d m)
          = {| isMining := true; timeLeft := d |})
    /\ tick (stopMining m) = stopMining m.
Proof.
  intros d m. split; [ | split ].
  - intros Hd.
    assert (Hdown : forall k : nat,
               Z.of_nat k <= d ->
               Nat.iter k tick (startMining d m)
               = {| isMining := true; timeLeft := d - Z.of_nat k |}).
    { induction k as [ | k IH ]; intros Hk.
      - cbn. unfold startMining. f_equal. lia.
      - rewrite Nat.iter_succ, IH by lia. unfold tick.
        cbn [isMining timeLeft andb].
        rewrite (proj2 (Z.ltb_lt 0 (d - Z.of_nat k))) by lia.
        f_equal. lia. }
    split; [ exact Hdown | ].
    induction k as [ | k IH ]; intros Hk; [ lia | ].
    rewrite Nat.iter_succ.
    destruct (Z.eq_dec d (Z.of_nat k)) as [Heq | Hne].
    + rewrite Hdown by lia. unfold tick. cbn [isMining timeLeft andb].
      replace (d - Z.of_nat k) with 0 by lia. reflexivity.
    + rewrite IH by lia. reflexivity.
  - intros Hd k. induction k as [ | k IH ]; [ reflexivity | ].
    rewrite Nat.iter_succ, IH. unfold tick. cbn [isMining timeLeft andb].
    rewrite (proj2 (Z.ltb_ge 0 d)) by lia.
    now rewrite (proj2 (Z.eqb_neq d 0)) by lia.
  - reflexivity.
Qed.

Lemma mining_counts_down_witness :
  let idle := {| isMining := false; timeLeft := 0 |} in
  Nat.iter 2 tick (startMining 3 idle)
  = {| isMining := true; timeLeft := 1 |}
  /\ Nat.iter 4 tick (startMining 3 idle) = idle
  /\ Nat.iter 9 tick (startMining (-2) idle)
     = {| isMining := true; timeLeft := -2 |}.
Proof.
  intros idle.
  destruct (mining_counts_down 3 idle) as [Hpos _].
  destruct (Hpos ltac:(lia)) as [Hdown Hend].
  destruct (mining_counts_down (-2) idle) as [_ [Hneg _]].
  split; [ | split ].
  - exact (Hdown 2%nat ltac:(lia)).
  - exact (Hend 4%nat ltac:(lia)).
  - exact (Hneg ltac:(lia) 9%nat).
Defined.

(** X16.  The clock text of the mining context loses nothing: for whole
    seconds that are not negative, reading the fields between the colons
    back, each worth sixty of the next, gives the seconds.  Below one
    hour the text is MM:SS, five characters; from one hour to below a
    hundred hours it is HH:MM:SS, eight characters. *)
Theorem formatTime_reads_back :
  forall seconds : Z,
    0 <= seconds ->
    parseClock (formatTime seconds) = Some seconds
    /\ (seconds < 3600 -> String.length (formatTime seconds) = 5%nat)
    /\ (3600 <= seconds < 360000 ->
        String.length (formatTime seconds) = 8%nat).
Proof.
  intros seconds Hs. unfold formatTime.
  rewrite (proj2 (Z.ltb_ge seconds 0)) by lia.
  rewrite !Z.rem_mod_nonneg by lia.
  assert (Hh : 0 <= seconds / 3600) by (apply Z.div_pos; lia).
  assert (Hm : 0 <= seconds mod 3600 / 60 < 60).
  { pose proof (Z.mod_pos_bound seconds 3600 ltac:(lia)).
    split; [ apply Z.div_pos; lia | apply Z.div_lt_upper_bound; lia ]. }
  assert (Hsec : 0 <= seconds mod 60 < 60) by (apply Z.mod_pos_bound; lia).
  assert (Hsum : seconds / 3600 * 3600 + seconds mod 3600 / 60 * 60
                 + seconds mod 60 = seconds).
  { pose proof (Z.div_mod seconds 3600 ltac:(lia)).
    pose proof (Z.div_mod (seconds mod 3600) 60 ltac:(lia)).
    assert (Hmm : (seconds mod 3600) mod 60 = seconds mod 60).
    { apply Z.mod_mod_divide. exists 60. reflexivity. }
    lia. }
  cbv zeta. cbn [append].
  destruct (0 <? seconds / 3600) eqn:Hhours.
  - apply Z.ltb_lt in Hhours. split; [ | split ].
    + unfold parseClock.
      rewrite splitOn_append by apply colon_free_padStart.
      rewrite splitOn_append by apply colon_free_padStart.
      rewrite splitOn_single by apply colon_free_padStart.
      cbn [fold_left].
      rewrite !numberOfString_padStart by lia. f_equal. lia.
    + intros Hlt. exfalso.
      assert (seconds / 3600 = 0) by (apply Z.div_small; lia). lia.
    + intros Hrange.
      assert (Hh2 : 0 <= seconds / 3600 < 100).
      { split; [ lia | apply Z.div_lt_upper_bound; lia ]. }
      repeat (rewrite ?length_append, ?length_two by lia;
              cbn [String.length]).
      reflexivity.
  - apply Z.ltb_ge in Hhours. split; [ | split ].
    + unfold parseClock.
      rewrite splitOn_append by apply colon_free_padStart.
      rewrite splitOn_single by apply colon_free_padStart.
      cbn [fold_left].
      rewrite !numberOfString_padStart by lia. f_equal. lia.
    + intros _.
      repeat (rewrite ?length_append, ?length_two by lia;
              cbn [String.length]).
      reflexivity.
    + intros Hrange. exfalso.
      assert (1 <= seconds / 3600) by (apply Z.div_le_lower_bound; lia).
      lia.
Qed.

Lemma formatTime_reads_back_witness :
  formatTime 125 = "02:05"%string
  /\ parseClock (formatTime 125) = Some 125
  /\ formatTime 7325 = "02:02:05"%string
  /\ parseClock (formatTime 7325) = Some 7325.
Proof.
  destruct (formatTime_reads_back 125 ltac:(lia)) as [H1 _].
  destruct (formatTime_reads_back 7325 ltac:(lia)) as [H2 _].
  split; [ reflexivity | ]. split; [ exact H1 | ].
  split; [ reflexivity | exact H2 ].
Defined.

End MiningExtras.

(** ** Meal availability (useMealStatuses) *)

Section MealFacts.

Import UseMealStatuses.

(** The loop of one meal, from any running pair. *)
Lemma mealLoop_spec (results : list (bool * Z)) :
  forall (b : bool) (t : Z),
    let out :=
      fold_left
        (fun (acc : bool * Z) (r : bool * Z) =>
           if fst r then acc
           else (false, if snd acc <? snd r then snd r else snd acc))
        results (b, t) in
    fst out = b && forallb fst results
    /\ t <= snd out
    /\ (forallb fst results = true -> snd out = t)
    /\ (forall r, In r results -> fst r = false -> snd r <= snd out)
    /\ (snd out = t
        \/ exists r, In r results /\ fst r = false /\ snd r = snd out).
Proof.
  induction results as [ | [c x] rs IH ]; intros b t; cbn [fold_left].
  - cbn. rewrite andb_true_r.
    split; [ reflexivity | ]. split; [ lia | ]. split; [ reflexivity | ].
    split; [ intros r [] | now left ].
  - cbn [fst snd forallb]. destruct c; cbn [andb].
    + destruct (IH b t) as [H1 [H2 [H3 [H4 H5]]]].
      split; [ exact H1 | ]. split; [ exact H2 | ]. split; [ exact H3 | ].
      split.
      * intros r [ <- | Hin ] Hr; [ discriminate | now apply H4 ].
      * destruct H5 as [H5 | [r [Hin [Hr Heq]]]]; [ now left | ].
        right. exists r. split; [ now right | now split ].
    + destruct (IH false (if t <? x then x else t))
        as [H1 [H2 [H3 [H4 H5]]]].
      assert (Hmax : t <= (if t <? x then x else t)
                     /\ x <= (if t <? x then x else t)).
      { destruct (t <? x) eqn:E;
          [ apply Z.ltb_lt in E | apply Z.ltb_ge in E ]; lia. }
      split; [ now rewrite H1, andb_false_r | ].
      split; [ lia | ]. split; [ discriminate | ]. split.
      * intros r [ <- | Hin ] Hr; [ cbn; lia | now apply H4 ].
      * destruct H5 as [H5 | [r [Hin [Hr Heq]]]].
        -- destruct (t <? x) eqn:E.
           ++ right. exists (false, x).
              split; [ now left | split; [ reflexivity | now rewrite H5 ] ].
           ++ left. exact H5.
        -- right. exists r. split; [ now right | now split ].
Qed.

(** One call of [fetchStakedMiners]. *)
Lemma fetchStakedMiners_cases (cl : Closure) (env : Env) (st : State) :
  (snd (fetchStakedMiners cl env st) = st
   /\ fst (fetchStakedMiners cl env st) = cl_lastValidStakedMiners cl)
  \/ (fst (fetchStakedMiners cl env st) <> []
      /\ env_getStakedMiners env = Resolved (fst (fetchStakedMiners cl env st))
      /\ cl_connector cl = true
      /\ stakedMiners (snd (fetchStakedMiners cl env st))
         = fst (fetchStakedMiners cl env st)
      /\ lastValidStakedMiners (snd (fetchStakedMiners cl env st))
         = fst (fetchStakedMiners cl env st)).
Proof.
  unfold fetchStakedMiners.
  destruct (cl_connector cl); cbn [negb orb]; [ | left; now split ].
  destruct (negb (truthy (cl_address cl))); [ left; now split | ].
  destruct (env_stakingAddress env) as [ a | e ]; [ | left; now split ].
  destruct (negb (truthy (Some a))); [ left; now split | ].
  destruct (env_getStakedMiners env) as [ [ | m ms ] | e ];
    [ left; now split | | left; now split ].
  right. cbn. repeat split. discriminate.
Qed.








End MealFacts.

Section ContractAddressFacts.

Import Contracts.


End ContractAddressFacts.

Section MealExtras.

Import UseMealStatuses.

(** X17.  The status of one meal over the answers of [canEatMeal] for
    the staked miners: the meal can be eaten exactly when every miner can
    eat it, and then the waiting time is 0; otherwise the waiting time is
    the longest wait among the miners that cannot eat, or 0 when none of
    them has a positive wait.  It is never negative. *)
Theorem mealStatus_is_all_and_worst :
  forall (id : nat) (results : list (bool * Z)),
    let st := mealStatus id results in
    meal_id st = id
    /\ canEat st = forallb fst results
    /\ 0 <= timeUntil st
    /\ (canEat st = true -> timeUntil st = 0)
    /\ (forall r, In r results -> fst r = false -> snd r <= timeUntil st)
    /\ (timeUntil st = 0
        \/ exists r, In r results /\ fst r = false
                     /\ snd r = timeUntil st).
Proof.
  intros id results st. subst st. unfold mealStatus, mealAvailability.
  cbn [meal_id canEat timeUntil].
  destruct (mealLoop_spec results true 0) as [H1 [H2 [H3 [H4 H5]]]].
  cbn zeta in *.
  split; [ reflexivity | ]. split; [ exact H1 | ]. split; [ exact H2 | ].
  split; [ | split; [ exact H4 | exact H5 ] ].
  intros Hall. apply H3. now rewrite H1 in Hall.
Qed.

(** X18.  [fetchStakedMiners] never empties the miners: a call either
    leaves the state alone and answers with the list the callback is
    bound to, or it read a list that is not empty, stores it in both
    cells and answers with it.  So over any sequence of calls, once
    [stakedMinerCount] is positive it stays positive, whatever the wallet
    and the contract do afterwards. *)
Theorem fetchStakedMiners_never_empties :
  forall (calls : list (Closure * Env)) (st : State),
    (forall (cl : Closure) (env : Env),
        let res := fetchStakedMiners cl env st in
        (snd res = st /\ fst res = cl_lastValidStakedMiners cl)
        \/ (fst res <> []
            /\ env_getStakedMiners env = Resolved (fst res)
            /\ stakedMiners (snd res) = fst res
            /\ lastValidStakedMiners (snd res) = fst res))
    /\ let st' :=
         fold_left (fun s ce => snd (fetchStakedMiners (fst ce) (snd ce) s))
                   calls st in
       ((0 < stakedMinerCount st)%nat -> (0 < stakedMinerCount st')%nat)
       /\ (stakedMiners st = lastValidStakedMiners st ->
           stakedMiners st' = lastValidStakedMiners st').
Proof.
  intros calls st. split.
  - intros cl env res. subst res.
    destruct (fetchStakedMiners_cases cl env st)
      as [H | [H1 [H2 [_ [H3 H4]]]]]; [ now left | right; now repeat split ].
  - revert st. induction calls as [ | [cl env] calls IH ]; intros st;
      cbn [fold_left fst snd].
    + split; intros H; exact H.
    + destruct (IH (snd (fetchStakedMiners cl env st))) as [IH1 IH2].
      destruct (fetchStakedMiners_cases cl env st)
        as [[Hst _] | [Hne [_ [_ [H3 H4]]]]].
      * rewrite Hst in *. split; assumption.
      * split.
        -- intros _. apply IH1. unfold stakedMinerCount. rewrite H3.
           destruct (fst (fetchStakedMiners cl env st));
             [ congruence | cbn; lia ].
        -- intros _. apply IH2. now rewrite H3, H4.
Qed.

Lemma fetchStakedMiners_never_empties_witness :
  let cl := {| cl_connector := true; cl_address := Some "0xA11CE"%string;
               cl_lastValidStakedMiners := [] |} in
  let seen := {| env_stakingAddress := Resolved "0x1"%string;
                 env_getStakedMiners := Resolved [7; 8] |} in
  let gone := {| env_stakingAddress := Resolved "0x1"%string;
                 env_getStakedMiners := Resolved [] |} in
  let st0 := {| stakedMiners := []; lastValidStakedMiners := [] |} in
  let st1 := snd (fetchStakedMiners cl seen st0) in
  (0 < stakedMinerCount st1)%nat
  /\ (0 < stakedMinerCount
            (fold_left (fun s ce => snd (fetchStakedMiners (fst ce) (snd ce) s))
                       [ (cl, gone); (cl, gone) ] st1))%nat.
Proof.
  intros cl seen gone st0 st1.
  assert (Hpos : (0 < stakedMinerCount st1)%nat) by (cbn; lia).
  split; [ exact Hpos | ].
  destruct (fetchStakedMiners_never_empties [ (cl, gone); (cl, gone) ] st1)
    as [_ [Hstays _]].
  exact (Hstays Hpos).
Defined.



End MealExtras.

(** ** The staking hook (useStaking) *)

Section StakingFacts.

Import UseStaking.

Lemma setupRewardsEstimation_single (b g : string) (n t : Z)
    (e : Estimation) :
  singleTicker e ->
  singleTicker (setupRewardsEstimation b g n t e)
  /\ (n = 0 -> tickers (setupRewardsEstimation b g n t e) = [])
  /\ (n <> 0 ->
      exists id,
        tickers (setupRewardsEstimation b g n t e)
        = [ {| tk_id := id; tk_baseRewards := b; tk_gemsPerSecond := g;
               tk_minerCount := n; tk_lastUpdateTime := t |} ]).
Proof.
  intros Hinv. unfold setupRewardsEstimation.
  assert (Hkept : match rewardsIntervalRef e with
                  | Some id => clearTicker id (tickers e)
                  | None => tickers e
                  end = []).
  { destruct Hinv as [Hnone | [tk [Hone Href]]].
    - rewrite Hnone. now destruct (rewardsIntervalRef e).
    - rewrite Href, Hone. cbn. now rewrite Nat.eqb_refl. }
  rewrite Hkept. destruct (n =? 0) eqn:Hn.
  - apply Z.eqb_eq in Hn. split; [ now left | ].
    split; [ reflexivity | congruence ].
  - apply Z.eqb_neq in Hn. cbn [app]. split; [ | split ].
    + right. eexists. split; reflexivity.
    + congruence.
    + intros _. eexists. reflexivity.
Qed.

Lemma stopRewardsEstimation_single (e : Estimation) :
  singleTicker e -> tickers (stopRewardsEstimation e) = [].
Proof.
  intros Hinv. unfold stopRewardsEstimation.
  destruct Hinv as [Hnone | [tk [Hone Href]]].
  - destruct (rewardsIntervalRef e); cbn; now rewrite Hnone.
  - rewrite Href. cbn. rewrite Hone. cbn. now rewrite Nat.eqb_refl.
Qed.

Lemma runEstimation_single (acts : list EstimationAction) :
  singleTicker (runEstimation acts).
Proof.
  unfold runEstimation.
  assert (Hgen : forall e, singleTicker e ->
                           singleTicker (fold_left estimationStep acts e)).
  { induction acts as [ | [b g n t | ] acts IH ]; intros e He;
      cbn [fold_left estimationStep]; [ exact He | | ].
    - apply IH. now apply setupRewardsEstimation_single.
    - apply IH. left. now apply stopRewardsEstimation_single. }
  apply Hgen. now left.
Qed.

(** The sort of the comparison. *)
Lemma insertSorted_comm (x y : Z) (l : list Z) :
  insertSorted x (insertSorted y l) = insertSorted y (insertSorted x l).
Proof.
  induction l as [ | a l IH ]; cbn [insertSorted].
  - destruct (x <=? y) eqn:Hxy, (y <=? x) eqn:Hyx; try reflexivity.
    + apply Z.leb_le in Hxy, Hyx. assert (x = y) by lia. now subst.
    + apply Z.leb_gt in Hxy, Hyx. lia.
  - destruct (y <=? a) eqn:Hya, (x <=? a) eqn:Hxa; cbn [insertSorted];
      rewrite ?Hya, ?Hxa.
    + destruct (x <=? y) eqn:Hxy, (y <=? x) eqn:Hyx; try reflexivity.
      * apply Z.leb_le in Hxy, Hyx. assert (x = y) by lia. now subst.
      * apply Z.leb_gt in Hxy, Hyx. lia.
    + destruct (x <=? y) eqn:Hxy; [ | reflexivity ].
      apply Z.leb_le in Hxy, Hya. apply Z.leb_gt in Hxa. lia.
    + destruct (y <=? x) eqn:Hyx; [ | reflexivity ].
      apply Z.leb_le in Hyx, Hxa. apply Z.leb_gt in Hya. lia.
    + now rewrite IH.
Qed.

Lemma insertSorted_perm (x : Z) (l : list Z) :
  Permutation (insertSorted x l) (x :: l).
Proof.
  induction l as [ | a l IH ]; cbn [insertSorted]; [ reflexivity | ].
  destruct (x <=? a); [ reflexivity | ].
  rewrite IH. apply perm_swap.
Qed.

Lemma sortNumbers_perm (l : list Z) : Permutation (sortNumbers l) l.
Proof.
  induction l as [ | x l IH ]; cbn [sortNumbers]; [ reflexivity | ].
  rewrite insertSorted_perm. now constructor.
Qed.

Lemma sortNumbers_of_perm (l l' : list Z) :
  Permutation l l' -> sortNumbers l = sortNumbers l'.
Proof.
  induction 1 as [ | x l l' _ IH | x y l | l l' l'' _ IH1 _ IH2 ];
    cbn [sortNumbers].
  - reflexivity.
  - now rewrite IH.
  - apply insertSorted_comm.
  - congruence.
Qed.

Lemma length_sortNumbers (l : list Z) :
  List.length (sortNumbers l) = List.length l.
Proof. apply Permutation_length, sortNumbers_perm. Qed.

Lemma differs_false (a b : list Z) :
  List.length a = List.length b -> (differs a b = false <-> a = b).
Proof.
  revert b. induction a as [ | x a IH ]; intros [ | y b ] Hlen;
    cbn in *; try discriminate.
  - split; reflexivity.
  - injection Hlen as Hlen. destruct (x =? y) eqn:E.
    + apply Z.eqb_eq in E. subst y. rewrite (IH b Hlen).
      split; [ now intros -> | now intros [= ->] ].
    + apply Z.eqb_neq in E. split; [ discriminate | now intros [= -> _] ].
Qed.

Lemma shouldFetch_spec (prev cur : list Z) :
  shouldFetch prev cur = false <-> Permutation prev cur.
Proof.
  unfold shouldFetch. split.
  - intros H. apply orb_false_iff in H. destruct H as [H Hcontent].
    apply orb_false_iff in H. destruct H as [_ Hlen].
    rewrite Hlen in Hcontent. apply negb_false_iff, Nat.eqb_eq in Hlen.
    apply differs_false in Hcontent;
      [ | now rewrite !length_sortNumbers ].
    rewrite <- (sortNumbers_perm prev), <- Hcontent.
    apply sortNumbers_perm.
  - intros Hperm. pose proof (Permutation_length Hperm) as Hlen.
    rewrite Hlen, Nat.eqb_refl. cbn [negb orb].
    rewrite (sortNumbers_of_perm prev cur Hperm).
    rewrite (proj2 (differs_false _ _ eq_refl) eq_refl), orb_false_r.
    destruct cur; reflexivity.
Qed.

End StakingFacts.

Section StakingExtras.

Import UseStaking.

(** X20.  Whatever sequence of [setupRewardsEstimation] calls and
    clean-ups the hook goes through, at most one estimation ticker runs,
    and it is the one [rewardsIntervalRef] records.  After a call with no
    miner and after a clean-up none runs; after any other call exactly
    one runs, bound to the four values of that call. *)
Theorem rewards_estimation_keeps_one_ticker :
  forall (acts : list EstimationAction)
         (baseRewards gemsPerSecond : string)
         (minerCount lastUpdateTime : Z),
    let e := runEstimation acts in
    let e' := setupRewardsEstimation baseRewards gemsPerSecond minerCount
                                     lastUpdateTime e in
    (List.length (tickers e) <= 1)%nat
    /\ (forall t, In t (tickers e) ->
                  rewardsIntervalRef e = Some (tk_id t))
    /\ tickers (stopRewardsEstimation e) = []
    /\ (minerCount = 0 -> tickers e' = [])
    /\ (minerCount <> 0 ->
        exists id,
          rewardsIntervalRef e' = Some id
          /\ tickers e'
             = [ {| tk_id := id; tk_baseRewards := baseRewards;
                    tk_gemsPerSecond := gemsPerSecond;
                    tk_minerCount := minerCount;
                    tk_lastUpdateTime := lastUpdateTime |} ]).
Proof.
  intros acts b g n t e e'.
  pose proof (runEstimation_single acts) as Hinv. fold e in Hinv.
  destruct (setupRewardsEstimation_single b g n t e Hinv)
    as [Hinv' [Hzero Hsome]]. fold e' in Hinv', Hzero, Hsome.
  split; [ | split; [ | split; [ | split ] ] ].
  - destruct Hinv as [-> | [tk [-> _]]]; cbn; lia.
  - intros tk Hin. destruct Hinv as [Hnone | [tk' [Hone Href]]].
    + rewrite Hnone in Hin. contradiction.
    + rewrite Hone in Hin. destruct Hin as [ <- | [] ]. exact Href.
  - now apply stopRewardsEstimation_single.
  - exact Hzero.
  - intros Hn. destruct (Hsome Hn) as [id Hid]. exists id.
    split; [ | exact Hid ].
    destruct Hinv' as [Hnone | [tk [Hone Href]]]; [ congruence | ].
    rewrite Hid in Hone. injection Hone as <-. exact Href.
Qed.

Lemma rewards_estimation_keeps_one_ticker_witness :
  let acts := [ Estimate "1.5" "0.01" 2 1000; StopEstimation;
                Estimate "2.5" "0.01" 3 2000 ] in
  map tk_minerCount (tickers (runEstimation acts)) = [3]
  /\ tickers (setupRewardsEstimation "0" "0" 0 3000 (runEstimation acts))
     = [].
Proof.
  intros acts.
  destruct (rewards_estimation_keeps_one_ticker acts "0" "0" 0 3000)
    as [_ [_ [_ [Hzero _]]]].
  split; [ reflexivity | exact (Hzero eq_refl) ].
Defined.

(** X21.  What [handleSyncUpdate] shows of a [getStakingData] result:
    never an error and never a loading state, a miner count that is the
    length of the list, the estimate reset to the pending rewards, and a
    running ticker exactly when there are miners.  When one of the three
    reads failed, that is an empty list, zero rewards, zero rate and no
    ticker, with [error] still null. *)
Theorem sync_update_hides_failed_reads :
  forall (NFT : Type) (formatUnits : Z -> Z -> string)
         (NumberOfBigInt : Z -> Z) (svc : StakingSyncService.Service)
         (chain : StakingSyncService.Chain) (walletAddress : string)
         (now : Z) (st : StakingState NFT) (acts : list EstimationAction),
    let data :=
      fst (StakingSyncService.getStakingData formatUnits NumberOfBigInt svc
                                             chain walletAddress now) in
    let res := handleSyncUpdate data st (runEstimation acts) in
    error (fst res) = None
    /\ isLoading (fst res) = false
    /\ autoSyncEnabled (fst res) = true
    /\ stakedMinerCount (fst res)
       = Z.of_nat (List.length (stakedMiners (fst res)))
    /\ estimatedRewards (fst res) = pendingRewards (fst res)
    /\ lastRewardsUpdate (fst res) = now
    /\ availableMiners (fst res) = availableMiners st
    /\ (tickers (snd res) = [] <-> stakedMiners (fst res) = [])
    /\ (someReadFails chain = true ->
        stakedMiners (fst res) = []
        /\ pendingRewards (fst res) = "0"%string
        /\ gemsPerSecond (fst res) = "0"%string
        /\ tickers (snd res) = []).
Proof.
  intros NFT formatUnits NumberOfBigInt svc chain walletAddress now st acts
         data res.
  pose proof (runEstimation_single acts) as Hinv.
  assert (Hdata : StakingSyncService.stakedMinerCount data
                  = Z.of_nat (List.length
                                (StakingSyncService.stakedMiners data))
                  /\ StakingSyncService.lastSyncTimestamp data = now
                  /\ (someReadFails chain = true ->
                      data = StakingSyncService.fallbackData walletAddress
                                                             now)).
  { subst data. unfold StakingSyncService.getStakingData, someReadFails.
    destruct (StakingSyncService.rpc_getStakedMiners chain) as [ ms | e1 ];
      [ | now repeat split ].
    destruct (StakingSyncService.rpc_getPendingRewards chain) as [ r | e2 ];
      [ | now repeat split ].
    destruct (StakingSyncService.rpc_GEMS_PER_SECOND chain) as [ g | e3 ];
      [ | now repeat split ].
    cbn. rewrite length_map. split; [ reflexivity | ].
    split; [ reflexivity | discriminate ]. }
  destruct Hdata as [Hcount [Htime Hfail]].
  assert (Htick : tickers (snd res) = []
                  <-> StakingSyncService.stakedMiners data = []).
  { subst res. cbn [snd handleSyncUpdate].
    destruct (setupRewardsEstimation_single
                (StakingSyncService.pendingRewards data)
                (StakingSyncService.gemsPerSecond data)
                (StakingSyncService.stakedMinerCount data)
                (StakingSyncService.lastSyncTimestamp data)
                (runEstimation acts) Hinv) as [_ [Hzero Hsome]].
    split.
    - intros Hnone.
      destruct (Z.eq_dec (StakingSyncService.stakedMinerCount data) 0)
        as [Hz | Hnz].
      + rewrite Hcount in Hz.
        destruct (StakingSyncService.stakedMiners data);
          [ reflexivity | cbn in Hz; lia ].
      + destruct (Hsome Hnz) as [id Hid]. congruence.
    - intros Hempty. apply Hzero. now rewrite Hcount, Hempty. }
  subst res. cbn [fst handleSyncUpdate error isLoading autoSyncEnabled
                  stakedMinerCount stakedMiners estimatedRewards
                  pendingRewards lastRewardsUpdate availableMiners
                  gemsPerSecond] in *.
  do 7 (split; [ first [ reflexivity | assumption ] | ]).
  split; [ exact Htick | ].
  intros Hf. specialize (Hfail Hf).
  split; [ now rewrite Hfail | ]. split; [ now rewrite Hfail | ].
  split; [ now rewrite Hfail | ].
  apply Htick. now rewrite Hfail.
Qed.

Lemma sync_update_hides_failed_reads_witness :
  let data :=
    fst (StakingSyncService.getStakingData
           sampleFormatUnits (fun z => z)
           {| StakingSyncService.svc_lastSyncTimestamp := 0 |}
           failingChain "0xA11CE" 50000) in
  let res := handleSyncUpdate data (initialState nat 40000)
                              (runEstimation [Estimate "1.5" "0.01" 2 1000])
  in
  someReadFails failingChain = true
  /\ stakedMiners (fst res) = [] /\ error (fst res) = None
  /\ tickers (snd res) = [].
Proof.
  intros data res.
  assert (Hf : someReadFails failingChain = true) by reflexivity.
  destruct (sync_update_hides_failed_reads
              nat sampleFormatUnits (fun z => z)
              {| StakingSyncService.svc_lastSyncTimestamp := 0 |}
              failingChain "0xA11CE"%string 50000 (initialState nat 40000)
              [Estimate "1.5" "0.01" 2 1000])
    as [Herr [_ [_ [_ [_ [_ [_ [_ Hfail]]]]]]]].
  destruct (Hfail Hf) as [Hempty [_ [_ Hnone]]].
  split; [ exact Hf | ]. split; [ exact Hempty | ].
  split; [ exact Herr | exact Hnone ].
Defined.

(** X22.  The effect that watches the staked miners fetches the
    available miners exactly when the new list is not a rearrangement of
    the one it remembers; when the wallet is connected it remembers a
    rearrangement of the new list afterwards, and when it is not it
    neither fetches nor remembers. *)
Theorem miners_effect_fetches_on_real_change :
  forall prev cur : list Z,
    (shouldFetch prev cur = false <-> Permutation prev cur)
    /\ (fst (minersEffect true prev cur) = true <-> ~ Permutation prev cur)
    /\ Permutation (snd (minersEffect true prev cur)) cur
    /\ minersEffect false prev cur = (false, prev).
Proof.
  intros prev cur. pose proof (shouldFetch_spec prev cur) as Hspec.
  split; [ exact Hspec | ]. unfold minersEffect. cbn [negb].
  destruct (shouldFetch prev cur) eqn:Hs; cbn [fst snd].
  - split; [ | split; [ reflexivity | reflexivity ] ].
    split; [ intros _ Hperm | reflexivity ].
    apply Hspec in Hperm. discriminate.
  - split; [ | split; [ now apply Hspec | reflexivity ] ].
    split; [ discriminate | ]. intros Hnot. exfalso. apply Hnot.
    now apply Hspec.
Qed.

Lemma miners_effect_fetches_on_real_change_witness :
  minersEffect true [3; 1; 2] [2; 3; 1] = (false, [3; 1; 2])
  /\ ~ Permutation [3; 1; 2] [2; 3; 4].
Proof.
  destruct (miners_effect_fetches_on_real_change [3; 1; 2] [2; 3; 4])
    as [_ [Hfetch _]].
  split; [ reflexivity | ]. apply Hfetch. reflexivity.
Defined.

(** X23.  [fetchAvailableMiners], run to its end.  Without the NFT
    service or an address, and within five seconds of the fetch time the
    callback is bound to unless forced, it changes nothing.  Otherwise it
    records its time and ends with [loadingMiners] false: on success with
    no error and exactly the owned tokens whose id is not staked, in the
    order they were read; on failure with the available miners as they
    were and an error that starts with "Failed to fetch NFTs: ".  It
    never touches the staked miners or the rewards. *)
Theorem available_miners_are_owned_and_unstaked :
  forall (NFT : Type) (idOf : NFT -> Z) (hasNftService : bool)
         (address : option string) (closureLastFetchTime : Z)
         (force : bool) (now : Z) (owned : list NFT + option string)
         (stakedMinersRef : list Z) (st : StakingState NFT)
         (lastFetchTime : Z),
    let res := fetchAvailableMiners idOf hasNftService address
                 closureLastFetchTime force now owned stakedMinersRef st
                 lastFetchTime in
    let skipped :=
      negb hasNftService || negb (truthy address)
      || negb force && (now - closureLastFetchTime <? FETCH_COOLDOWN_MS) in
    (skipped = true -> res = (st, lastFetchTime))
    /\ (skipped = false ->
        snd res = now
        /\ loadingMiners (fst res) = false
        /\ match owned with
           | inl ownedNFTs =>
               error (fst res) = None
               /\ (forall nft : NFT,
                      In nft (availableMiners (fst res))
                      <-> In nft ownedNFTs
                          /\ ~ In (idOf nft) stakedMinersRef)
               /\ availableMiners (fst res)
                  = filter (fun nft =>
                              negb (existsb (Z.eqb (idOf nft))
                                            stakedMinersRef))
                           ownedNFTs
           | inr thrown =>
               availableMiners (fst res) = availableMiners st
               /\ exists message,
                    error (fst res)
                    = Some (append "Failed to fetch NFTs: " message)
           end)
    /\ stakedMiners (fst res) = stakedMiners st
    /\ stakedMinerCount (fst res) = stakedMinerCount st
    /\ pendingRewards (fst res) = pendingRewards st
    /\ estimatedRewards (fst res) = estimatedRewards st.
Proof.
  intros NFT idOf hasNftService address closureLastFetchTime force now owned
         stakedMinersRef st lastFetchTime res skipped.
  subst res skipped. unfold fetchAvailableMiners.
  destruct (negb hasNftService || negb (truthy address)); cbn [orb].
  { split; [ reflexivity | ]. split; [ discriminate | now repeat split ]. }
  destruct (negb force && (now - closureLastFetchTime <? FETCH_COOLDOWN_MS)).
  { split; [ reflexivity | ]. split; [ discriminate | now repeat split ]. }
  split; [ discriminate | ]. split; [ | destruct owned; now repeat split ].
  intros _. destruct owned as [ ownedNFTs | thrown ]; cbn.
  - split; [ reflexivity | ]. split; [ reflexivity | ].
    split; [ reflexivity | ]. split; [ | reflexivity ].
    intros nft. unfold availableForStaking. rewrite filter_In.
    split; intros [Hin Hfree]; (split; [ exact Hin | ]).
    + intros Hstaked. apply negb_true_iff in Hfree.
      assert (Hex : existsb (Z.eqb (idOf nft)) stakedMinersRef = true).
      { apply existsb_exists. exists (idOf nft).
        split; [ exact Hstaked | apply Z.eqb_refl ]. }
      congruence.
    + apply negb_true_iff.
      destruct (existsb (Z.eqb (idOf nft)) stakedMinersRef) eqn:E;
        [ | reflexivity ].
      apply existsb_exists in E. destruct E as [x [Hx Heq]].
      apply Z.eqb_eq in Heq. subst x. contradiction.
  - split; [ reflexivity | ]. split; [ reflexivity | ].
    split; [ reflexivity | ].
    destruct thrown as [ message | ]; eexists; reflexivity.
Qed.

Lemma available_miners_are_owned_and_unstaked_witness :
  let st := initialState nat 40000 in
  let res := fetchAvailableMiners Z.of_nat true (Some "0xA11CE"%string)
               0 false 50000 (inl [7; 8; 9]%nat) [8] st 0 in
  availableMiners (fst res) = [7; 9]%nat /\ snd res = 50000
  /\ fetchAvailableMiners Z.of_nat true (Some "0xA11CE"%string)
                          50000 false 52000 (inl [7; 8; 9]%nat) [8]
                          (fst res) (snd res)
     = res.
Proof.
  intros st res.
  destruct (available_miners_are_owned_and_unstaked
              nat Z.of_nat true (Some "0xA11CE"%string) 0 false 50000
              (inl [7; 8; 9]%nat) [8] st 0) as [_ [Hrun _]].
  destruct (Hrun eq_refl) as [Htime [_ [_ [_ Havail]]]].
  destruct (available_miners_are_owned_and_unstaked
              nat Z.of_nat true (Some "0xA11CE"%string) 50000 false 52000
              (inl [7; 8; 9]%nat) [8] (fst res) (snd res)) as [Hskip _].
  split; [ exact Havail | ]. split; [ exact Htime | ].
  rewrite (Hskip eq_refl). reflexivity.
Defined.

End StakingExtras.

(** ** The network of the configuration *)

Section NetworkFacts.

Import Contracts.

Lemma lookup_In {A : Type} (key : string) (l : list (string * A)) (v : A) :
  lookup key l = Some v -> In v (map snd l).
Proof.
  induction l as [ | [k x] l IH ]; cbn [lookup map snd]; [ discriminate | ].
  destruct (String.eqb k key); [ intros [= <-]; now left | ].
  intros H. right. now apply IH.
Qed.

End NetworkFacts.

Section NetworkExtras.

Import Contracts.

(** X24.  [getChainId] and [getContractAddress] read the same network
    variable.  The chain id is 2020 exactly when the network is
    "mainnet", and then every address returned is the cleaned mainnet
    value of an entry of the table; it is 2021 for every other value,
    but an address is returned only for "testnet", and is then the
    cleaned testnet value of an entry.  For any other network name (the
    names of inherited object members apart) the chain id is still 2021
    while [getContractAddress] throws for every contract name. *)
Theorem chain_id_follows_the_address_network :
  forall env : string -> option string,
    ownNetworkName env ->
    let network := orElse env "VITE_NETWORK_ENV" "testnet" in
    (getChainId env = 2020 <-> network = "mainnet"%string)
    /\ (getChainId env = 2021 <-> network <> "mainnet"%string)
    /\ (forall name a : string,
           getContractAddress env name = Resolved a ->
           exists e : Entry,
             In e (map snd (CONTRACT_ADDRESSES env))
             /\ ((getChainId env = 2020 /\ a = cleanAddress (mainnet e))
                 \/ (getChainId env = 2021 /\ network = "testnet"%string
                     /\ a = cleanAddress (testnet e))))
    /\ (~ networkConfigured env ->
        getChainId env = 2021
        /\ forall name : string,
             is_rejected (getContractAddress env name) = true).
Proof.
  intros env _ network.
  assert (Hid : (getChainId env = 2020 <-> network = "mainnet"%string)
                /\ (getChainId env = 2021 <-> network <> "mainnet"%string)).
  { unfold getChainId. fold network.
    destruct (String.eqb network "mainnet") eqn:E.
    - apply String.eqb_eq in E.
      split; split; try reflexivity; try discriminate; intros; congruence.
    - apply String.eqb_neq in E.
      split; split; try reflexivity; try discriminate; intros; congruence. }
  destruct Hid as [Hmain Htest].
  split; [ exact Hmain | ]. split; [ exact Htest | ]. split.
  - intros name a. unfold getContractAddress. fold network.
    set (key := match lookup name contractMap with
                | Some k => k
                | None => name
                end).
    destruct (lookup key (CONTRACT_ADDRESSES env)) as [ e | ] eqn:Hkey;
      [ | discriminate ].
    apply lookup_In in Hkey. unfold lookupNetwork.
    destruct (String.eqb network "mainnet") eqn:E1.
    + apply String.eqb_eq in E1. intros [= <-]. exists e.
      split; [ exact Hkey | left ]. split; [ now apply Hmain | reflexivity ].
    + apply String.eqb_neq in E1.
      destruct (String.eqb network "testnet") eqn:E2; [ | discriminate ].
      apply String.eqb_eq in E2. intros [= <-]. exists e.
      split; [ exact Hkey | right ].
      split; [ now apply Htest | split; [ exact E2 | reflexivity ] ].
  - intros Hnot. unfold networkConfigured in Hnot. fold network in Hnot.
    assert (Hm : network <> "mainnet"%string) by tauto.
    assert (Ht : network <> "testnet"%string) by tauto.
    split; [ now apply Htest | ].
    intros name. unfold getContractAddress. fold network.
    destruct (lookup _ (CONTRACT_ADDRESSES env)) as [ e | ];
      [ | reflexivity ].
    unfold lookupNetwork.
    now rewrite (proj2 (String.eqb_neq _ _) Hm),
                (proj2 (String.eqb_neq _ _) Ht).
Qed.

Lemma chain_id_follows_the_address_network_witness :
  let env := fun name : string =>
               if String.eqb name "VITE_NETWORK_ENV"
               then Some "staging"%string else None in
  getChainId env = 2021
  /\ is_rejected (getContractAddress env "StakingProxy") = true.
Proof.
  intros env.
  assert (Hown : ownNetworkName env).
  { unfold ownNetworkName. vm_compute. intuition discriminate. }
  destruct (chain_id_follows_the_address_network env Hown)
    as [_ [_ [_ Hother]]].
  assert (Hnot : ~ networkConfigured env).
  { intros [H | H]; vm_compute in H; discriminate. }
  destruct (Hother Hnot) as [Hid Hthrows].
  split; [ exact Hid | apply Hthrows ].
Defined.

End NetworkExtras.
